(** * Krishna Knowledge app: quiz parser, quiz session and chat post-processing

    A shallow embedding of [custom_pages/quiz.py] (the response parser
    [parse_quiz_question], the result of [generate_quiz_question], and the
    session transitions, the radio and the results of [show_quiz_page]) and
    of the chat history and the answer post-processing of
    [custom_pages/chatbot.py].

    Text is a [string] of 8-bit characters.  Case mapping and white space
    are those of ASCII, which is what [str.upper] and [str.strip] do on
    ASCII text; a character above 127 is kept as it is and is not white
    space. *)

From Stdlib Require Import String Ascii QArith Qabs Qround.
From Stdlib Require Import Floats.PrimFloat Numbers.Cyclic.Int63.Uint63.
From Stdlib Require Import Floats.SpecFloat Floats.FloatOps.
From stdpp Require Import gmap strings list fin_maps sorting.

Local Open Scope string_scope.
Local Open Scope list_scope.

(** ** Python string operations used by the application *)

Module PyStr.

(** [c.isspace()] on ASCII: TAB, LF, VT, FF, CR, FS, GS, RS, US, space. *)
Definition isspace (c : ascii) : bool :=
  let n := nat_of_ascii c in
  (((9 <=? n) && (n <=? 13)) || ((28 <=? n) && (n <=? 32)))%nat.

Definition upper_char (c : ascii) : ascii :=
  let n := nat_of_ascii c in
  if ((97 <=? n) && (n <=? 122))%nat then ascii_of_nat (n - 32) else c.

(** [s.upper()] *)
Fixpoint upper (s : string) : string :=
  match s with
  | EmptyString => EmptyString
  | String c s' => String (upper_char c) (upper s')
  end.

(** [bool(s)]: a string is truthy when it is not empty. *)
Definition truthy (s : string) : bool :=
  match s with
  | EmptyString => false
  | String _ _ => true
  end.

(** [s.startswith(p)] *)
Definition startswith (s p : string) : bool := String.prefix p s.

(** [needle in s] *)
Fixpoint contains (needle s : string) : bool :=
  if String.prefix needle s then true
  else match s with
       | EmptyString => false
       | String _ s' => contains needle s'
       end.

Fixpoint lstrip (s : string) : string :=
  match s with
  | EmptyString => EmptyString
  | String c s' => if isspace c then lstrip s' else s
  end.

Fixpoint rstrip (s : string) : string :=
  match s with
  | EmptyString => EmptyString
  | String c s' =>
      let r := rstrip s' in
      if isspace c && negb (truthy r) then EmptyString else String c r
  end.

(** [s.strip()] *)
Definition strip (s : string) : string := rstrip (lstrip s).

(** [s.split(sep)] for a one-character separator: always at least one
    piece. *)
Fixpoint split (sep : ascii) (s : string) : list string :=
  match s with
  | EmptyString => [EmptyString]
  | String c s' =>
      if Ascii.eqb c sep then EmptyString :: split sep s'
      else match split sep s' with
           | [] => [String c EmptyString]
           | p :: ps => String c p :: ps
           end
  end.

(** [s.split(sep, 1)]: one piece when [sep] does not occur, otherwise the
    text before its first occurrence and the text after it. *)
Fixpoint split1 (sep : ascii) (s : string) : list string :=
  match s with
  | EmptyString => [EmptyString]
  | String c s' =>
      if Ascii.eqb c sep then [EmptyString; s']
      else match split1 sep s' with
           | p :: ps => String c p :: ps
           | [] => [String c EmptyString]
           end
  end.

(** [s[n:]] *)
Fixpoint slice_from (n : nat) (s : string) : string :=
  match n, s with
  | 0, _ => s
  | S n', String _ s' => slice_from n' s'
  | S _, EmptyString => EmptyString
  end.

Definition LF : ascii := ascii_of_nat 10.

End PyStr.

Import PyStr.

(** ** The quiz response parser ([parse_quiz_question]) *)

Module Quiz.

(** What a Python expression evaluates to: a value, or a raised exception. *)
Inductive exn := IndexError.

Inductive py (A : Type) :=
| Ret (a : A)
| Exc (e : exn).
Arguments Ret {A} a.
Arguments Exc {A} e.

(** [xs[i]] *)
Definition item {A} (xs : list A) (i : nat) : py A :=
  match xs !! i with
  | Some x => Ret x
  | None => Exc IndexError
  end.

(** [x in xs] for a list of strings *)
Definition in_list (x : string) (xs : list string) : bool :=
  existsb (String.eqb x) xs.

(** The four locals the scan assigns: [question], [options], [correct] and
    [explanation]. *)
Record fields := Fields {
  f_question : string;
  f_options : gmap string string;
  f_correct : string;
  f_explanation : string
}.

Definition init_fields : fields :=
  {| f_question := ""; f_options := ∅; f_correct := ""; f_explanation := "" |}.

Definition set_question (st : fields) (q : string) : fields :=
  {| f_question := q; f_options := f_options st;
     f_correct := f_correct st; f_explanation := f_explanation st |}.

Definition set_option (st : fields) (key value : string) : fields :=
  {| f_question := f_question st; f_options := <[key := value]> (f_options st);
     f_correct := f_correct st; f_explanation := f_explanation st |}.

Definition set_correct (st : fields) (c : string) : fields :=
  {| f_question := f_question st; f_options := f_options st;
     f_correct := c; f_explanation := f_explanation st |}.

Definition set_explanation (st : fields) (e : string) : fields :=
  {| f_question := f_question st; f_options := f_options st;
     f_correct := f_correct st; f_explanation := e |}.

(** The dictionary [parse_quiz_question] returns. *)
Record quiz_data := QuizData {
  question : string;
  options : gmap string string;
  correct : string;
  explanation : string
}.

(** [lines = [line.strip() for line in response.split('\n') if line.strip()]] *)
Definition response_lines (response : string) : list string :=
  map strip (List.filter (fun line => truthy (strip line)) (split LF response)).

Definition choices : list string := ["A"; "B"; "C"; "D"].

(** [line.startswith(("A)", "B)", "C)", "D)"))] *)
Definition starts_option (line : string) : bool :=
  existsb (startswith line) ["A)"; "B)"; "C)"; "D)"].

Definition section_keywords : list string :=
  ["QUESTION:"; "CORRECT:"; "A)"; "B)"; "C)"; "D)"].

(** [any(keyword in next_line.upper() for keyword in [...])] *)
Definition hits_section (next_line : string) : bool :=
  existsb (fun keyword => contains keyword (upper next_line)) section_keywords.

(** [line[0].upper()] *)
Definition first_upper (line : string) : py string :=
  match line with
  | EmptyString => Exc IndexError
  | String c _ => Ret (upper (String c EmptyString))
  end.

(** [value = line[2:].strip() if len(line) > 2 else ""], then the removal
    of one extra closing parenthesis. *)
Definition option_value (line : string) : string :=
  let value := if (2 <? String.length line)%nat then strip (slice_from 2 line) else "" in
  if startswith value ")" then strip (slice_from 1 value) else value.

(** The [for char in correct_part] loop: the first character among
    A, B, C, D, when there is one. *)
Fixpoint first_choice (correct_part : string) : option string :=
  match correct_part with
  | EmptyString => None
  | String char s' =>
      if in_list (String char EmptyString) choices then Some (String char EmptyString)
      else first_choice s'
  end.

(** The main [while i < len(lines)] loop.  The argument [lines] is
    [lines[i:]]; the inner [collect] is the [while j < len(lines)] loop of the
    explanation branch, over [lines[j:]]. *)
Fixpoint scan (lines : list string) (st : fields) {struct lines} : py fields :=
  match lines with
  | [] => Ret st
  | line0 :: rest =>
      let line := strip line0 in
      let line_upper := upper line in
      if contains "QUESTION:" line_upper then
        if contains ":" line then
          match item (split1 ":" line) 1 with
          | Exc e => Exc e
          | Ret part =>
              let question_part := strip part in
              if truthy question_part then scan rest (set_question st question_part)
              else match rest with
                   | [] => Ret st
                   | next :: rest' => scan rest' (set_question st (strip next))
                   end
          end
        else scan rest st
      else if starts_option line then
        match first_upper line with
        | Exc e => Exc e
        | Ret key => scan rest (set_option st key (option_value line))
        end
      else if contains "CORRECT:" line_upper then
        match item (split1 ":" line) 1 with
        | Exc e => Exc e
        | Ret part =>
            let correct_part := upper (strip part) in
            match first_choice correct_part with
            | Some char => scan rest (set_correct st char)
            | None => scan rest st
            end
        end
      else if contains "EXPLANATION:" line_upper then
        match item (split1 ":" line) 1 with
        | Exc e => Exc e
        | Ret part =>
            let explanation_part := strip part in
            (fix collect (after : list string) (explanation : string)
                 {struct after} : py fields :=
               match after with
               | [] => Ret (set_explanation st explanation)
               | next :: after' =>
                   let next_line := strip next in
                   if hits_section next_line
                   then scan after (set_explanation st explanation)
                   else collect after' (explanation +:+ " " +:+ next_line)
               end) rest
              (if truthy explanation_part then explanation_part
               else f_explanation st)
        end
      else scan rest st
  end.

(** The validation after the loop and the returned dictionary. *)
Definition validate (st : fields) : option quiz_data :=
  if negb (truthy (f_question st)) then None
  else if (size (f_options st) <? 4)%nat then None
  else if negb (in_list (f_correct st) choices) then None
  else Some {| question := f_question st; options := f_options st;
               correct := f_correct st; explanation := f_explanation st |}.

(** The body of the [try] block. *)
Definition parse_body (response : string) : py (option quiz_data) :=
  match scan (response_lines response) init_fields with
  | Exc e => Exc e
  | Ret st => Ret (validate st)
  end.

(** [parse_quiz_question]: the [except Exception] handler returns [None]. *)
Definition parse_quiz_question (response : string) : option quiz_data :=
  match parse_body response with
  | Ret result => result
  | Exc _ => None
  end.

End Quiz.

(** ** The quiz session ([show_quiz_page]) *)

Module Session.
Import Quiz.

(** [st.session_state.quiz_state] *)
Record quiz_state := QuizState {
  questions : list quiz_data;
  current_question_index : nat;
  total_questions_selected : nat;
  score : nat;
  answered : bool;
  selected_answer : option string;
  quiz_started : bool;
  quiz_completed : bool
}.

(** The state the page starts from, and the one "Take Another Quiz" restores. *)
Definition initial_state : quiz_state :=
  {| questions := []; current_question_index := 0;
     total_questions_selected := 5; score := 0; answered := false;
     selected_answer := None; quiz_started := false; quiz_completed := false |}.

(** The three branches of the page, by the two flags. *)
Inductive phase := Setup | InProgress | Completed.

Definition phase_of (st : quiz_state) : phase :=
  if negb (quiz_started st) && negb (quiz_completed st) then Setup
  else if quiz_started st && negb (quiz_completed st) then InProgress
  else if quiz_completed st then Completed
  else Setup.

(** What the page shows while the questions are generated. *)
Inductive ui_event :=
| Generating (slot : nat)
| RetryWarning (slot : nat)
| Success (generated : nat)
| Error.

(** [quiz_data and quiz_data.get("question") and quiz_data.get("options")] *)
Definition usable (quiz_data : option quiz_data) : bool :=
  match quiz_data with
  | None => false
  | Some d => truthy (question d) && negb (bool_decide (options d = ∅))
  end.

Section Start.

(** The generation service is outside the program: [reply k] is the text
    that the [k]-th call of [generate_quiz_question] returns (the model's
    answer, or the error text the function returns when the call fails). *)
Variable reply : nat -> string.

(** The running state of the [for i in range(num_questions)] loop: the
    number of calls made so far, the list [questions], and what was shown. *)
Record gen_state := GenState {
  calls : nat;
  generated : list quiz_data;
  shown : list ui_event
}.

(** One iteration of the loop, for slot [i]. *)
Definition generate_slot (g : gen_state) (i : nat) : gen_state :=
  let shown1 := shown g ++ [Generating (i + 1)] in
  let quiz_data := parse_quiz_question (reply (calls g)) in
  if usable quiz_data then
    {| calls := calls g + 1;
       generated := generated g ++ option_list quiz_data;
       shown := shown1 |}
  else
    let shown2 := shown1 ++ [RetryWarning (i + 1)] in
    let quiz_data := parse_quiz_question (reply (calls g + 1)) in
    if usable quiz_data then
      {| calls := calls g + 2;
         generated := generated g ++ option_list quiz_data;
         shown := shown2 |}
    else
      {| calls := calls g + 2; generated := generated g; shown := shown2 |}.

Definition generate_all (num_questions : nat) (calls0 : nat) : gen_state :=
  fold_left generate_slot (seq 0 num_questions)
    {| calls := calls0; generated := []; shown := [] |}.

(** The "Start Quiz" button, pressed in the Setup phase with the selected
    number of questions; [calls0] is the number of calls made before.  The
    result is the new session state, what was shown, and the call count. *)
Definition start_quiz (num_questions : nat) (calls0 : nat)
  : quiz_state * list ui_event * nat :=
  let reset :=
    {| questions := []; current_question_index := 0;
       total_questions_selected := num_questions; score := 0;
       answered := false; selected_answer := None;
       quiz_started := true; quiz_completed := false |} in
  let g := generate_all num_questions calls0 in
  match generated g with
  | _ :: _ =>
      ({| questions := generated g;
          current_question_index := current_question_index reset;
          total_questions_selected := total_questions_selected reset;
          score := score reset; answered := answered reset;
          selected_answer := selected_answer reset;
          quiz_started := quiz_started reset;
          quiz_completed := quiz_completed reset |},
       shown g ++ [Success (length (generated g))], calls g)
  | [] =>
      ({| questions := questions reset;
          current_question_index := current_question_index reset;
          total_questions_selected := total_questions_selected reset;
          score := score reset; answered := answered reset;
          selected_answer := selected_answer reset;
          quiz_started := false;
          quiz_completed := quiz_completed reset |},
       shown g ++ [Error], calls g)
  end.

End Start.

(** The "Submit Answer" button: [selected] is the radio choice, a label
    [key) text] or nothing. *)
Definition submit_answer (st : quiz_state) (selected : option string) : quiz_state :=
  if quiz_started st && negb (quiz_completed st) then
    match questions st !! current_question_index st with
    | Some current_question =>
        if negb (answered st) then
          match selected with
          | Some (String c _) =>
              let selected_letter := String c EmptyString in
              {| questions := questions st;
                 current_question_index := current_question_index st;
                 total_questions_selected := total_questions_selected st;
                 score := if String.eqb selected_letter (correct current_question)
                          then score st + 1 else score st;
                 answered := true;
                 selected_answer := Some selected_letter;
                 quiz_started := quiz_started st;
                 quiz_completed := quiz_completed st |}
          | _ => st
          end
        else st
    | None => st
    end
  else st.

(** The "Next Question" button, shown once the question is answered and
    another one follows. *)
Definition next_question (st : quiz_state) : quiz_state :=
  if quiz_started st && negb (quiz_completed st)
     && (current_question_index st <? length (questions st))%nat
     && answered st
     && (current_question_index st + 1 <? length (questions st))%nat
  then
    {| questions := questions st;
       current_question_index := current_question_index st + 1;
       total_questions_selected := total_questions_selected st;
       score := score st; answered := false; selected_answer := None;
       quiz_started := quiz_started st; quiz_completed := quiz_completed st |}
  else st.

(** The "Finish Quiz" button, shown once the last question is answered. *)
Definition finish_quiz (st : quiz_state) : quiz_state :=
  if quiz_started st && negb (quiz_completed st)
     && (current_question_index st <? length (questions st))%nat
     && answered st
     && negb (current_question_index st + 1 <? length (questions st))%nat
  then
    {| questions := questions st;
       current_question_index := current_question_index st;
       total_questions_selected := total_questions_selected st;
       score := score st; answered := answered st;
       selected_answer := selected_answer st;
       quiz_started := quiz_started st; quiz_completed := true |}
  else st.

(** The results page: [percentage = (score / total) * 100], as an exact
    rational (the program computes it in floating point and shows it with
    one decimal); the division raises [ZeroDivisionError] when [total] is 0. *)
Definition percentage (st : quiz_state) : option Q :=
  if (total_questions_selected st =? 0)%nat then None
  else Some ((inject_Z (Z.of_nat (score st))
              / inject_Z (Z.of_nat (total_questions_selected st))) * 100)%Q.

(** The same computation in binary64, as the program runs it: the true
    division of the two integers, then the product with 100. *)
Definition percentage_float (st : quiz_state) : option float :=
  if (total_questions_selected st =? 0)%nat then None
  else Some (PrimFloat.mul
               (PrimFloat.div (PrimFloat.of_uint63 (Uint63.of_nat (score st)))
                  (PrimFloat.of_uint63
                     (Uint63.of_nat (total_questions_selected st))))
               (PrimFloat.of_uint63 100%uint63)).

End Session.

(** ** The percentage as the results page reports it *)

Module Reported.
Import Session.

(** The rational number a binary64 value stands for; infinities and NaN
    stand for none. *)
Definition float_value (f : float) : option Q :=
  match Prim2SF f with
  | S754_zero _ => Some 0%Q
  | S754_finite s m e =>
      Some ((if s then -1 else 1) * inject_Z (Zpos m) * Qpower 2 e)%Q
  | _ => None
  end.

(** Rounding to the nearest integer, a half to the even one. *)
Definition round_half_even (q : Q) : Z :=
  let n := Qfloor q in
  match Qcompare (q - inject_Z n) (1 # 2) with
  | Lt => n
  | Gt => (n + 1)%Z
  | Eq => if Z.even n then n else (n + 1)%Z
  end.

(** [f"{percentage:.1f}"]: the value rounded to one decimal, as a number
    of tenths. *)
Definition shown_tenths (percentage : Q) : Z :=
  round_half_even (percentage * 10).

(** The check, for a score out of a total, that the floating-point
    percentage is a number within [2^-52] of the exact percentage,
    relatively, and is shown with the same decimal. *)
Definition percentage_close (total points : nat) : bool :=
  let st := {| questions := []; current_question_index := 0;
               total_questions_selected := total; score := points;
               answered := false; selected_answer := None;
               quiz_started := true; quiz_completed := true |} in
  match percentage st, percentage_float st with
  | Some p, Some f =>
      match float_value f with
      | Some v =>
          Qle_bool (Qabs (v - p)) (p * (1 # 2 ^ 52))
          && Z.eqb (shown_tenths v) (shown_tenths p)
      | None => false
      end
  | _, _ => false
  end.

End Reported.

(** ** The answer post-processing of the chatbot page *)

Module Chatbot.

Definition fallback : string :=
  "Hare Krishna! I apologize, but I'm having trouble processing your question. Please try asking in a different way.".

(** [if "retrieve" in ai_response and "{" in ai_response: ...] *)
Definition clean_artifacts (ai_response : string) : string :=
  if contains "retrieve" ai_response && contains "{" ai_response
  then fallback else ai_response.

(** [if not ai_response.startswith("Hare Krishna"): ...] *)
Definition ensure_salutation (ai_response : string) : string :=
  if negb (startswith ai_response "Hare Krishna")
  then "Hare Krishna! " +:+ ai_response
  else ai_response.

Definition postprocess (ai_response : string) : string :=
  ensure_salutation (clean_artifacts ai_response).

End Chatbot.

(** ** Derived views of the parser, used to state and prove its properties *)

Module View.
Import Quiz.

(** [c in s] for a character. *)
Fixpoint occurs (c : ascii) (s : string) : bool :=
  match s with
  | EmptyString => false
  | String d s' => Ascii.eqb d c || occurs c s'
  end.

(** The inner loop of the explanation branch on its own: the explanation
    text it builds and the lines it leaves to the main loop. *)
Fixpoint collect (after : list string) (explanation : string)
  : string * list string :=
  match after with
  | [] => (explanation, [])
  | next :: after' =>
      let next_line := strip next in
      if hits_section next_line then (explanation, after)
      else collect after' (explanation +:+ " " +:+ next_line)
  end.

(** One iteration of the main loop: the new locals and the lines left. *)
Definition step (line0 : string) (rest : list string) (st : fields)
  : py (fields * list string) :=
  let line := strip line0 in
  let line_upper := upper line in
  if contains "QUESTION:" line_upper then
    if contains ":" line then
      match item (split1 ":" line) 1 with
      | Exc e => Exc e
      | Ret part =>
          if truthy (strip part) then Ret (set_question st (strip part), rest)
          else match rest with
               | [] => Ret (st, [])
               | next :: rest' => Ret (set_question st (strip next), rest')
               end
      end
    else Ret (st, rest)
  else if starts_option line then
    match first_upper line with
    | Exc e => Exc e
    | Ret key => Ret (set_option st key (option_value line), rest)
    end
  else if contains "CORRECT:" line_upper then
    match item (split1 ":" line) 1 with
    | Exc e => Exc e
    | Ret part =>
        match first_choice (upper (strip part)) with
        | Some char => Ret (set_correct st char, rest)
        | None => Ret (st, rest)
        end
    end
  else if contains "EXPLANATION:" line_upper then
    match item (split1 ":" line) 1 with
    | Exc e => Exc e
    | Ret part =>
        let r := collect rest (if truthy (strip part) then strip part
                               else f_explanation st) in
        Ret (set_explanation st (fst r), snd r)
    end
  else Ret (st, rest).

(** The branch of the [if]/[elif] chain a line takes. *)
Inductive kind := KQuestion | KOption | KCorrect | KExplanation | KOther.

Definition classify (line : string) : kind :=
  let line_upper := upper line in
  if contains "QUESTION:" line_upper then KQuestion
  else if starts_option line then KOption
  else if contains "CORRECT:" line_upper then KCorrect
  else if contains "EXPLANATION:" line_upper then KExplanation
  else KOther.

(** The explanation with continuation lines appended as the inner loop
    does it: each line stripped, after one space. *)
Definition append_lines (explanation : string) (absorbed : list string) : string :=
  fold_left (λ acc l, acc +:+ " " +:+ strip l) absorbed explanation.

(** The parser from the list of lines on. *)
Definition parse_lines (lines : list string) : option quiz_data :=
  match scan lines init_fields with
  | Ret st => validate st
  | Exc _ => None
  end.

(** ["\n".join(lines)] *)
Fixpoint unlines (lines : list string) : string :=
  match lines with
  | [] => ""
  | [l] => l
  | l :: ls => l +:+ String LF (unlines ls)
  end.

(** A line that is not blank. *)
Definition nonblank (line : string) : bool := truthy (strip line).

(** The states of the main loop.  At the top of an iteration the loop holds
    the lines from [lines[i]] on and the locals; [reaches lines st0 rem st]
    says that the loop started on [lines] with the locals [st0] comes to
    the top of an iteration with [rem] left and the locals [st].  The loop
    reads the line [line0] when it reaches [line0 :: rest]: a line that an
    iteration passes over (the question text on the line after a QUESTION
    line, the lines appended to an explanation) is not read. *)
Inductive reaches (lines : list string) (st0 : fields)
  : list string → fields → Prop :=
| reaches_start : reaches lines st0 lines st0
| reaches_step (line0 : string) (rest : list string) (st st' : fields)
    (rest' : list string) :
    reaches lines st0 (line0 :: rest) st →
    step line0 rest st = Ret (st', rest') →
    reaches lines st0 rest' st'.

(** Two sets of locals that differ at most in the question. *)
Definition agree_but_question (s1 s2 : fields) : Prop :=
  f_options s1 = f_options s2 ∧ f_correct s1 = f_correct s2
  ∧ f_explanation s1 = f_explanation s2.

(** A QUESTION line with nothing behind its first colon: the main loop
    takes the line after it as the question text. *)
Definition announces_question (l : string) : bool :=
  contains "QUESTION:" (upper (strip l))
  && match split1 ":" (strip l) !! 1 with
     | Some part => negb (truthy (strip part))
     | None => false
     end.

(** A line that one of the first three branches of the chain takes: it has
    the QUESTION or the CORRECT marker, or begins with an option prefix. *)
Definition opens_section (l : string) : bool :=
  contains "QUESTION:" (upper (strip l))
  || starts_option (strip l)
  || contains "CORRECT:" (upper (strip l)).

(** *** The scan as a machine with three modes

    The main loop reads a line in one of three ways: as a line of its own
    ([Seek]), as the question text that an empty QUESTION line announced
    ([TakeQuestion]), or as a candidate continuation of the explanation
    ([Accumulate]). *)
Inductive mode := Seek | TakeQuestion | Accumulate.

(** The [if]/[elif] chain on one line: the new locals and the mode in which
    the next line is read. *)
Definition dispatch (line0 : string) (st : fields) : py (mode * fields) :=
  let line := strip line0 in
  let line_upper := upper line in
  if contains "QUESTION:" line_upper then
    if contains ":" line then
      match item (split1 ":" line) 1 with
      | Exc e => Exc e
      | Ret part =>
          if truthy (strip part) then Ret (Seek, set_question st (strip part))
          else Ret (TakeQuestion, st)
      end
    else Ret (Seek, st)
  else if starts_option line then
    match first_upper line with
    | Exc e => Exc e
    | Ret key => Ret (Seek, set_option st key (option_value line))
    end
  else if contains "CORRECT:" line_upper then
    match item (split1 ":" line) 1 with
    | Exc e => Exc e
    | Ret part =>
        match first_choice (upper (strip part)) with
        | Some char => Ret (Seek, set_correct st char)
        | None => Ret (Seek, st)
        end
    end
  else if contains "EXPLANATION:" line_upper then
    match item (split1 ":" line) 1 with
    | Exc e => Exc e
    | Ret part =>
        Ret (Accumulate,
             set_explanation st (if truthy (strip part) then strip part
                                 else f_explanation st))
    end
  else Ret (Seek, st).

Fixpoint run (m : mode) (lines : list string) (st : fields) : py fields :=
  match lines with
  | [] => Ret st
  | l :: rest =>
      let main :=
        match dispatch l st with
        | Ret (m', st') => run m' rest st'
        | Exc e => Exc e
        end in
      match m with
      | Seek => main
      | TakeQuestion => run Seek rest (set_question st (strip l))
      | Accumulate =>
          if hits_section (strip l) then main
          else run Accumulate rest
                 (set_explanation st (f_explanation st +:+ " " +:+ strip l))
      end
  end.

(** The mode after a line, which does not depend on the locals. *)
Definition mode_after (l : string) : mode :=
  match dispatch l init_fields with
  | Ret (m, _) => m
  | Exc _ => Seek
  end.

(** A line that starts with an option prefix, and one that the chain
    registers as an option (it has no QUESTION marker before that). *)
Definition option_line (l : string) : bool := starts_option (strip l).

Definition registers (l : string) : bool :=
  negb (contains "QUESTION:" (upper (strip l))) && starts_option (strip l).

(** The key and the entry an option line stands for. *)
Definition option_key (l : string) : string :=
  match strip l with
  | EmptyString => EmptyString
  | String c _ => upper (String c EmptyString)
  end.

Definition add_option (opts : gmap string string) (l : string)
  : gmap string string :=
  <[option_key l := option_value (strip l)]> opts.

(** The lines a run registers as options, in order, and the lines it takes
    as question text. *)
Fixpoint registered (m : mode) (lines : list string) : list string :=
  match lines with
  | [] => []
  | l :: rest =>
      let main := (if registers l then [l] else []) ++ registered (mode_after l) rest in
      match m with
      | Seek => main
      | TakeQuestion => registered Seek rest
      | Accumulate =>
          if hits_section (strip l) then main else registered Accumulate rest
      end
  end.

Fixpoint eaten (m : mode) (lines : list string) : list string :=
  match lines with
  | [] => []
  | l :: rest =>
      match m with
      | Seek => eaten (mode_after l) rest
      | TakeQuestion => l :: eaten Seek rest
      | Accumulate =>
          if hits_section (strip l) then eaten (mode_after l) rest
          else eaten Accumulate rest
      end
  end.

(** Two lists of lines that differ at most in which option line stands at
    which place, and have the same option lines overall. *)
Definition same_or_options (x y : string) : Prop :=
  x = y ∨ option_line x = true ∧ option_line y = true.

Definition options_permuted (ls ls' : list string) : Prop :=
  Forall2 same_or_options ls ls'
  ∧ List.filter option_line ls ≡ₚ List.filter option_line ls'.

(** Lines that are equal, or both registered as options. *)
Definition same_or_registers (x y : string) : Prop :=
  x = y ∨ registers x = true ∧ registers y = true.

(** Every letter heads at most one option line. *)
Definition one_line_per_letter (ls : list string) : Prop :=
  NoDup (map option_key (List.filter option_line ls)).

(** The letters as a set: the keys a complete [options] dictionary has. *)
Definition choice_set : gset string := list_to_set choices.

(** The locals as [validate] packs them. *)
Definition pack (st : fields) : quiz_data :=
  {| question := f_question st; options := f_options st;
     correct := f_correct st; explanation := f_explanation st |}.

End View.

Import Quiz View.

(** ** The five-field template the prompt asks the model for *)

Module Template.
Import Quiz View.

(** The lines of a reply in the template: the question, the four options,
    the correct letter, the explanation and its continuation lines. *)
Definition template_lines (q a b c d x e : string) (conts : list string)
  : list string :=
  ["QUESTION: " +:+ q; "A) " +:+ a; "B) " +:+ b; "C) " +:+ c; "D) " +:+ d;
   "CORRECT: " +:+ x; "EXPLANATION: " +:+ e] ++ conts.

Definition template (q a b c d x e : string) (conts : list string) : string :=
  unlines (template_lines q a b c d x e conts).

(** The explanation text followed by the continuation lines, each after
    one space. *)
Definition join_explanation (e : string) (conts : list string) : string :=
  fold_left (λ acc l, acc +:+ " " +:+ l) conts e.

(** The record the fields of a template stand for. *)
Definition expected (q a b c d x e : string) (conts : list string) : quiz_data :=
  {| question := q;
     options := {[ "A" := a; "B" := b; "C" := c; "D" := d ]};
     correct := x;
     explanation := join_explanation e conts |}.

(** A field is tidy when it is one line without white space around it. *)
Definition tidy (s : string) : bool :=
  negb (occurs LF s) && String.eqb (strip s) s.

(** The shape of a template: tidy fields, a question that is not empty, a
    letter as the correct answer, continuation lines that are not empty. *)
Definition template_shape (q a b c d x e : string) (conts : list string) : bool :=
  tidy q && truthy q && tidy a && tidy b && tidy c && tidy d
  && in_list x choices && tidy e
  && forallb (λ l, tidy l && truthy l) conts.

(** [marker] does not occur in [s], in any case. *)
Definition free_of (marker s : string) : bool :=
  negb (contains marker (upper s)).

(** An option text that the scan reads as it stands: it does not begin
    with a closing parenthesis and has no QUESTION marker. *)
Definition option_text_plain (a : string) : bool :=
  negb (startswith a ")") && free_of "QUESTION:" a.

(** No field can be taken for a marker: the option texts are plain, the
    explanation has neither the QUESTION nor the CORRECT marker, and no
    continuation line has a section keyword. *)
Definition unambiguous (a b c d e : string) (conts : list string) : bool :=
  option_text_plain a && option_text_plain b && option_text_plain c
  && option_text_plain d
  && free_of "QUESTION:" e && free_of "CORRECT:" e
  && forallb (λ l, negb (hits_section l)) conts.

End Template.

(** ** Sample texts and sessions, for the concrete instances *)

Module Samples.
Import Quiz Session View Template.

(** A reply in the format the prompt asks for. *)
Definition good_reply : string :=
  unlines ["QUESTION: Your friend breaks your toy. What would Krishna advise?";
           "A) Forgive and stay calm";
           "B) Break a toy in return";
           "C) Stop talking to the friend";
           "D) Hide all your toys";
           "CORRECT: A";
           "EXPLANATION: The Gita teaches an even mind";
           "in gain and in loss."].

(** The text [generate_quiz_question] returns when the model call fails. *)
Definition error_reply : string :=
  "Error generating question: connection refused".

(** Three good replies, then failures only. *)
Definition three_then_errors (k : nat) : string :=
  if (k <? 3)%nat then good_reply else error_reply.

(** Five questions requested, three generated, all three answered right,
    quiz finished. *)
Definition finished_3_of_5 : quiz_state :=
  let s0 := fst (fst (start_quiz three_then_errors 5 0)) in
  let s1 := next_question (submit_answer s0 (Some "A) Forgive and stay calm")) in
  let s2 := next_question (submit_answer s1 (Some "A) Forgive and stay calm")) in
  finish_quiz (submit_answer s2 (Some "A) Forgive and stay calm")).

(** An option line that happens to have the CORRECT marker in its text. *)
Definition option_with_correct_marker : string := "C) Pick the correct: D".

Definition reply_with_marker_in_option : string :=
  unlines ["QUESTION: What should Arjuna do?";
           "A) Run away";
           "B) Act without attachment";
           "CORRECT: B";
           option_with_correct_marker;
           "D) Give up";
           "EXPLANATION: Act, and leave the fruit of the act."].

(** An explanation line whose text has the CORRECT marker in it. *)
Definition explanation_with_correct_marker : string :=
  "EXPLANATION: A is correct: the Gita teaches an even mind".

Definition reply_with_marker_in_explanation : string :=
  unlines ["QUESTION: Your friend breaks your toy. What would Krishna advise?";
           "A) Forgive and stay calm";
           "B) Break a toy in return";
           "C) Stop talking to the friend";
           "D) Hide all your toys";
           "CORRECT: A";
           explanation_with_correct_marker;
           "in gain and in loss."].

(** The good reply with its option lines in another order. *)
Definition shuffled_reply : string :=
  unlines ["QUESTION: Your friend breaks your toy. What would Krishna advise?";
           "C) Stop talking to the friend";
           "A) Forgive and stay calm";
           "D) Hide all your toys";
           "B) Break a toy in return";
           "CORRECT: A";
           "EXPLANATION: The Gita teaches an even mind";
           "in gain and in loss."].

(** Two replies with the same lines; the last two are exchanged. *)
Definition continuation_first : string :=
  unlines ["QUESTION: What should Arjuna do?";
           "A) Run away"; "B) Act without attachment";
           "C) Wait"; "D) Give up";
           "EXPLANATION: Act, and leave the fruit";
           "of the act to Krishna.";
           "CORRECT: B"].

Definition marker_first : string :=
  unlines ["QUESTION: What should Arjuna do?";
           "A) Run away"; "B) Act without attachment";
           "C) Wait"; "D) Give up";
           "EXPLANATION: Act, and leave the fruit";
           "CORRECT: B";
           "of the act to Krishna."].

(** The fields of a reply in the template. *)
Definition toy_question : string :=
  "Your friend breaks your toy. What would Krishna advise?".
Definition toy_a : string := "Forgive and stay calm".
Definition toy_b : string := "Break a toy in return".
Definition toy_c : string := "Stop talking to the friend".
Definition toy_d : string := "Hide all your toys".
Definition toy_explanation : string := "The Gita teaches an even mind".

(** Continuation lines, the first of which has [a)] in it. *)
Definition gita_continuation : list string :=
  ["in gain and in loss (Bhagavad Gita)."; "Stay calm."].

Definition gita_reply : string :=
  template toy_question toy_a toy_b toy_c toy_d "A" toy_explanation
    gita_continuation.

End Samples.

(** ** More of the quiz page: the generator's result and what the page does
    with a session *)

Module Generator.

(** What the call of the model in [generate_quiz_question] comes to: a
    response object with a [content], an object without one (its [str] is
    taken), or an exception with its message. *)
Inductive llm_result :=
| Content (text : string)
| Plain (text : string)
| Failed (message : string).

(** [generate_quiz_question]: the text of the response, or the error text. *)
Definition generate_quiz_question (r : llm_result) : string :=
  match r with
  | Content text => text
  | Plain text => text
  | Failed message => "Error generating question: " +:+ message
  end.

End Generator.

Module ViewKinds.
Import Quiz View.

#[global] Instance kind_eq_dec : EqDecision kind.
Proof. solve_decision. Defined.

End ViewKinds.

Module Prompt.
Import Quiz View Template.

(** The first line the prompt of [generate_quiz_question] asks the model to
    start its reply with. *)
Definition preamble : string := "Hare Krishna! Here's your question:".

(** A reply that starts as the prompt asks and goes on with the template. *)
Definition reply_with_preamble (q a b c d x e : string) (conts : list string)
  : string :=
  unlines (preamble :: template_lines q a b c d x e conts).

(** A reply in the template that stops after the CORRECT line. *)
Definition reply_without_explanation (q a b c d x : string) : string :=
  unlines ["QUESTION: " +:+ q; "A) " +:+ a; "B) " +:+ b; "C) " +:+ c;
           "D) " +:+ d; "CORRECT: " +:+ x].

End Prompt.

Module Page.
Import Quiz Session.

(** The choices of the "How many questions" select box. *)
Inductive count_choice := Three | Five | Ten | Fifteen | Twenty.

Definition count_of (c : count_choice) : nat :=
  match c with
  | Three => 3 | Five => 5 | Ten => 10 | Fifteen => 15 | Twenty => 20
  end.

Definition count_choices : list count_choice :=
  [Three; Five; Ten; Fifteen; Twenty].

(** "Take Another Quiz", on the results page. *)
Definition restart_quiz (st : quiz_state) : quiz_state :=
  match phase_of st with
  | Completed => initial_state
  | _ => st
  end.

(** What the user can do on the quiz page. *)
Inductive action :=
| Start (c : count_choice)
| Submit (selected : option string)
| Next
| Finish
| Restart.

(** One action on the page: the start button exists in the Setup branch
    only, the submit, next and finish buttons in the branch of a quiz in
    progress, the restart button on the results page.  The number beside
    the session counts the calls of the generator. *)
Definition act (reply : nat → string) (s : quiz_state * nat) (a : action)
  : quiz_state * nat :=
  let '(st, calls) := s in
  match a with
  | Start c =>
      match phase_of st with
      | Setup =>
          let r := start_quiz reply (count_of c) calls in (fst (fst r), snd r)
      | _ => s
      end
  | Submit selected => (submit_answer st selected, calls)
  | Next => (next_question st, calls)
  | Finish => (finish_quiz st, calls)
  | Restart => (restart_quiz st, calls)
  end.

(** The session after a sequence of actions on a fresh page. *)
Definition run_page (reply : nat → string) (acts : list action)
  : quiz_state * nat :=
  fold_left (act reply) acts (initial_state, 0).

(** Answering the questions that are left, one label for each, with the
    button the page shows after each answer. *)
Fixpoint answer_all (labels : list string) : list action :=
  match labels with
  | [] => []
  | [label] => [Submit (Some label); Finish]
  | label :: rest => Submit (Some label) :: Next :: answer_all rest
  end.

(** A label wins on a question when its first character is the correct
    letter of the question. *)
Definition wins (label : string) (q : quiz_data) : bool :=
  match label with
  | String c _ => String.eqb (String c EmptyString) (correct q)
  | EmptyString => false
  end.

(** The number of labels that win, each on the question it answers. *)
Fixpoint correct_answers (labels : list string) (qs : list quiz_data) : nat :=
  match labels, qs with
  | label :: labels', q :: qs' =>
      (if wins label q then 1 else 0) + correct_answers labels' qs'
  | _, _ => 0
  end.

(** A question as the parser lets it through. *)
Definition valid_question (d : quiz_data) : Prop :=
  question d ≠ "" ∧ dom (options d) = View.choice_set ∧ correct d ∈ choices.

(** What every session on the page satisfies. *)
Record session_ok (st : quiz_state) : Prop := SessionOk {
  ok_generated : (length (questions st) ≤ total_questions_selected st)%nat;
  ok_total : (0 < total_questions_selected st)%nat;
  ok_index : quiz_started st = true →
             (current_question_index st < length (questions st))%nat;
  ok_score : (score st ≤ current_question_index st
                         + (if answered st then 1 else 0))%nat;
  ok_completed : quiz_completed st = true →
                 quiz_started st = true ∧ answered st = true
                 ∧ (current_question_index st + 1)%nat = length (questions st);
  ok_idle : quiz_started st = false → score st = 0;
  ok_selected : answered st = false ↔ selected_answer st = None;
  ok_questions : Forall valid_question (questions st)
}.

(** The grade and the banner of the results page, two chains of the same
    comparisons on the percentage. *)
Inductive grade := Excellent | Good | Fair | KeepLearning.

Inductive banner := SuccessBanner | InfoBanner | WarningBanner | ErrorBanner.

#[global] Instance grade_eq_dec : EqDecision grade.
Proof. solve_decision. Defined.

#[global] Instance banner_eq_dec : EqDecision banner.
Proof. solve_decision. Defined.

Definition grade_of (p : Q) : grade :=
  if Qle_bool 80 p then Excellent
  else if Qle_bool 60 p then Good
  else if Qle_bool 40 p then Fair
  else KeepLearning.

Definition banner_of (p : Q) : banner :=
  if Qle_bool 80 p then SuccessBanner
  else if Qle_bool 60 p then InfoBanner
  else if Qle_bool 40 p then WarningBanner
  else ErrorBanner.

(** The same on the floating-point percentage the program has. *)
Definition grade_float (p : float) : grade :=
  if PrimFloat.leb (PrimFloat.of_uint63 80%uint63) p then Excellent
  else if PrimFloat.leb (PrimFloat.of_uint63 60%uint63) p then Good
  else if PrimFloat.leb (PrimFloat.of_uint63 40%uint63) p then Fair
  else KeepLearning.

Definition banner_float (p : float) : banner :=
  if PrimFloat.leb (PrimFloat.of_uint63 80%uint63) p then SuccessBanner
  else if PrimFloat.leb (PrimFloat.of_uint63 60%uint63) p then InfoBanner
  else if PrimFloat.leb (PrimFloat.of_uint63 40%uint63) p then WarningBanner
  else ErrorBanner.

(** The banner that goes with a grade. *)
Definition banner_for (g : grade) : banner :=
  match g with
  | Excellent => SuccessBanner
  | Good => InfoBanner
  | Fair => WarningBanner
  | KeepLearning => ErrorBanner
  end.

(** The grade by whole numbers: a score out of a total. *)
Definition grade_by_count (points total : nat) : grade :=
  if (4 * total <=? 5 * points)%nat then Excellent
  else if (3 * total <=? 5 * points)%nat then Good
  else if (2 * total <=? 5 * points)%nat then Fair
  else KeepLearning.

(** The check that, for a score out of a total, the grade and the banner
    computed in floating point are those of the exact percentage. *)
Definition grades_agree (total points : nat) : bool :=
  let st := {| questions := []; current_question_index := 0;
               total_questions_selected := total; score := points;
               answered := false; selected_answer := None;
               quiz_started := true; quiz_completed := true |} in
  match percentage st, percentage_float st with
  | Some p, Some f =>
      bool_decide (grade_float f = grade_of p)
      && bool_decide (banner_float f = banner_of p)
      && bool_decide (grade_of p = grade_by_count points total)
      && bool_decide (banner_of p = banner_for (grade_of p))
  | _, _ => false
  end.

End Page.

(** ** The answer options of the quiz page *)

Module Radio.
Import Quiz Session.

(** The order of Python strings: lexicographic by character code. *)
Definition key_le (a b : string) : Prop := String.leb a b = true.

#[global] Instance key_le_dec : RelDecision key_le.
Proof. intros a b. unfold key_le. apply _. Defined.

(** [sorted(current_question["options"].keys())] *)
Definition sorted_keys (options : gmap string string) : list string :=
  merge_sort key_le (elements (dom options)).

(** The labels of the radio: [f"{key}) {options[key]}"] for each key in
    order; a key of the dict is always found in it. *)
Definition answer_options (current_question : quiz_data) : list string :=
  omap (λ key, (λ value, key +:+ ") " +:+ value)
                 <$> options current_question !! key)
    (sorted_keys (options current_question)).

End Radio.

(** ** The chat page ([show_chatbot_page]) *)

Module Chat.
Import Chatbot.

(** The messages of [st.session_state.chat_messages]. *)
Inductive message :=
| HumanMessage (content : string)
| AIMessage (content : string).

Definition content (m : message) : string :=
  match m with
  | HumanMessage c => c
  | AIMessage c => c
  end.

(** [isinstance(m, HumanMessage)] *)
Definition is_human (m : message) : bool :=
  match m with
  | HumanMessage _ => true
  | AIMessage _ => false
  end.

Definition welcome : string :=
  "Hare Krishna! 🙏 I'm here to help you learn about Lord Krishna and Hindu philosophy. Ask me anything!".

(** The history a new session starts with, and the one "Clear Chat
    History" restores. *)
Definition initial_messages : list message := [AIMessage welcome].

(** What [agent_executor.invoke] comes to: a result with or without an
    output text, or an exception with its message. *)
Inductive agent_result :=
| Result (output : option string)
| Raised (message : string).

(** [result.get("output", "No response generated")] *)
Definition output_of (output : option string) : string :=
  default "No response generated" output.

Definition error_msg (message : string) : string :=
  "Hare Krishna! I apologize, but I encountered an error: " +:+ message.

(** The text of the assistant's message for one question: the output,
    cleaned and with the salutation, or the error message of the [except]
    branch. *)
Definition respond (r : agent_result) : string :=
  match r with
  | Result output => postprocess (output_of output)
  | Raised message => error_msg message
  end.

(** One run of the page with the text of the chat input: nothing happens
    on an empty input; otherwise the question is appended, then the
    assistant's message. *)
Definition ask (chat_messages : list message) (user_question : string)
    (r : agent_result) : list message :=
  if truthy user_question then
    (chat_messages ++ [HumanMessage user_question]) ++ [AIMessage (respond r)]
  else chat_messages.

(** The "Clear Chat History" button. *)
Definition clear_chat (chat_messages : list message) : list message :=
  [AIMessage welcome].

(** The "Questions Asked" metric of the sidebar, shown when the history
    has more than the welcome message. *)
Definition questions_asked (chat_messages : list message) : option nat :=
  if (1 <? length chat_messages)%nat
  then Some (length (List.filter is_human chat_messages))
  else None.

(** What the user can do on the chat page; the agent's result comes with
    the question it answers. *)
Inductive chat_action :=
| Ask (user_question : string) (r : agent_result)
| Clear.

Definition chat_act (chat_messages : list message) (a : chat_action)
  : list message :=
  match a with
  | Ask user_question r => ask chat_messages user_question r
  | Clear => clear_chat chat_messages
  end.

(** The history after a sequence of actions on a new session. *)
Definition run_chat (acts : list chat_action) : list message :=
  fold_left chat_act acts initial_messages.

(** The questions asked since the history was last cleared, each with the
    agent's result: what the history is expected to show. *)
Definition record (asked : list (string * agent_result)) (a : chat_action)
  : list (string * agent_result) :=
  match a with
  | Ask user_question r =>
      if truthy user_question then asked ++ [(user_question, r)] else asked
  | Clear => []
  end.

Definition exchanges (acts : list chat_action) : list (string * agent_result) :=
  fold_left record acts [].

Definition exchange (x : string * agent_result) : list message :=
  [HumanMessage (fst x); AIMessage (respond (snd x))].

(** A message of the assistant starts with the salutation. *)
Definition salutes (m : message) : Prop :=
  is_human m = false → startswith (content m) "Hare Krishna" = true.

End Chat.

(** ** Replies with other line endings *)

Module LineEndings.
Import Quiz View.

Definition CR : ascii := ascii_of_nat 13.

(** ["\r\n".join(lines)] *)
Fixpoint crlf_unlines (lines : list string) : string :=
  match lines with
  | [] => ""
  | [l] => l
  | l :: ls => l +:+ String CR (String LF (crlf_unlines ls))
  end.

(** The lines between the line feeds of such a text: all but the last end
    with a carriage return. *)
Fixpoint cr_lines (lines : list string) : list string :=
  match lines with
  | [] => []
  | [l] => [l]
  | l :: ls => (l +:+ String CR "") :: cr_lines ls
  end.

End LineEndings.

(** * Properties *)

(** ** Facts about the string operations *)

Section StringFacts.

Lemma prefix_app (p s : string) : String.prefix p (p +:+ s) = true.
Proof.
  induction p as [|c p IH]; simpl.
  - by destruct s.
  - destruct (ascii_dec c c) as [_|Hne]; [exact IH | by destruct Hne].
Qed.

Lemma prefix_empty (s : string) : String.prefix "" s = true.
Proof. by destruct s. Qed.

Lemma upper_app (a b : string) : upper (a +:+ b) = upper a +:+ upper b.
Proof. induction a as [|c a IH]; simpl; [done | by rewrite IH]. Qed.

Lemma truthy_true (s : string) : truthy s = true ↔ s ≠ "".
Proof. destruct s; simpl; split; congruence. Qed.

Lemma truthy_false (s : string) : truthy s = false ↔ s = "".
Proof. destruct s; simpl; split; congruence. Qed.

Lemma rstrip_idem (s : string) : rstrip (rstrip s) = rstrip s.
Proof.
  induction s as [|c s IH]; simpl; [done |].
  destruct (isspace c && negb (truthy (rstrip s))) eqn:E; simpl; [done |].
  by rewrite IH, E.
Qed.

(** What is left of a string after [lstrip] does not start with white
    space. *)
Lemma lstrip_head (s : string) :
  lstrip s = "" ∨ ∃ c t, lstrip s = String c t ∧ isspace c = false.
Proof.
  induction s as [|c s IH]; simpl; [by left |].
  destruct (isspace c) eqn:E; [exact IH | right; eauto].
Qed.

Lemma lstrip_nonspace (c : ascii) (t : string) :
  isspace c = false → lstrip (String c t) = String c t.
Proof. intros E; simpl; by rewrite E. Qed.

Lemma rstrip_nonspace (c : ascii) (t : string) :
  isspace c = false → rstrip (String c t) = String c (rstrip t).
Proof. intros E; simpl; by rewrite E. Qed.

Lemma strip_nonspace (c : ascii) (t : string) :
  isspace c = false → strip (String c t) = String c (rstrip t).
Proof.
  intros E. unfold strip. by rewrite lstrip_nonspace, rstrip_nonspace.
Qed.

(** [strip] is idempotent: the parser strips a line when it builds [lines]
    and again when it reads [lines[i]]. *)
Lemma strip_idem (s : string) : strip (strip s) = strip s.
Proof.
  unfold strip at 2 3.
  destruct (lstrip_head s) as [->|(c & t & -> & E)]; [done |].
  rewrite rstrip_nonspace by done.
  rewrite strip_nonspace by done.
  by rewrite rstrip_idem.
Qed.

(** [upper] leaves the colon where it is and creates none. *)
Lemma upper_char_colon (c : ascii) : upper_char c = ":"%char ↔ c = ":"%char.
Proof.
  split; [| by intros ->].
  destruct c as [[] [] [] [] [] [] [] []]; vm_compute; congruence.
Qed.

Lemma occurs_upper_colon (s : string) : occurs ":" (upper s) = occurs ":" s.
Proof.
  induction s as [|c s IH]; simpl; [done |]. rewrite IH. f_equal.
  destruct (Ascii.eqb_spec (upper_char c) ":") as [H|H];
    destruct (Ascii.eqb_spec c ":") as [H'|H']; try done.
  - by destruct H', (proj1 (upper_char_colon c) H).
  - subst c. by destruct H.
Qed.

Lemma occurs_prefix (c : ascii) (p s : string) :
  String.prefix p s = true → occurs c p = true → occurs c s = true.
Proof.
  revert s. induction p as [|d p IH]; intros s Hp Hc; simpl in *; [done |].
  destruct s as [|e s]; [done |]. cbn [String.prefix] in Hp.
  destruct (ascii_dec d e) as [->|]; [| done]. simpl.
  apply orb_true_iff in Hc as [Hc|Hc]; apply orb_true_iff; eauto.
Qed.

Lemma occurs_contains (c : ascii) (needle s : string) :
  contains needle s = true → occurs c needle = true → occurs c s = true.
Proof.
  intros Hs Hc. induction s as [|d s IH]; cbn [contains] in Hs.
  - destruct needle; simpl in *; congruence.
  - destruct (String.prefix needle (String d s)) eqn:Hp.
    + by eapply occurs_prefix.
    + simpl. rewrite IH by done. apply orb_true_r.
Qed.

Lemma contains_colon (s : string) : contains ":" s = occurs ":" s.
Proof.
  induction s as [|c s IH]; [done |].
  cbn [contains occurs]. rewrite IH. cbn [String.prefix].
  destruct (ascii_dec ":" c) as [<-|Hne].
  - by rewrite prefix_empty.
  - destruct (Ascii.eqb_spec c ":") as [->|]; done.
Qed.

(** [s.split(":", 1)[1]] exists exactly when [s] has a colon. *)
Lemma split1_item (s : string) :
  occurs ":" s = true ↔ ∃ part, split1 ":" s !! 1 = Some part.
Proof.
  induction s as [|c s IH]; simpl.
  - split; [done | by intros [? ?]].
  - destruct (Ascii.eqb c ":") eqn:E; simpl.
    + split; eauto.
    + rewrite IH. destruct (split1 ":" s) as [|p ps]; simpl; [| done].
      split; intros [? ?]; done.
Qed.

Lemma append_truthy (p s : string) : truthy s = true → truthy (p +:+ s) = true.
Proof. destruct p; [done |]. by intros _. Qed.

(** [rstrip] of a concatenation: what is kept of the second part stays
    behind the first; when nothing is kept the first part is stripped. *)
Lemma rstrip_app (p s : string) :
  rstrip (p +:+ s) = if truthy (rstrip s) then p +:+ rstrip s else rstrip p.
Proof.
  induction p as [|c p IH].
  - change ("" +:+ s) with s. change ("" +:+ rstrip s) with (rstrip s).
    by destruct (rstrip s).
  - change (String c p +:+ s) with (String c (p +:+ s)).
    cbn [rstrip]. rewrite IH. destruct (truthy (rstrip s)) eqn:E; [| done].
    rewrite append_truthy by done. by rewrite andb_false_r.
Qed.

(** A stripped string is what [rstrip] leaves of it. *)
Lemma stripped_rstrip (s : string) : strip s = s → rstrip s = s.
Proof. intros <-. unfold strip. apply rstrip_idem. Qed.

End StringFacts.

(** ** The main loop, one iteration at a time *)

Section ScanSteps.

Lemma scan_nil (st : fields) : scan [] st = Ret st.
Proof. done. Qed.

(** The inner loop as the main loop has it, against [collect]. *)
Lemma collect_scan (st : fields) (rest : list string) (e : string) :
  (fix collect (after : list string) (explanation : string)
       {struct after} : py fields :=
     match after with
     | [] => Ret (set_explanation st explanation)
     | next :: after' =>
         let next_line := strip next in
         if hits_section next_line
         then scan after (set_explanation st explanation)
         else collect after' (explanation +:+ " " +:+ next_line)
     end) rest e
  = scan (snd (collect rest e)) (set_explanation st (fst (collect rest e))).
Proof.
  revert e. induction rest as [|next rest IH]; intros e; [done |].
  cbn [collect]. cbv zeta. destruct (hits_section (strip next)); [done |].
  apply IH.
Qed.

Lemma scan_step (line0 : string) (rest : list string) (st : fields) :
  scan (line0 :: rest) st =
  match step line0 rest st with
  | Exc e => Exc e
  | Ret (st', rest') => scan rest' st'
  end.
Proof.
  unfold step. cbn [scan]. cbv zeta.
  repeat (case_match; try done); apply collect_scan.
Qed.

(** The inner loop leaves a suffix of the lines it is given. *)
Lemma collect_suffix (rest : list string) (e : string) :
  snd (collect rest e) `suffix_of` rest.
Proof.
  revert e. induction rest as [|next rest IH]; intros e; [done |].
  cbn [collect]. cbv zeta. destruct (hits_section (strip next)); [done |].
  by apply suffix_cons_r.
Qed.

Ltac step_cases H :=
  unfold step in H; cbv zeta in H;
  repeat (case_match; try discriminate H);
  injection H as <- <-.

Lemma step_suffix (line0 : string) (rest : list string) (st st' : fields)
    (rest' : list string) :
  step line0 rest st = Ret (st', rest') → rest' `suffix_of` rest.
Proof.
  intros H. step_cases H;
    first [done | by apply suffix_cons_r | apply collect_suffix].
Qed.

(** The indexing [line.split(":", 1)[1]] is in range whenever the line has
    one of the markers, upper-cased or not. *)
Lemma marker_has_part (marker line : string) :
  occurs ":" marker = true →
  contains marker (upper line) = true →
  ∃ part, item (split1 ":" line) 1 = Ret part.
Proof.
  intros Hm Hc.
  assert (occurs ":" line = true) as Ho.
  { rewrite <- occurs_upper_colon. by eapply occurs_contains. }
  apply split1_item in Ho as [part Hp]. exists part. unfold item. by rewrite Hp.
Qed.

Lemma starts_option_key (line : string) :
  starts_option line = true →
  ∃ key, key ∈ choices ∧ first_upper line = Ret key
         ∧ startswith line (key +:+ ")") = true.
Proof.
  unfold starts_option, startswith. cbn [existsb]. intros H.
  destruct line as [|c line]; [done |].
  destruct line as [|c' line]; cbn [String.prefix] in H;
    repeat match type of H with
    | context [ascii_dec ?a ?b] => destruct (ascii_dec a b) as [<-|?]
    end; try done.
  all: eexists; split; [| split; [reflexivity | vm_compute; by destruct line]].
  all: unfold choices; set_solver.
Qed.

(** No iteration of the main loop raises. *)
Lemma step_returns (line0 : string) (rest : list string) (st : fields) :
  ∃ st' rest', step line0 rest st = Ret (st', rest').
Proof.
  unfold step. cbv zeta.
  destruct (contains "QUESTION:" (upper (strip line0))) eqn:HQ.
  { destruct (contains ":" (strip line0)) eqn:Hc; [| eauto].
    destruct (marker_has_part "QUESTION:" (strip line0)) as [part ->]; [done.. |].
    destruct (truthy (strip part)); [eauto |]. destruct rest; eauto. }
  destruct (starts_option (strip line0)) eqn:HO.
  { apply starts_option_key in HO as (key & _ & -> & _). eauto. }
  destruct (contains "CORRECT:" (upper (strip line0))) eqn:HC.
  { destruct (marker_has_part "CORRECT:" (strip line0)) as [part ->]; [done.. |].
    destruct (first_choice _); eauto. }
  destruct (contains "EXPLANATION:" (upper (strip line0))) eqn:HE; [| eauto].
  destruct (marker_has_part "EXPLANATION:" (strip line0)) as [part ->]; [done.. |].
  eauto.
Qed.

(** Reasoning about a whole scan: the loop returns, and a relation between
    the lines, the locals before and the locals after holds when it holds
    for no lines and is carried back over every iteration. *)
Lemma scan_elim (P : list string → fields → fields → Prop) :
  (∀ st, P [] st st) →
  (∀ line0 rest st st' rest' st_f,
      step line0 rest st = Ret (st', rest') →
      rest' `suffix_of` rest →
      scan rest' st' = Ret st_f →
      P rest' st' st_f →
      P (line0 :: rest) st st_f) →
  ∀ lines st, ∃ st_f, scan lines st = Ret st_f ∧ P lines st st_f.
Proof.
  intros Hnil Hcons lines.
  induction lines as [lines IH] using (induction_ltof1 _ (@length string)).
  unfold ltof in IH. intros st. destruct lines as [|line0 rest].
  - exists st. by rewrite scan_nil.
  - destruct (step_returns line0 rest st) as (st' & rest' & Hstep).
    pose proof (step_suffix _ _ _ _ _ Hstep) as Hsuf.
    destruct (IH rest') with (st := st') as (st_f & Hscan & HP).
    { apply suffix_length in Hsuf. simpl. lia. }
    exists st_f. split; [| by eapply Hcons].
    by rewrite scan_step, Hstep.
Qed.

(** The inner loop read as a whole: it appends the lines up to the first one
    that has a section keyword, and stops there. *)
Lemma collect_spec (rest : list string) (e : string) :
  ∃ absorbed rest',
    rest = absorbed ++ rest'
    ∧ Forall (λ l, hits_section (strip l) = false) absorbed
    ∧ (rest' = [] ∨ ∃ l tail, rest' = l :: tail ∧ hits_section (strip l) = true)
    ∧ collect rest e = (append_lines e absorbed, rest').
Proof.
  revert e. induction rest as [|next rest IH]; intros e.
  - exists [], []. repeat split; eauto.
  - cbn [collect]. cbv zeta. destruct (hits_section (strip next)) eqn:E.
    + exists [], (next :: rest). repeat split; eauto.
    + destruct (IH (e +:+ " " +:+ strip next)) as (ab & rest' & -> & Hab & Hr & ->).
      exists (next :: ab), rest'. repeat split; eauto.
Qed.

Lemma collect_all (conts : list string) (e : string) :
  Forall (λ l, hits_section (strip l) = false) conts →
  collect conts e = (append_lines e conts, []).
Proof.
  intros H. revert e. induction H as [|l ls Hl _ IH]; intros e; [done |].
  cbn [collect]. cbv zeta. rewrite Hl. apply IH.
Qed.

Lemma collect_strip (rest : list string) (e : string) :
  collect (map strip rest) e
  = (fst (collect rest e), map strip (snd (collect rest e))).
Proof.
  revert e. induction rest as [|next rest IH]; intros e; [done |].
  cbn [map collect]. cbv zeta. rewrite strip_idem.
  destruct (hits_section (strip next)); [done | apply IH].
Qed.

Lemma step_strip (line0 : string) (rest : list string) (st : fields) :
  step (strip line0) (map strip rest) st
  = match step line0 rest st with
    | Ret (st', rest') => Ret (st', map strip rest')
    | Exc e => Exc e
    end.
Proof.
  unfold step. cbv zeta. rewrite strip_idem.
  repeat (case_match; try done); subst; cbn [map] in *; simplify_eq;
    try rewrite strip_idem; try done.
  all: by rewrite collect_strip.
Qed.

(** The scan reads every line through [strip], so it does not matter
    whether the lines it is given are stripped already. *)
Lemma scan_strip (lines : list string) (st : fields) :
  scan (map strip lines) st = scan lines st.
Proof.
  destruct (scan_elim (λ lines st st_f, scan (map strip lines) st = Ret st_f))
    with (lines := lines) (st := st) as (st_f & -> & H); [done | | done].
  clear. intros line0 rest st st' rest' st_f Hstep _ _ IH.
  cbn [map]. by rewrite scan_step, step_strip, Hstep.
Qed.

End ScanSteps.

(** ** What one iteration may change, and what a whole scan preserves *)

Section ScanInvariants.

Lemma scan_returns (lines : list string) (st : fields) :
  ∃ st_f, scan lines st = Ret st_f.
Proof.
  destruct (scan_elim (λ _ _ _, True)) with (lines := lines) (st := st)
    as (st_f & H & _); eauto.
Qed.

Lemma first_choice_in (s c : string) : first_choice s = Some c → c ∈ choices.
Proof.
  induction s as [|a s IH]; cbn [first_choice]; [done |].
  destruct (in_list (String a "") choices) eqn:E; [| done].
  intros [= <-]. unfold in_list, choices in *. cbn [existsb] in E.
  repeat (apply orb_true_iff in E as [E|E]; [apply String.eqb_eq in E as ->; set_solver |]).
  done.
Qed.

Lemma in_list_elem (x : string) (xs : list string) :
  in_list x xs = true ↔ x ∈ xs.
Proof.
  unfold in_list. rewrite existsb_exists. split.
  - intros (y & Hy & ->%String.eqb_eq). by apply list_elem_of_In.
  - intros H. exists x. split; [by apply list_elem_of_In | apply String.eqb_refl].
Qed.

(** Each of the four locals is changed only by the branch that owns it. *)
Lemma step_effect (line0 : string) (rest : list string) (st st' : fields)
    (rest' : list string) :
  step line0 rest st = Ret (st', rest') →
  (f_question st' = f_question st ∨ classify (strip line0) = KQuestion)
  ∧ (f_options st' = f_options st
     ∨ classify (strip line0) = KOption
       ∧ ∃ key, key ∈ choices
                ∧ startswith (strip line0) (key +:+ ")") = true
                ∧ f_options st'
                  = <[key := option_value (strip line0)]> (f_options st))
  ∧ (f_correct st' = f_correct st
     ∨ classify (strip line0) = KCorrect ∧ f_correct st' ∈ choices)
  ∧ (f_explanation st' = f_explanation st
     ∨ classify (strip line0) = KExplanation).
Proof.
  unfold step, classify. cbv zeta.
  destruct (contains "QUESTION:" (upper (strip line0))).
  { intros H. repeat (case_match; try discriminate H); injection H as <- <-;
      cbn; eauto 10. }
  destruct (starts_option (strip line0)) eqn:HO.
  { apply starts_option_key in HO as (key & Hk & -> & Hs).
    intros [= <- <-]. cbn. repeat split; eauto 10. }
  destruct (contains "CORRECT:" (upper (strip line0))).
  { intros H. repeat (case_match; try discriminate H); injection H as <- <-;
      cbn; eauto 10 using first_choice_in. }
  destruct (contains "EXPLANATION:" (upper (strip line0))).
  { intros H. repeat (case_match; try discriminate H); injection H as <- <-;
      cbn; eauto 10. }
  intros [= <- <-]. eauto 10.
Qed.

(** The keys of [options] are letters. *)
Lemma scan_keys (lines : list string) (st st_f : fields) :
  scan lines st = Ret st_f →
  dom (f_options st) ⊆ choice_set → dom (f_options st_f) ⊆ choice_set.
Proof.
  destruct (scan_elim (λ _ st st_f,
    dom (f_options st) ⊆ choice_set → dom (f_options st_f) ⊆ choice_set))
    with (lines := lines) (st := st) as (st_f' & H & HP).
  - done.
  - intros line0 rest s s' rest' s_f Hstep _ _ IH Hdom. apply IH.
    apply step_effect in Hstep as (_ & [->|(_ & key & Hk & _ & ->)] & _);
      [done |].
    rewrite dom_insert. apply union_subseteq. split; [| done].
    apply singleton_subseteq_l. by apply elem_of_list_to_set.
  - intros H'. rewrite H in H'. by injection H' as <-.
Qed.

(** A letter is a key after the scan only if it was one before or some
    line starts with the letter and a closing parenthesis. *)
Lemma scan_key_source (lines : list string) (st st_f : fields) (key : string) :
  scan lines st = Ret st_f →
  Forall (λ l, startswith (strip l) (key +:+ ")") = false) lines →
  key ∈ dom (f_options st_f) → key ∈ dom (f_options st).
Proof.
  destruct (scan_elim (λ lines st st_f,
    Forall (λ l, startswith (strip l) (key +:+ ")") = false) lines →
    key ∈ dom (f_options st_f) → key ∈ dom (f_options st)))
    with (lines := lines) (st := st) as (st_f' & H & HP).
  - done.
  - intros line0 rest s s' rest' s_f Hstep [skipped ->] _ IH Hall Hin.
    apply Forall_cons in Hall as [Hl Hall].
    apply Forall_app in Hall as [_ Hall].
    specialize (IH Hall Hin).
    apply step_effect in Hstep as (_ & [<-|(_ & k & Hk & Hs & Ho)] & _);
      [done |].
    rewrite Ho, dom_insert in IH.
    apply elem_of_union in IH as [->%elem_of_singleton|]; [congruence | done].
  - intros H'. rewrite H in H'. by injection H' as <-.
Qed.

(** The question is left alone when no line has the QUESTION marker, and
    the correct answer when none has the CORRECT marker. *)
Lemma scan_no_question (lines : list string) (st st_f : fields) :
  scan lines st = Ret st_f →
  Forall (λ l, contains "QUESTION:" (upper (strip l)) = false) lines →
  f_question st_f = f_question st.
Proof.
  destruct (scan_elim (λ lines st st_f,
    Forall (λ l, contains "QUESTION:" (upper (strip l)) = false) lines →
    f_question st_f = f_question st))
    with (lines := lines) (st := st) as (st_f' & H & HP).
  - done.
  - intros line0 rest s s' rest' s_f Hstep [skipped ->] _ IH Hall.
    apply Forall_cons in Hall as [Hl Hall].
    apply Forall_app in Hall as [_ Hall].
    rewrite (IH Hall).
    apply step_effect in Hstep as ([->|Hk] & _); [done |].
    unfold classify in Hk. cbv zeta in Hk. rewrite Hl in Hk.
    repeat case_match; done.
  - intros H'. rewrite H in H'. by injection H' as <-.
Qed.

Lemma scan_no_correct (lines : list string) (st st_f : fields) :
  scan lines st = Ret st_f →
  Forall (λ l, contains "CORRECT:" (upper (strip l)) = false) lines →
  f_correct st_f = f_correct st.
Proof.
  destruct (scan_elim (λ lines st st_f,
    Forall (λ l, contains "CORRECT:" (upper (strip l)) = false) lines →
    f_correct st_f = f_correct st))
    with (lines := lines) (st := st) as (st_f' & H & HP).
  - done.
  - intros line0 rest s s' rest' s_f Hstep [skipped ->] _ IH Hall.
    apply Forall_cons in Hall as [Hl Hall].
    apply Forall_app in Hall as [_ Hall].
    rewrite (IH Hall).
    apply step_effect in Hstep as (_ & _ & [->|[Hk _]] & _); [done |].
    unfold classify in Hk. cbv zeta in Hk. rewrite Hl in Hk.
    repeat case_match; done.
  - intros H'. rewrite H in H'. by injection H' as <-.
Qed.

End ScanInvariants.

(** ** The validation gate and totality of the parser *)

Section Gate.

(** The lines the parser works on are stripped and not empty. *)
Lemma response_lines_stripped (response l : string) :
  l ∈ response_lines response → strip l = l ∧ truthy l = true.
Proof.
  unfold response_lines. rewrite list_elem_of_In, in_map_iff.
  intros (x & <- & [_ Hx]%filter_In). by rewrite strip_idem.
Qed.

Lemma response_lines_Forall (P : string → Prop) (response : string) :
  Forall P (response_lines response) →
  Forall (λ l, P (strip l)) (response_lines response).
Proof.
  rewrite !Forall_forall. intros H l Hl.
  destruct (response_lines_stripped _ _ Hl) as [-> _]. by apply H.
Qed.

Lemma size_choice_set : size choice_set = 4.
Proof. done. Qed.

(** With keys among the four letters, [len(options) < 4] fails exactly
    when all four letters are keys. *)
Lemma four_keys (m : gmap string string) :
  dom m ⊆ choice_set → ((size m <? 4)%nat = false ↔ dom m = choice_set).
Proof.
  intros Hsub. rewrite Nat.ltb_ge, <- (size_dom (D := gset string)). split.
  - intros Hsz. apply set_subseteq_size_eq; [done |].
    by rewrite size_choice_set.
  - intros ->. by rewrite size_choice_set.
Qed.

Lemma validate_Some (st : fields) (d : quiz_data) :
  validate st = Some d ↔
  d = pack st ∧ f_question st ≠ "" ∧ (size (f_options st) <? 4)%nat = false
  ∧ f_correct st ∈ choices.
Proof.
  unfold validate. rewrite <- truthy_true, <- in_list_elem.
  destruct (truthy (f_question st)), (size (f_options st) <? 4)%nat,
    (in_list (f_correct st) choices); cbn; unfold pack;
    (split; [first [done | by intros [= <-]] | by intros (-> & ? & ? & ?)]).
Qed.

Lemma validate_None (st : fields) :
  validate st = None ↔
  f_question st = "" ∨ (size (f_options st) <? 4)%nat = true
  ∨ f_correct st ∉ choices.
Proof.
  unfold validate. rewrite <- truthy_false, <- in_list_elem.
  destruct (truthy (f_question st)), (size (f_options st) <? 4)%nat,
    (in_list (f_correct st) choices); cbn; split; try done; auto;
    by intros [?|[?|?]].
Qed.

(** The parser is its validation applied to the locals the scan ends with. *)
Lemma parse_scan (response : string) :
  ∃ st, scan (response_lines response) init_fields = Ret st
        ∧ dom (f_options st) ⊆ choice_set
        ∧ parse_body response = Ret (validate st)
        ∧ parse_quiz_question response = validate st.
Proof.
  destruct (scan_returns (response_lines response) init_fields) as [st Hst].
  exists st. unfold parse_quiz_question, parse_body. rewrite Hst.
  repeat split; try done.
  eapply scan_keys; [done |]. cbn. by rewrite dom_empty.
Qed.

End Gate.

(** ** A text as the lines it is made of *)

Section TextFacts.

Lemma split_app_LF (l s : string) :
  occurs LF l = false → split LF (l +:+ String LF s) = l :: split LF s.
Proof.
  induction l as [|c l IH]; intros H.
  - by simpl.
  - cbn [occurs] in H. apply orb_false_iff in H as [Hc H].
    change (String c l +:+ String LF s) with (String c (l +:+ String LF s)).
    cbn [split]. by rewrite Hc, (IH H).
Qed.

Lemma split_no_LF (l : string) : occurs LF l = false → split LF l = [l].
Proof.
  induction l as [|c l IH]; intros H; [done |].
  cbn [occurs] in H. apply orb_false_iff in H as [Hc H].
  cbn [split]. by rewrite Hc, (IH H).
Qed.

(** Splitting at line feeds undoes joining with line feeds. *)
Lemma split_unlines (ls : list string) :
  ls ≠ [] → Forall (λ l, occurs LF l = false) ls → split LF (unlines ls) = ls.
Proof.
  induction ls as [|l ls IH]; [done |]. intros _ Hall.
  apply Forall_cons in Hall as [Hl Hall].
  destruct ls as [|l' ls]; [by apply split_no_LF |].
  cbn [unlines]. rewrite split_app_LF by done. f_equal. by apply IH.
Qed.

Lemma response_lines_unlines (ls : list string) :
  ls ≠ [] → Forall (λ l, occurs LF l = false) ls →
  response_lines (unlines ls) = map strip (List.filter nonblank ls).
Proof. intros Hne Hall. unfold response_lines. by rewrite split_unlines. Qed.

Lemma parse_as_lines (response : string) :
  parse_quiz_question response = parse_lines (response_lines response).
Proof.
  unfold parse_quiz_question, parse_body, parse_lines.
  by destruct (scan _ _).
Qed.

(** The parser on a text given by its lines: blank lines do not count. *)
Lemma parse_unlines (ls : list string) :
  ls ≠ [] → Forall (λ l, occurs LF l = false) ls →
  parse_quiz_question (unlines ls) = parse_lines (List.filter nonblank ls).
Proof.
  intros Hne Hall. rewrite parse_as_lines, response_lines_unlines by done.
  unfold parse_lines. by rewrite scan_strip.
Qed.

End TextFacts.

(** C10: [parse_quiz_question] is total.  On every text the body of its
    [try] block returns (no indexing goes out of range, so the handler is
    never entered) and the result is [None] or a record that passed the
    whole validation; the keys of the options of a returned record are
    among the letters A, B, C and D, and in fact all four of them. *)
Theorem parse_total (response : string) :
  parse_body response = Ret (parse_quiz_question response)
  ∧ ∀ d, parse_quiz_question response = Some d →
         (∀ key, is_Some (options d !! key) → key ∈ choices)
         ∧ dom (options d) = choice_set
         ∧ question d ≠ ""
         ∧ correct d ∈ choices.
Proof.
  destruct (parse_scan response) as (st & _ & Hdom & Hbody & Hparse).
  split; [by rewrite Hbody, Hparse |].
  intros d. rewrite Hparse, validate_Some. intros (-> & Hq & Hsz & Hc).
  apply four_keys in Hsz; [| done]. cbn. repeat split; try done.
  intros key Hk%elem_of_dom. rewrite Hsz in Hk.
  by apply elem_of_list_to_set in Hk.
Qed.

(** C2: the validation gate.  The parser returns a record exactly when,
    after the scan, the question text is not empty, the options have all
    four letters as keys and the correct answer is one of the letters; the
    record is then the scanned fields, complete.  In every other case the
    result is [None].  In particular a text none of whose lines has the
    QUESTION marker, or none of whose lines starts with one of the four
    option prefixes, or none of whose lines has the CORRECT marker, is
    rejected. *)
Theorem parse_gate (response : string) :
  ∃ st, scan (response_lines response) init_fields = Ret st
    ∧ (parse_quiz_question response = None ↔
         f_question st = "" ∨ dom (f_options st) ≠ choice_set
         ∨ f_correct st ∉ choices)
    ∧ (∀ d, parse_quiz_question response = Some d ↔
         d = pack st ∧ f_question st ≠ "" ∧ dom (f_options st) = choice_set
         ∧ f_correct st ∈ choices)
    ∧ (Forall (λ l, contains "QUESTION:" (upper l) = false)
         (response_lines response) →
       parse_quiz_question response = None)
    ∧ (∀ key, key ∈ choices →
         Forall (λ l, startswith l (key +:+ ")") = false)
           (response_lines response) →
         parse_quiz_question response = None)
    ∧ (Forall (λ l, contains "CORRECT:" (upper l) = false)
         (response_lines response) →
       parse_quiz_question response = None).
Proof.
  destruct (parse_scan response) as (st & Hscan & Hdom & _ & Hparse).
  exists st. rewrite Hparse. split; [done |].
  pose proof (four_keys _ Hdom) as H4.
  split; [| split; [| split; [| split]]].
  - rewrite validate_None.
    assert ((size (f_options st) <? 4)%nat = true ↔ dom (f_options st) ≠ choice_set)
      as ->; [| done].
    rewrite <- H4. by destruct (size (f_options st) <? 4)%nat.
  - intros d. by rewrite validate_Some, H4.
  - intros Hall. apply validate_None. left.
    apply (response_lines_Forall (λ l, contains "QUESTION:" (upper l) = false))
      in Hall.
    by rewrite (scan_no_question _ _ _ Hscan Hall).
  - intros key Hkey Hall. apply validate_None. right. left.
    apply (response_lines_Forall (λ l, startswith l (key +:+ ")") = false))
      in Hall.
    destruct (size (f_options st) <? 4)%nat; [done |].
    pose proof (proj1 H4 eq_refl) as Hsz.
    assert (key ∈ dom (f_options st)) as Hin.
    { rewrite Hsz. by apply elem_of_list_to_set. }
    apply (scan_key_source _ _ _ _ Hscan Hall) in Hin.
    cbn in Hin. by rewrite dom_empty in Hin.
  - intros Hall. apply validate_None. right. right.
    apply (response_lines_Forall (λ l, contains "CORRECT:" (upper l) = false))
      in Hall.
    rewrite (scan_no_correct _ _ _ Hscan Hall). cbn.
    by intros H%in_list_elem.
Qed.

(** ** The quiz session *)

Section SessionFacts.
Import Session Samples.

Lemma finished_3_of_5_shape :
  phase_of finished_3_of_5 = Completed
  ∧ length (questions finished_3_of_5) = 3
  ∧ total_questions_selected finished_3_of_5 = 5
  ∧ score finished_3_of_5 = 3.
Proof. by vm_compute. Qed.

End SessionFacts.

(** The floating-point percentage against the exact one, for every quiz
    length the page offers and every score up to it. *)
Lemma percentages_checked :
  forallb (λ c, forallb (Reported.percentage_close (Page.count_of c))
                  (seq 0 (S (Page.count_of c))))
    Page.count_choices = true.
Proof. vm_compute. reflexivity. Qed.

(** C4: on the results page the percentage is [100 * score / total] for
    the number of questions that was requested at the start, whatever the
    number of questions generated.  The program computes it in binary64:
    for every number of questions the page offers and every score up to
    it, the value it has is within [2^-52] of the exact percentage,
    relatively, and is shown with the same decimal as the exact
    percentage.  With 5 requested and a score of 3 (as when only 3
    questions were generated and all were answered right) it is 60 and not
    100, the floating-point value is 60.0 exactly, and 60.0 is shown. *)
Theorem percentage_of_requested (st : Session.quiz_state) :
  (0 < Session.total_questions_selected st)%nat →
  ∃ p, Session.percentage st = Some p
    ∧ (p == 100 * inject_Z (Z.of_nat (Session.score st))
            / inject_Z (Z.of_nat (Session.total_questions_selected st)))%Q
    ∧ (∀ c, Session.total_questions_selected st = Page.count_of c →
            (Session.score st ≤ Session.total_questions_selected st)%nat →
            ∃ f v, Session.percentage_float st = Some f
                   ∧ Reported.float_value f = Some v
                   ∧ (Qabs (v - p) <= p * (1 # 2 ^ 52))%Q
                   ∧ Reported.shown_tenths v = Reported.shown_tenths p)
    ∧ (Session.total_questions_selected st = 5 → Session.score st = 3 →
       length (Session.questions st) = 3 →
       (p == 60)%Q ∧ ¬ (p == 100)%Q
       ∧ Session.percentage_float st = Some 60%float
       ∧ Reported.shown_tenths p = 600%Z).
Proof.
  intros Htotal. unfold Session.percentage, Session.percentage_float.
  destruct (Nat.eqb_spec (Session.total_questions_selected st) 0) as [E|_];
    [lia |].
  eexists. split; [done |]. split; [| split].
  - unfold Qdiv. ring.
  - intros c Hc Hscore.
    pose proof percentages_checked as Hall.
    rewrite forallb_forall in Hall.
    assert (In c Page.count_choices) as Hin by (destruct c; cbn; tauto).
    specialize (Hall c Hin). rewrite forallb_forall in Hall.
    specialize (Hall (Session.score st)). rewrite in_seq in Hall.
    assert (Reported.percentage_close (Page.count_of c) (Session.score st)
            = true) as Hok by (apply Hall; lia).
    clear Hall. unfold Reported.percentage_close in Hok. cbv zeta in Hok.
    unfold Session.percentage, Session.percentage_float in Hok.
    cbn [Session.total_questions_selected Session.score] in Hok.
    rewrite Hc. destruct (Page.count_of c =? 0)%nat; [done |].
    destruct (Reported.float_value _) as [v|] eqn:Hv; [| done].
    apply andb_true_iff in Hok as [Hle Hshown].
    apply Qle_bool_iff in Hle. apply Z.eqb_eq in Hshown.
    eexists _, v. split; [reflexivity |]. split; [exact Hv |].
    split; [exact Hle | exact Hshown].
  - intros -> -> _. split; [by vm_compute |]. split; [by vm_compute |].
    split; vm_compute; reflexivity.
Qed.

Lemma percentage_of_requested_witness :
  (0 < Session.total_questions_selected Samples.finished_3_of_5)%nat
  ∧ length (Session.questions Samples.finished_3_of_5) = 3
  ∧ ∃ p, Session.percentage Samples.finished_3_of_5 = Some p
      ∧ (p == 100 * inject_Z (Z.of_nat (Session.score Samples.finished_3_of_5))
              / inject_Z (Z.of_nat
                   (Session.total_questions_selected Samples.finished_3_of_5)))%Q
      ∧ (p == 60)%Q ∧ ¬ (p == 100)%Q
      ∧ Session.percentage_float Samples.finished_3_of_5 = Some 60%float
      ∧ Reported.shown_tenths p = 600%Z.
Proof.
  split; [vm_compute; lia |]. split; [vm_compute; reflexivity |].
  destruct (percentage_of_requested Samples.finished_3_of_5)
    as (p & Hp & Hformula & _ & Hcase); [vm_compute; lia |].
  destruct Hcase as (H60 & H100 & Hf & Hshown);
    [vm_compute; reflexivity .. |].
  exists p. split; [exact Hp |]. split; [exact Hformula |].
  split; [exact H60 |]. split; [exact H100 |]. split; [exact Hf | exact Hshown].
Defined.

(** C6: submitting an answer.  In a session in progress whose current
    question is not answered yet, the submit button stores the first
    character of the chosen label as [selected_answer], sets [answered],
    and adds 1 to the score exactly when that letter is the question's
    correct letter; nothing else changes.  So a "B" against the correct
    letter "A" leaves the score as it was. *)
Theorem submit_answer_spec (st : Session.quiz_state) (q : quiz_data)
    (c : ascii) (label : string) :
  Session.phase_of st = Session.InProgress →
  Session.questions st !! Session.current_question_index st = Some q →
  Session.answered st = false →
  let letter := String c EmptyString in
  let st' := Session.submit_answer st (Some (String c label)) in
  Session.selected_answer st' = Some letter
  ∧ Session.answered st' = true
  ∧ (letter = correct q → Session.score st' = Session.score st + 1)
  ∧ (letter ≠ correct q → Session.score st' = Session.score st)
  ∧ (Session.score st' = Session.score st + 1 ↔ letter = correct q)
  ∧ (letter = "B" → correct q = "A" → Session.score st' = Session.score st)
  ∧ Session.questions st' = Session.questions st
  ∧ Session.current_question_index st' = Session.current_question_index st
  ∧ Session.total_questions_selected st' = Session.total_questions_selected st
  ∧ Session.phase_of st' = Session.InProgress.
Proof.
  intros Hphase Hq Hans letter st'. subst st'.
  unfold Session.phase_of in Hphase. unfold Session.submit_answer.
  destruct (Session.quiz_started st) eqn:Hs,
    (Session.quiz_completed st) eqn:Hc; try done.
  rewrite Hq, Hans. cbv zeta. fold letter.
  destruct (String.eqb_spec letter (correct q)) as [He|Hne]; cbn.
  - repeat split; try done. intros HB HA. rewrite HB, HA in He. done.
  - repeat split; try done; lia.
Qed.

Lemma submit_answer_spec_witness :
  let st := fst (fst (Session.start_quiz Samples.three_then_errors 5 0)) in
  let st' := Session.submit_answer st (Some "B) Break a toy in return") in
  Session.phase_of st = Session.InProgress
  ∧ Session.answered st = false
  ∧ Session.selected_answer st' = Some "B"
  ∧ Session.answered st' = true
  ∧ Session.score st' = Session.score st.
Proof.
  intros st st'.
  assert (∃ q, Session.questions st !! Session.current_question_index st = Some q
               ∧ correct q = "A") as (q & Hq & HA).
  { eexists. split; by vm_compute. }
  assert (Session.phase_of st = Session.InProgress) as Hphase by by vm_compute.
  assert (Session.answered st = false) as Hun by by vm_compute.
  destruct (submit_answer_spec st q "B" ") Break a toy in return" Hphase Hq Hun)
    as (Hsel & Hans & _ & _ & _ & Hsame & _).
  exact (conj Hphase (conj Hun (conj Hsel (conj Hans (Hsame eq_refl HA))))).
Defined.

(** C9: the salutation step of the chatbot.  An answer that does not
    start with the salutation gets it prepended, once; an answer that
    starts with it is left as it is.  The result always starts with the
    salutation, so the step, applied again, changes nothing. *)
Theorem salutation_idempotent (ai_response : string) :
  let out := Chatbot.ensure_salutation ai_response in
  (startswith ai_response "Hare Krishna" = false
     ∧ out = "Hare Krishna! " +:+ ai_response
   ∨ startswith ai_response "Hare Krishna" = true ∧ out = ai_response)
  ∧ startswith out "Hare Krishna" = true
  ∧ Chatbot.ensure_salutation out = out
  ∧ startswith (Chatbot.postprocess ai_response) "Hare Krishna" = true.
Proof.
  assert (∀ s, startswith (Chatbot.ensure_salutation s) "Hare Krishna" = true)
    as Hstart.
  { intros s. unfold Chatbot.ensure_salutation.
    destruct (startswith s "Hare Krishna") eqn:E; cbn [negb]; [done |].
    unfold startswith.
    change ("Hare Krishna! " +:+ s) with ("Hare Krishna" +:+ ("! " +:+ s)).
    apply prefix_app. }
  cbv zeta. split; [| split; [apply Hstart | split; [| apply Hstart]]].
  - unfold Chatbot.ensure_salutation.
    destruct (startswith ai_response "Hare Krishna"); cbn [negb]; auto.
  - unfold Chatbot.ensure_salutation at 1. by rewrite Hstart.
Qed.

(** ** The CORRECT and EXPLANATION branches *)

Section Branches.

Lemma split1_first (s part : string) :
  split1 ":" s !! 1 = Some part →
  ∃ before, s = before +:+ String ":" part ∧ occurs ":" before = false.
Proof.
  revert part. induction s as [|c s IH]; intros part; cbn [split1]; [done |].
  destruct (Ascii.eqb_spec c ":") as [->|Hne].
  - intros [= <-]. by exists "".
  - destruct (split1 ":" s) as [|p ps] eqn:E; [done |].
    cbn. intros Hp. destruct (IH part Hp) as (before & -> & Hb).
    exists (String c before). split; [done |]. cbn [occurs]. rewrite Hb.
    by destruct (Ascii.eqb_spec c ":").
Qed.

(** [first_choice] finds the first of the letters, if there is one. *)
Lemma first_choice_spec (s c : string) :
  first_choice s = Some c ↔
  ∃ pre ch post,
    s = pre +:+ String ch post ∧ c = String ch "" ∧ c ∈ choices
    ∧ ∀ x, occurs x pre = true → String x "" ∉ choices.
Proof.
  split.
  - induction s as [|a s IH]; cbn [first_choice]; [done |].
    destruct (in_list (String a "") choices) eqn:E.
    + intros [= <-]. exists "", a, s. repeat split; [by apply in_list_elem | done].
    + intros (pre & ch & post & -> & -> & Hc & Hpre)%IH.
      exists (String a pre), ch, post. repeat split; [done |].
      intros x. cbn [occurs]. intros [->%Ascii.eqb_eq|Hx]%orb_true_iff; [| eauto].
      intros Hin%in_list_elem. congruence.
  - intros (pre & ch & post & -> & -> & Hc & Hpre).
    induction pre as [|a pre IH].
    + change ("" +:+ String ch post) with (String ch post). cbn [first_choice].
      apply in_list_elem in Hc. by rewrite Hc.
    + change (String a pre +:+ String ch post)
        with (String a (pre +:+ String ch post)).
      cbn [first_choice].
      destruct (in_list (String a "") choices) eqn:E.
      * apply in_list_elem in E. destruct (Hpre a); [| done].
        cbn [occurs]. by rewrite Ascii.eqb_refl.
      * apply IH. intros x Hx. apply Hpre. cbn [occurs]. rewrite Hx.
        apply orb_true_r.
Qed.

End Branches.

(** ** The lines of a template, one branch each *)

Section TemplateLines.
Import Template.

Lemma tidy_spec (s : string) :
  tidy s = true ↔ occurs LF s = false ∧ strip s = s.
Proof.
  unfold tidy. rewrite andb_true_iff, negb_true_iff, String.eqb_eq. done.
Qed.

Lemma contains_prefix (needle s : string) :
  String.prefix needle s = true → contains needle s = true.
Proof. intros H. destruct s; cbn [contains]; by rewrite H. Qed.

(** The stripped form of a marker followed by a tidy field. *)
Lemma strip_marker_field (c : ascii) (p f : string) :
  isspace c = false → strip f = f →
  strip (String c p +:+ f) = String c (if truthy f then p +:+ f else rstrip p).
Proof.
  intros Hc Hf. change (String c p +:+ f) with (String c (p +:+ f)).
  rewrite strip_nonspace by done. rewrite rstrip_app.
  by rewrite (stripped_rstrip _ Hf).
Qed.

Lemma strip_space_field (f : string) : strip f = f → strip (" " +:+ f) = f.
Proof. done. Qed.

Lemma occurs_app (c : ascii) (a b : string) :
  occurs c (a +:+ b) = occurs c a || occurs c b.
Proof.
  induction a as [|x a IH]; [done |].
  change (String x a +:+ b) with (String x (a +:+ b)). cbn [occurs].
  by rewrite IH, orb_assoc.
Qed.

Lemma split1_app (before part : string) :
  occurs ":" before = false →
  split1 ":" (before +:+ String ":" part) = [before; part].
Proof.
  induction before as [|c before IH]; intros H; [done |].
  change (String c before +:+ String ":" part)
    with (String c (before +:+ String ":" part)).
  cbn [occurs] in H. apply orb_false_iff in H as [Hc H].
  cbn [split1]. by rewrite Hc, (IH H).
Qed.

Lemma contains_cons_ne (n0 c : ascii) (n s : string) :
  n0 ≠ c → contains (String n0 n) (String c s) = contains (String n0 n) s.
Proof.
  intros Hne. cbn [contains String.prefix].
  by destruct (ascii_dec n0 c).
Qed.

Lemma contains_nil (n0 : ascii) (n : string) : contains (String n0 n) "" = false.
Proof. done. Qed.

(** The upper-cased line does not have the marker when the field does not
    and no character before the field is the first of the marker. *)
Ltac no_marker :=
  rewrite ?upper_app; simpl upper; simpl String.append;
  rewrite ?contains_cons_ne by done; try done; try apply contains_nil.

Lemma step_question_line (q : string) (rest : list string) (st : fields) :
  tidy q = true → truthy q = true →
  step ("QUESTION: " +:+ q) rest st = Ret (set_question st q, rest).
Proof.
  intros [_ Hq]%tidy_spec Hne. unfold step. cbv zeta.
  rewrite strip_marker_field by done. rewrite Hne.
  change (String "Q" ("UESTION: " +:+ q)) with ("QUESTION" +:+ String ":" (" " +:+ q)).
  assert (contains "QUESTION:" (upper ("QUESTION" +:+ String ":" (" " +:+ q))) = true)
    as ->.
  { apply contains_prefix. rewrite upper_app.
    change (upper "QUESTION" +:+ upper (String ":" (" " +:+ q)))
      with ("QUESTION:" +:+ upper (" " +:+ q)).
    apply prefix_app. }
  rewrite contains_colon, occurs_app. cbn [occurs]. rewrite Ascii.eqb_refl.
  rewrite orb_true_r. rewrite split1_app by done.
  unfold item. cbn [lookup list_lookup]. rewrite strip_space_field by done.
  by rewrite Hne.
Qed.

Lemma step_option_line (ch : ascii) (a : string) (rest : list string)
    (st : fields) :
  In ch ["A"; "B"; "C"; "D"]%char →
  tidy a = true → option_text_plain a = true →
  step (String ch (") " +:+ a)) rest st
  = Ret (set_option st (String ch "") a, rest).
Proof.
  intros Hch [_ Ha]%tidy_spec [Hp HQ]%andb_true_iff.
  apply negb_true_iff in Hp. apply negb_true_iff in HQ.
  assert (isspace ch = false) as Hsp.
  { by destruct Hch as [<-|[<-|[<-|[<-|[]]]]]. }
  unfold step. cbv zeta.
  change (String ch (") " +:+ a)) with (String ch ") " +:+ a).
  rewrite strip_marker_field by done.
  destruct a as [|x a]; cbn [truthy].
  - destruct Hch as [<-|[<-|[<-|[<-|[]]]]]; done.
  - assert (contains "QUESTION:" (upper (String ch (") " +:+ String x a))) = false)
      as ->.
    { destruct Hch as [<-|[<-|[<-|[<-|[]]]]]; by no_marker. }
    assert (starts_option (String ch (") " +:+ String x a)) = true) as ->.
    { destruct Hch as [<-|[<-|[<-|[<-|[]]]]]; done. }
    assert (first_upper (String ch (") " +:+ String x a)) = Ret (String ch ""))
      as ->.
    { destruct Hch as [<-|[<-|[<-|[<-|[]]]]]; done. }
    assert (option_value (String ch (") " +:+ String x a)) = String x a) as ->;
      [| done].
    unfold option_value.
    change (slice_from 2 (String ch (") " +:+ String x a)))
      with (" " +:+ String x a).
    change (2 <? String.length (String ch (") " +:+ String x a)))%nat with true.
    cbv iota. rewrite strip_space_field by done. by rewrite Hp.
Qed.

Lemma step_correct_line (x : string) (rest : list string) (st : fields) :
  in_list x choices = true →
  step ("CORRECT: " +:+ x) rest st = Ret (set_correct st x, rest).
Proof.
  intros Hx%in_list_elem. unfold choices in Hx.
  repeat (apply elem_of_cons in Hx as [->|Hx]; [done |]).
  by apply elem_of_nil in Hx.
Qed.

Lemma step_explanation_line (e : string) (rest : list string) (st : fields) :
  tidy e = true → free_of "QUESTION:" e = true → free_of "CORRECT:" e = true →
  f_explanation st = "" →
  step ("EXPLANATION: " +:+ e) rest st
  = Ret (set_explanation st (fst (collect rest e)), snd (collect rest e)).
Proof.
  intros [_ He]%tidy_spec HQ%negb_true_iff HC%negb_true_iff Hst.
  unfold step. cbv zeta.
  rewrite strip_marker_field by done.
  destruct e as [|x e]; cbn [truthy].
  - by rewrite Hst.
  - change (String "E" ("XPLANATION: " +:+ String x e))
      with ("EXPLANATION" +:+ String ":" (" " +:+ String x e)).
    assert (contains "QUESTION:"
              (upper ("EXPLANATION" +:+ String ":" (" " +:+ String x e))) = false)
      as ->.
    { by no_marker. }
    assert (starts_option ("EXPLANATION" +:+ String ":" (" " +:+ String x e))
            = false) as -> by done.
    assert (contains "CORRECT:"
              (upper ("EXPLANATION" +:+ String ":" (" " +:+ String x e))) = false)
      as ->.
    { by no_marker. }
    assert (contains "EXPLANATION:"
              (upper ("EXPLANATION" +:+ String ":" (" " +:+ String x e))) = true)
      as ->.
    { apply contains_prefix. rewrite upper_app.
      change (upper "EXPLANATION" +:+ upper (String ":" (" " +:+ String x e)))
        with ("EXPLANATION:" +:+ upper (" " +:+ String x e)).
      apply prefix_app. }
    rewrite split1_app by done.
    unfold item. cbn [lookup list_lookup]. rewrite strip_space_field by done.
    done.
Qed.

End TemplateLines.

Section TemplateParse.
Import Template.

Lemma nonblank_marker (c : ascii) (p f : string) :
  isspace c = false → nonblank (String c p +:+ f) = true.
Proof.
  intros H. change (String c p +:+ f) with (String c (p +:+ f)).
  unfold nonblank. by rewrite strip_nonspace.
Qed.

Lemma forallb_Forall_tidy (conts : list string) :
  forallb (λ l, tidy l && truthy l) conts = true →
  Forall (λ l, occurs LF l = false ∧ strip l = l ∧ truthy l = true) conts.
Proof.
  rewrite forallb_forall, Forall_forall. intros H l Hl%list_elem_of_In.
  apply H in Hl. apply andb_true_iff in Hl as [[? ?]%tidy_spec ?]. done.
Qed.

Lemma filter_nonblank_id (conts : list string) :
  Forall (λ l, occurs LF l = false ∧ strip l = l ∧ truthy l = true) conts →
  List.filter nonblank conts = conts.
Proof.
  induction 1 as [|l ls (_ & Hs & Ht) _ IH]; [done |].
  cbn [List.filter]. unfold nonblank at 1. by rewrite Hs, Ht, IH.
Qed.

(** On stripped lines the appended explanation is the plain joining. *)
Lemma append_lines_join (e : string) (conts : list string) :
  Forall (λ l, occurs LF l = false ∧ strip l = l ∧ truthy l = true) conts →
  append_lines e conts = join_explanation e conts.
Proof.
  intros H. revert e. unfold append_lines, join_explanation.
  induction H as [|l ls (_ & Hs & _) _ IH]; intros e; [done |].
  cbn [fold_left]. by rewrite Hs, IH.
Qed.

(** The options of a template, in the order the letters are listed. *)
Lemma options_in_order (a b c d : string) :
  <["D" := d]> (<["C" := c]> (<["B" := b]> (<["A" := a]> (∅ : gmap string string))))
  = {[ "A" := a; "B" := b; "C" := c; "D" := d ]}.
Proof.
  apply map_eq. intros k.
  destruct (decide (k = "A")) as [->|]; [done |].
  destruct (decide (k = "B")) as [->|]; [done |].
  destruct (decide (k = "C")) as [->|]; [done |].
  destruct (decide (k = "D")) as [->|]; [done |].
  rewrite !lookup_insert_ne by done. by rewrite lookup_singleton_ne.
Qed.

End TemplateParse.

(** The template where the parser reads it as meant: a reply in the
    five-field template (tidy one-line fields, a question that is not
    empty, a letter as the correct answer, an explanation line followed by
    continuation lines) is parsed to the record of its fields, with the
    explanation followed by all its continuation lines, provided no field
    can be taken for a marker: no option text begins with a closing
    parenthesis or has the QUESTION marker, the explanation text has
    neither the QUESTION nor the CORRECT marker, and no continuation line
    has a section keyword in it. *)
Theorem parse_template (q a b c d x e : string) (conts : list string) :
  Template.template_shape q a b c d x e conts = true →
  Template.unambiguous a b c d e conts = true →
  parse_quiz_question (Template.template q a b c d x e conts)
  = Some (Template.expected q a b c d x e conts).
Proof.
  unfold Template.template_shape, Template.unambiguous.
  rewrite !andb_true_iff.
  intros ((((((((Hq & Hqn) & Ha) & Hb) & Hc) & Hd) & Hx) & He) & Hconts).
  intros ((((((Pa & Pb) & Pc) & Pd) & EQ) & EC) & Hfree).
  apply forallb_Forall_tidy in Hconts.
  assert (Forall (λ l, hits_section (strip l) = false) conts) as Hnohit.
  { rewrite forallb_forall in Hfree. rewrite Forall_forall in Hconts |- *.
    intros l Hl. destruct (Hconts l Hl) as (_ & -> & _).
    apply list_elem_of_In, Hfree, negb_true_iff in Hl. done. }
  pose proof Hq as [HqL _]%tidy_spec. pose proof Ha as [HaL _]%tidy_spec.
  pose proof Hb as [HbL _]%tidy_spec. pose proof Hc as [HcL _]%tidy_spec.
  pose proof Hd as [HdL _]%tidy_spec. pose proof He as [HeL _]%tidy_spec.
  assert (occurs LF x = false) as HxL.
  { apply in_list_elem in Hx. unfold choices in Hx.
    repeat (apply elem_of_cons in Hx as [->|Hx]; [done |]).
    by apply elem_of_nil in Hx. }
  unfold Template.template. rewrite parse_unlines; [| done |].
  2:{ unfold Template.template_lines. apply Forall_app. split.
      - repeat (apply Forall_cons; split;
                [rewrite occurs_app; cbn [occurs]; by rewrite ?HqL, ?HaL, ?HbL, ?HcL, ?HdL, ?HxL, ?HeL |]).
        apply Forall_nil_2.
      - eapply Forall_impl; [exact Hconts |]. by intros l (? & _). }
  unfold Template.template_lines. rewrite List.filter_app.
  rewrite (filter_nonblank_id conts) by done.
  cbn [List.filter]. rewrite !nonblank_marker by done. cbn [app].
  unfold parse_lines.
  rewrite scan_step, step_question_line by done.
  rewrite scan_step.
  rewrite (step_option_line "A" a) by (cbn; tauto || done).
  rewrite scan_step.
  rewrite (step_option_line "B" b) by (cbn; tauto || done).
  rewrite scan_step.
  rewrite (step_option_line "C" c) by (cbn; tauto || done).
  rewrite scan_step.
  rewrite (step_option_line "D" d) by (cbn; tauto || done).
  rewrite scan_step, step_correct_line by done.
  rewrite scan_step, step_explanation_line by done.
  rewrite collect_all by done. cbn [fst snd]. rewrite scan_nil.
  unfold validate. cbn [f_question f_options f_correct f_explanation
    set_explanation set_correct set_option set_question init_fields].
  rewrite Hqn, Hx. cbn [negb].
  rewrite options_in_order, append_lines_join by done.
  done.
Qed.

Lemma parse_template_witness :
  parse_quiz_question
    (Template.template Samples.toy_question Samples.toy_a Samples.toy_b
       Samples.toy_c Samples.toy_d "A" Samples.toy_explanation
       ["in gain and in loss."])
  = Some (Template.expected Samples.toy_question Samples.toy_a Samples.toy_b
            Samples.toy_c Samples.toy_d "A" Samples.toy_explanation
            ["in gain and in loss."]).
Proof. apply parse_template; by vm_compute. Defined.

(** C1: a well-formed template is to be parsed with the explanation
    followed by all its continuation lines.  The code misses this on the
    reply below, whose first continuation line reads
    [in gain and in loss (Bhagavad Gita).]: upper-cased, the line has [A)]
    in it, so the inner loop of the explanation stops there, although the
    line begins no option and the main loop then reads it as no section at
    all.  The record is returned with the explanation line alone; the
    continuation line and the one after it are lost. *)
Lemma template_continuation_cut :
  Template.template_shape Samples.toy_question Samples.toy_a Samples.toy_b
    Samples.toy_c Samples.toy_d "A" Samples.toy_explanation
    Samples.gita_continuation = true
  ∧ split LF Samples.gita_reply
    = ["QUESTION: Your friend breaks your toy. What would Krishna advise?";
       "A) Forgive and stay calm"; "B) Break a toy in return";
       "C) Stop talking to the friend"; "D) Hide all your toys";
       "CORRECT: A"; "EXPLANATION: The Gita teaches an even mind";
       "in gain and in loss (Bhagavad Gita)."; "Stay calm."]
  ∧ hits_section (strip "in gain and in loss (Bhagavad Gita).") = true
  ∧ starts_option (strip "in gain and in loss (Bhagavad Gita).") = false
  ∧ classify (strip "in gain and in loss (Bhagavad Gita).") = KOther
  ∧ (explanation <$> parse_quiz_question Samples.gita_reply)
    = Some "The Gita teaches an even mind"
  ∧ explanation (Template.expected Samples.toy_question Samples.toy_a
                   Samples.toy_b Samples.toy_c Samples.toy_d "A"
                   Samples.toy_explanation Samples.gita_continuation)
    = "The Gita teaches an even mind in gain and in loss (Bhagavad Gita). Stay calm."
  ∧ parse_quiz_question Samples.gita_reply
    ≠ Some (Template.expected Samples.toy_question Samples.toy_a Samples.toy_b
              Samples.toy_c Samples.toy_d "A" Samples.toy_explanation
              Samples.gita_continuation).
Proof.
  repeat (split; [by vm_compute |]).
  intros H. apply (f_equal (fmap explanation)) in H. by vm_compute in H.
Qed.

(** ** The scan as a machine: agreement with the loop, and what it registers *)

Section Machine.

Lemma set_explanation_id (st : fields) : set_explanation st (f_explanation st) = st.
Proof. by destruct st. Qed.

(** One iteration of the loop is the dispatch of its line followed by what
    the new mode does with the lines after it. *)
Lemma step_dispatch (l : string) (rest : list string) (st : fields) :
  step l rest st
  = match dispatch l st with
    | Exc e => Exc e
    | Ret (Seek, st') => Ret (st', rest)
    | Ret (TakeQuestion, st') =>
        match rest with
        | [] => Ret (st', [])
        | next :: rest' => Ret (set_question st' (strip next), rest')
        end
    | Ret (Accumulate, st') =>
        Ret (set_explanation st' (fst (collect rest (f_explanation st'))),
             snd (collect rest (f_explanation st')))
    end.
Proof.
  unfold step, dispatch. cbv zeta.
  repeat (case_match; try done); simplify_eq; done.
Qed.

Lemma dispatch_returns (l : string) (st : fields) :
  ∃ m st', dispatch l st = Ret (m, st').
Proof.
  destruct (step_returns l [] st) as (st' & rest' & H).
  rewrite step_dispatch in H.
  destruct (dispatch l st) as [[m st1]|e]; [eauto | done].
Qed.

Lemma run_accumulate (rest : list string) (st : fields) :
  run Accumulate rest st
  = run Seek (snd (collect rest (f_explanation st)))
      (set_explanation st (fst (collect rest (f_explanation st)))).
Proof.
  revert st. induction rest as [|l rest IH]; intros st.
  - cbn. by rewrite set_explanation_id.
  - cbn [run collect]. cbv zeta. destruct (hits_section (strip l)).
    + cbn [fst snd run]. by rewrite set_explanation_id.
    + by rewrite IH.
Qed.

(** The machine started in [Seek] is the main loop. *)
Lemma scan_run (lines : list string) (st : fields) :
  scan lines st = run Seek lines st.
Proof.
  destruct (scan_elim (λ lines st st_f, run Seek lines st = Ret st_f))
    with (lines := lines) (st := st) as (st_f & -> & H); [done | | done].
  clear. intros l rest st st' rest' st_f Hstep _ _ IH.
  rewrite step_dispatch in Hstep. cbn [run]. cbv zeta.
  destruct (dispatch l st) as [[[| |] st1]|e]; [| | | done].
  - by injection Hstep as <- <-.
  - destruct rest as [|next rest]; injection Hstep as <- <-; [done |].
    by cbn [run].
  - injection Hstep as <- <-. by rewrite run_accumulate.
Qed.

Lemma run_returns (m : mode) (lines : list string) (st : fields) :
  ∃ f, run m lines st = Ret f.
Proof.
  revert m st. induction lines as [|l rest IH]; intros m st; [by exists st |].
  cbn [run]. cbv zeta.
  destruct (dispatch_returns l st) as (m' & st' & ->).
  destruct m; [done.. |]. by destruct (hits_section (strip l)).
Qed.

(** The mode after a line does not depend on the locals. *)
Lemma dispatch_mode (l : string) (st st' : fields) (m : mode) :
  dispatch l st = Ret (m, st') → m = mode_after l.
Proof.
  unfold mode_after, dispatch. cbv zeta.
  repeat (case_match; try done); by intros [= <- <-].
Qed.

Lemma starts_option_cases (line : string) :
  starts_option line = true →
  ∃ c rest, line = String c (String ")" rest) ∧ In c ["A"; "B"; "C"; "D"]%char.
Proof.
  unfold starts_option, startswith. cbn [existsb]. intros H.
  destruct line as [|c [|c' rest]]; cbn [String.prefix] in H;
    repeat match type of H with
    | context [ascii_dec ?a ?b] => destruct (ascii_dec a b) as [?|?]
    end; try done; subst; eexists _, _; (split; [done |]); cbn; tauto.
Qed.

(** A line that starts with an option prefix has a section keyword. *)
Lemma starts_option_hits (line : string) :
  starts_option line = true → hits_section line = true.
Proof.
  intros (c & rest & -> & Hc)%starts_option_cases.
  unfold hits_section. apply existsb_exists.
  destruct Hc as [<-|[<-|[<-|[<-|[]]]]];
    [exists "A)" | exists "B)" | exists "C)" | exists "D)"];
    (split; [cbn; tauto |]); apply contains_prefix; simpl; apply prefix_empty.
Qed.

(** A line that registers is dispatched to the option branch. *)
Lemma dispatch_registers (l : string) (st : fields) :
  registers l = true →
  dispatch l st = Ret (Seek, set_option st (option_key l) (option_value (strip l)))
  ∧ option_key l ∈ choices
  ∧ hits_section (strip l) = true.
Proof.
  unfold registers, dispatch, option_key. cbv zeta.
  intros [HQ%negb_true_iff HO]%andb_true_iff. rewrite HQ, HO.
  pose proof HO as (key & Hk & Hf & Hs)%starts_option_key.
  rewrite Hf. split; [| split; [| by apply starts_option_hits]].
  - destruct (strip l) as [|c line]; [done |].
    cbn [first_upper] in Hf. by injection Hf as <-.
  - destruct (strip l) as [|c line]; [done |].
    cbn [first_upper] in Hf. by injection Hf as <-.
Qed.

(** Any other line leaves the options as they are. *)
Lemma dispatch_other (l : string) (st st' : fields) (m : mode) :
  registers l = false → dispatch l st = Ret (m, st') →
  f_options st' = f_options st.
Proof.
  unfold registers, dispatch. cbv zeta. intros Hr.
  destruct (contains "QUESTION:" (upper (strip l))).
  - repeat (case_match; try done); by intros [= <- <-].
  - cbn [negb andb] in Hr. rewrite Hr.
    repeat (case_match; try done); by intros [= <- <-].
Qed.

(** The options after a run are the options before it with the registered
    lines added in order. *)
Lemma run_options (m : mode) (lines : list string) (st f : fields) :
  run m lines st = Ret f →
  f_options f = foldl add_option (f_options st) (registered m lines).
Proof.
  revert m st f. induction lines as [|l rest IH]; intros m st f.
  - by intros [= <-].
  - assert (∀ f, match dispatch l st with
                 | Ret (m', st') => run m' rest st'
                 | Exc e => Exc e
                 end = Ret f →
                 f_options f
                 = foldl add_option (f_options st)
                     ((if registers l then [l] else [])
                      ++ registered (mode_after l) rest)) as Hmain.
    { clear f. intros f.
      destruct (dispatch l st) as [[m' st']|e] eqn:Hd; [| done].
      pose proof (dispatch_mode _ _ _ _ Hd) as ->.
      intros Hrun%IH. rewrite Hrun. destruct (registers l) eqn:Hr.
      - destruct (dispatch_registers l st Hr) as (Hd' & _).
        rewrite Hd' in Hd. by injection Hd as _ <-.
      - by rewrite (dispatch_other _ _ _ _ Hr Hd). }
    cbn [run registered]. cbv zeta. destruct m.
    + apply Hmain.
    + intros Hrun%IH. by rewrite Hrun.
    + destruct (hits_section (strip l)); [apply Hmain |].
      intros Hrun%IH. by rewrite Hrun.
Qed.

End Machine.

(** ** Option lines in a different order *)

Section OptionOrder.

Lemma registers_option_line (l : string) :
  registers l = true → option_line l = true.
Proof. unfold registers, option_line. by intros [_ ?]%andb_true_iff. Qed.

Lemma option_key_choice (l : string) :
  option_line l = true → option_key l ∈ choices.
Proof.
  unfold option_line, option_key.
  intros (c & rest & -> & Hc)%starts_option_cases.
  apply in_list_elem. by destruct Hc as [<-|[<-|[<-|[<-|[]]]]].
Qed.

Lemma registers_mode (l : string) : registers l = true → mode_after l = Seek.
Proof.
  intros Hr. unfold mode_after.
  by destruct (dispatch_registers l init_fields Hr) as (-> & _).
Qed.

Lemma registers_hits (l : string) :
  registers l = true → hits_section (strip l) = true.
Proof. intros Hr. by destruct (dispatch_registers l init_fields Hr) as (_ & _ & ?). Qed.

Lemma same_mode (x y : string) :
  same_or_registers x y → mode_after x = mode_after y.
Proof. intros [->|[Hx Hy]]; [done |]. by rewrite !registers_mode. Qed.

Lemma same_hits (x y : string) :
  same_or_registers x y → hits_section (strip x) = hits_section (strip y).
Proof. intros [->|[Hx Hy]]; [done |]. by rewrite !registers_hits. Qed.

Lemma registered_elem (m : mode) (ls : list string) (y : string) :
  y ∈ registered m ls → y ∈ ls ∧ registers y = true.
Proof.
  revert m. induction ls as [|l rest IH]; intros m; [by intros ?%elem_of_nil |].
  assert (y ∈ (if registers l then [l] else []) ++ registered (mode_after l) rest
          → y ∈ l :: rest ∧ registers y = true) as Hmain.
  { intros [Hy|Hy]%elem_of_app.
    - destruct (registers l) eqn:Hr; [| by apply elem_of_nil in Hy].
      apply list_elem_of_singleton in Hy as ->. split; [left | done].
    - destruct (IH _ Hy). split; [by right | done]. }
  cbn [registered]. cbv zeta. destruct m; [done | | ].
  - intros Hy. destruct (IH _ Hy). split; [by right | done].
  - destruct (hits_section (strip l)); [done |].
    intros Hy. destruct (IH _ Hy). split; [by right | done].
Qed.

(** Every line that registers is registered by the run or taken as
    question text; it is never absorbed into the explanation. *)
Lemma registered_or_eaten (m : mode) (ls : list string) :
  List.filter registers ls
  ≡ₚ registered m ls ++ List.filter registers (eaten m ls).
Proof.
  revert m. induction ls as [|l rest IH]; intros m; [done |].
  assert (List.filter registers (l :: rest)
          ≡ₚ ((if registers l then [l] else []) ++ registered (mode_after l) rest)
             ++ List.filter registers (eaten (mode_after l) rest)) as Hmain.
  { cbn [List.filter]. rewrite <- app_assoc, <- IH. by destruct (registers l). }
  cbn [registered eaten]. cbv zeta. destruct m; [done | |].
  - cbn [List.filter]. destruct (registers l); [| apply IH].
    rewrite (IH Seek). apply Permutation_middle.
  - destruct (hits_section (strip l)) eqn:Hh; [done |].
    cbn [List.filter]. destruct (registers l) eqn:Hr; [| apply IH].
    by rewrite registers_hits in Hh.
Qed.

Lemma eaten_lockstep (m : mode) (ls ls' : list string) :
  Forall2 same_or_registers ls ls' →
  Forall2 same_or_registers (eaten m ls) (eaten m ls').
Proof.
  intros H. revert m. induction H as [|x y ls ls' Hxy _ IH]; intros m; [done |].
  cbn [eaten]. rewrite (same_mode _ _ Hxy), (same_hits _ _ Hxy).
  destruct m; [apply IH | by constructor |].
  destruct (hits_section (strip y)); apply IH.
Qed.

(** When no line that registers is taken as question text on one side,
    the same lines are taken on both sides. *)
Lemma eaten_same (ls ls' : list string) :
  Forall2 same_or_registers ls ls' →
  List.filter registers ls = [] → ls = ls'.
Proof.
  induction 1 as [|x y ls ls' Hxy _ IH]; [done |].
  cbn [List.filter]. destruct (registers x) eqn:Hx; [done |].
  intros Hrest. rewrite (IH Hrest). f_equal.
  destruct Hxy as [->|[Hx' _]]; [done | congruence].
Qed.

(** Dispatching the same line from locals that agree on the correct answer
    and the explanation keeps them in agreement, and keeps the questions
    equal when they were. *)
Lemma dispatch_agree (l : string) (st st' s1 s1' : fields) (m m' : mode) :
  f_correct st = f_correct st' → f_explanation st = f_explanation st' →
  dispatch l st = Ret (m, s1) → dispatch l st' = Ret (m', s1') →
  m = m' ∧ f_correct s1 = f_correct s1' ∧ f_explanation s1 = f_explanation s1'
  ∧ (f_question st = f_question st' → f_question s1 = f_question s1').
Proof.
  intros Hc He. unfold dispatch. cbv zeta.
  repeat (case_match; try done); intros [= <- <-] [= <- <-]; cbn;
    rewrite ?He; done.
Qed.

Lemma run_lockstep (ls ls' : list string) :
  Forall2 same_or_registers ls ls' →
  ∀ m st st' f f',
    f_correct st = f_correct st' → f_explanation st = f_explanation st' →
    run m ls st = Ret f → run m ls' st' = Ret f' →
    f_correct f = f_correct f' ∧ f_explanation f = f_explanation f'
    ∧ (List.filter registers (eaten m ls) = [] →
       f_question st = f_question st' → f_question f = f_question f').
Proof.
  induction 1 as [|x y ls ls' Hxy _ IH]; intros m st st' f f' Hc He.
  { by intros [= <-] [= <-]. }
  assert (∀ f f',
    match dispatch x st with
    | Ret (m', s1) => run m' ls s1
    | Exc e => Exc e
    end = Ret f →
    match dispatch y st' with
    | Ret (m', s1) => run m' ls' s1
    | Exc e => Exc e
    end = Ret f' →
    f_correct f = f_correct f' ∧ f_explanation f = f_explanation f'
    ∧ (List.filter registers (eaten (mode_after x) ls) = [] →
       f_question st = f_question st' → f_question f = f_question f')) as Hmain.
  { clear f f'. intros f f'.
    destruct (dispatch x st) as [[m1 s1]|?] eqn:Hd; [| done].
    destruct (dispatch y st') as [[m1' s1']|?] eqn:Hd'; [| done].
    pose proof (dispatch_mode _ _ _ _ Hd) as ->.
    pose proof (dispatch_mode _ _ _ _ Hd') as ->.
    rewrite <- (same_mode _ _ Hxy).
    assert (f_correct s1 = f_correct s1' ∧ f_explanation s1 = f_explanation s1'
            ∧ (f_question st = f_question st' → f_question s1 = f_question s1'))
      as (Hc1 & He1 & Hq1).
    { destruct Hxy as [<-|[Hx Hy]].
      - by destruct (dispatch_agree _ _ _ _ _ _ _ Hc He Hd Hd') as (_ & ? & ? & ?).
      - destruct (dispatch_registers x st Hx) as (Hdx & _).
        destruct (dispatch_registers y st' Hy) as (Hdy & _).
        rewrite Hdx in Hd. rewrite Hdy in Hd'.
        injection Hd as _ <-. injection Hd' as _ <-. done. }
    intros Hrun Hrun'.
    destruct (IH _ _ _ _ _ Hc1 He1 Hrun Hrun') as (? & ? & Hq).
    repeat split; [done.. |]. intros Hno Hqs. apply Hq; [done | by apply Hq1]. }
  cbn [run eaten]. cbv zeta. destruct m.
  - apply Hmain.
  - intros Hrun Hrun'.
    destruct (IH Seek (set_question st (strip x)) (set_question st' (strip y))
                f f' Hc He Hrun Hrun') as (? & ? & Hq).
    repeat split; [done.. |]. cbn [List.filter].
    destruct (registers x) eqn:Hx; [done |]. intros Hno _. apply Hq; [done |].
    cbn. destruct Hxy as [->|[Hx' _]]; [done | congruence].
  - rewrite <- (same_hits _ _ Hxy).
    destruct (hits_section (strip x)) eqn:Hh; [apply Hmain |].
    intros Hrun Hrun'.
    destruct Hxy as [<-|[Hx _]]; [| by rewrite registers_hits in Hh].
    destruct (IH Accumulate
                (set_explanation st (f_explanation st +:+ " " +:+ strip x))
                (set_explanation st' (f_explanation st' +:+ " " +:+ strip x))
                f f') as (? & ? & Hq); [done | cbn; by rewrite He | done.. |].
    repeat split; [done.. |]. intros Hno Hqs. by apply Hq.
Qed.

(** Adding option lines with different keys gives the same dictionary in
    any order. *)
Lemma add_options_perm (l1 l2 : list string) (opts : gmap string string) :
  NoDup (map option_key l1) → l1 ≡ₚ l2 →
  foldl add_option opts l1 = foldl add_option opts l2.
Proof.
  intros Hnd Hp. revert opts Hnd.
  induction Hp as [|x l1 l2 _ IH|x y l|l1 l2 l3 Hp1 IH1 Hp2 IH2]; intros opts Hnd.
  - done.
  - cbn [foldl]. apply IH. cbn [map] in Hnd. by apply NoDup_cons in Hnd as [_ ?].
  - cbn [foldl]. f_equal. unfold add_option. apply insert_insert_ne.
    cbn [map] in Hnd. apply NoDup_cons in Hnd as [Hy _].
    intros Heq. apply Hy. rewrite Heq. left.
  - rewrite IH1 by done. apply IH2.
    assert (map option_key l1 ≡ₚ map option_key l2) as Hm
      by by apply Permutation_map.
    by rewrite <- Hm.
Qed.

Lemma add_options_dom (l : list string) (opts : gmap string string) (k : string) :
  k ∈ dom (foldl add_option opts l) ↔ k ∈ dom opts ∨ k ∈ map option_key l.
Proof.
  revert opts. induction l as [|x l IH]; intros opts; cbn [foldl map].
  - split; [by left | intros [?|?%elem_of_nil]; done].
  - rewrite IH. unfold add_option. rewrite dom_insert, elem_of_union,
      elem_of_singleton, elem_of_cons. tauto.
Qed.

Lemma key_inj (L : list string) (x y : string) :
  NoDup (map option_key L) → x ∈ L → y ∈ L → option_key x = option_key y → x = y.
Proof.
  induction L as [|z L IH]; [by intros _ ?%elem_of_nil |].
  cbn [map]. intros [Hz Hnd]%NoDup_cons [->|Hx]%elem_of_cons [->|Hy]%elem_of_cons Hk.
  - done.
  - destruct Hz. rewrite Hk. by apply list_elem_of_fmap_2.
  - destruct Hz. rewrite <- Hk. by apply list_elem_of_fmap_2.
  - by apply IH.
Qed.

(** A letter that no registered line provides makes the parse fail. *)
Lemma missing_key (ls : list string) (k : string) :
  k ∈ choices → k ∉ map option_key (registered Seek ls) →
  parse_lines ls = None.
Proof.
  intros Hk Hno. unfold parse_lines. rewrite scan_run.
  destruct (run_returns Seek ls init_fields) as [f Hrun]. rewrite Hrun.
  apply validate_None. right. left.
  assert (dom (f_options f) ⊆ choice_set) as Hdom.
  { eapply scan_keys; [by rewrite scan_run |]. cbn. by rewrite dom_empty. }
  destruct (size (f_options f) <? 4)%nat eqn:Hsz; [done |].
  apply (four_keys _ Hdom) in Hsz.
  assert (k ∈ dom (f_options f)) as Hin.
  { rewrite Hsz. by apply elem_of_list_to_set. }
  rewrite (run_options _ _ _ _ Hrun) in Hin.
  apply add_options_dom in Hin as [Hin|Hin]; [| done].
  cbn in Hin. by rewrite dom_empty in Hin.
Qed.

(** An option line that does not register (it has the QUESTION marker)
    leaves its letter without an entry. *)
Lemma unregistered_option (L : list string) (x : string) :
  one_line_per_letter L → x ∈ List.filter option_line L → registers x = false →
  parse_lines L = None.
Proof.
  intros Hnd Hx Hr. apply (missing_key L (option_key x)).
  { apply option_key_choice. by apply list_elem_of_In, filter_In in Hx as [_ ?]. }
  intros (y & Hk & Hy)%list_elem_of_In%in_map_iff.
  apply list_elem_of_In, registered_elem in Hy as [Hy Hry].
  assert (y ∈ List.filter option_line L) as Hy'.
  { apply list_elem_of_In, filter_In. split; [by apply list_elem_of_In |].
    by apply registers_option_line. }
  rewrite (key_inj _ _ _ Hnd Hy' Hx Hk) in Hry. congruence.
Qed.

Lemma filter_registers_options (L : list string) :
  Forall (λ x, registers x = true) (List.filter option_line L) →
  List.filter option_line L = List.filter registers L.
Proof.
  induction L as [|x L IH]; [done |]. cbn [List.filter].
  destruct (option_line x) eqn:Ho.
  - intros [-> H]%Forall_cons. by rewrite IH.
  - intros H. rewrite IH by done. destruct (registers x) eqn:Hr; [| done].
    apply registers_option_line in Hr. congruence.
Qed.

(** An option line taken as question text leaves its letter without an
    entry. *)
Lemma eaten_option (L : list string) :
  one_line_per_letter L →
  Forall (λ x, registers x = true) (List.filter option_line L) →
  List.filter registers (eaten Seek L) ≠ [] →
  parse_lines L = None.
Proof.
  intros Hnd Hall Heaten. unfold one_line_per_letter in Hnd.
  rewrite (filter_registers_options _ Hall) in Hnd.
  assert (map option_key (List.filter registers L)
          ≡ₚ map option_key (registered Seek L)
             ++ map option_key (List.filter registers (eaten Seek L))) as Hacc.
  { rewrite <- map_app. apply Permutation_map, registered_or_eaten. }
  rewrite Hacc in Hnd. apply NoDup_app in Hnd as (_ & Hdisj & _).
  destruct (List.filter registers (eaten Seek L)) as [|x E] eqn:HE; [done |].
  assert (registers x = true) as Hr.
  { assert (In x (List.filter registers (eaten Seek L))) as Hin
      by (rewrite HE; by left).
    by apply filter_In in Hin as [_ ?]. }
  apply (missing_key L (option_key x)).
  { by apply option_key_choice, registers_option_line. }
  intros Hin. apply (Hdisj _ Hin). cbn [map]. left.
Qed.

Lemma same_or_registers_sym (x y : string) :
  same_or_registers x y → same_or_registers y x.
Proof. intros [->|[? ?]]; [by left | by right]. Qed.

(** The parse of two lists of lines that differ in the order of their
    option lines only. *)
Lemma parse_lines_permuted (ls ls' : list string) :
  options_permuted ls ls' → one_line_per_letter ls →
  parse_lines ls = parse_lines ls'.
Proof.
  intros [HF Hperm] Hnd.
  assert (one_line_per_letter ls') as Hnd'.
  { unfold one_line_per_letter in *.
    assert (map option_key (List.filter option_line ls)
            ≡ₚ map option_key (List.filter option_line ls')) as Hm
      by by apply Permutation_map.
    by rewrite <- Hm. }
  destruct (decide (Forall (λ x, registers x = true) (List.filter option_line ls)))
    as [Hall|Hex].
  2:{ apply not_Forall_Exists in Hex; [| apply _].
      apply Exists_exists in Hex as (x & Hx & Hr). cbn in Hr.
      apply not_true_is_false in Hr.
      rewrite (unregistered_option ls x), (unregistered_option ls' x); try done.
      by rewrite <- Hperm. }
  assert (Forall (λ x, registers x = true) (List.filter option_line ls')) as Hall'
    by by rewrite <- Hperm.
  assert (Forall2 same_or_registers ls ls') as HF'.
  { clear -HF Hall Hall'.
    induction HF as [|x y ls ls' Hxy _ IH]; [done |].
    cbn [List.filter] in Hall, Hall'. constructor.
    - destruct Hxy as [->|[Hx Hy]]; [by left | right].
      rewrite Hx in Hall. rewrite Hy in Hall'.
      by apply Forall_cons in Hall as [? _], Hall' as [? _].
    - apply IH.
      + destruct (option_line x); [by apply Forall_cons in Hall as [_ ?] | done].
      + destruct (option_line y); [by apply Forall_cons in Hall' as [_ ?] | done]. }
  pose proof (eaten_lockstep Seek _ _ HF') as HE.
  destruct (List.filter registers (eaten Seek ls)) as [|x E] eqn:Heaten.
  2:{ rewrite (eaten_option ls), (eaten_option ls'); try done.
      - intros Hnone. apply Forall2_flip in HE.
        eapply Forall2_impl in HE;
          [| intros a b Hab; exact (same_or_registers_sym _ _ Hab)].
        rewrite <- (eaten_same _ _ HE Hnone) in Heaten. congruence.
      - by rewrite Heaten. }
  pose proof (eaten_same _ _ HE Heaten) as Hsame.
  assert (registered Seek ls ≡ₚ registered Seek ls') as Hreg.
  { pose proof (registered_or_eaten Seek ls) as H1.
    pose proof (registered_or_eaten Seek ls') as H2.
    rewrite <- Hsame, Heaten, app_nil_r in H2. rewrite Heaten, app_nil_r in H1.
    rewrite <- H1, <- H2.
    by rewrite <- !filter_registers_options. }
  unfold parse_lines. rewrite !scan_run.
  destruct (run_returns Seek ls init_fields) as [f Hrun].
  destruct (run_returns Seek ls' init_fields) as [f' Hrun'].
  rewrite Hrun, Hrun'.
  destruct (run_lockstep _ _ HF' Seek _ _ _ _ eq_refl eq_refl Hrun Hrun')
    as (Hc & He & Hq).
  specialize (Hq Heaten eq_refl).
  assert (f_options f = f_options f') as Ho.
  { rewrite (run_options _ _ _ _ Hrun), (run_options _ _ _ _ Hrun').
    apply add_options_perm; [| done].
    unfold one_line_per_letter in Hnd.
    rewrite (filter_registers_options _ Hall) in Hnd.
    pose proof (registered_or_eaten Seek ls) as H1.
    rewrite Heaten, app_nil_r in H1.
    assert (map option_key (List.filter registers ls)
            ≡ₚ map option_key (registered Seek ls)) as Hm
      by by apply Permutation_map.
    by rewrite <- Hm. }
  destruct f, f'. cbn in *. by subst.
Qed.

Lemma option_line_nonblank (x : string) : option_line x = true → nonblank x = true.
Proof.
  unfold option_line, nonblank.
  by intros (c & rest & -> & _)%starts_option_cases.
Qed.

Lemma same_or_options_nonblank (x y : string) :
  same_or_options x y → nonblank x = nonblank y.
Proof. intros [->|[Hx Hy]]; [done |]. by rewrite !option_line_nonblank. Qed.

Lemma filter_options_nonblank (L : list string) :
  List.filter option_line (List.filter nonblank L) = List.filter option_line L.
Proof.
  induction L as [|x L IH]; [done |]. cbn [List.filter].
  destruct (nonblank x) eqn:Hn; cbn [List.filter]; rewrite IH; [done |].
  destruct (option_line x) eqn:Ho; [| done].
  apply option_line_nonblank in Ho. congruence.
Qed.

Lemma options_permuted_nonblank (ls ls' : list string) :
  options_permuted ls ls' →
  options_permuted (List.filter nonblank ls) (List.filter nonblank ls').
Proof.
  intros [HF Hperm]. split; [| by rewrite !filter_options_nonblank].
  clear Hperm. induction HF as [|x y ls ls' Hxy _ IH]; [done |].
  cbn [List.filter]. rewrite <- (same_or_options_nonblank _ _ Hxy).
  destruct (nonblank x); [by constructor | done].
Qed.

(** The parser on a text, by the lines between its line feeds. *)
Lemma parse_split (response : string) :
  parse_quiz_question response
  = parse_lines (List.filter nonblank (split LF response)).
Proof.
  rewrite parse_as_lines. unfold response_lines, parse_lines.
  by rewrite scan_strip.
Qed.

(** The inner loop stops at the first line with a section keyword. *)
Lemma collect_stop (absorbed : list string) (l : string) (tail : list string)
    (e : string) :
  Forall (λ x, hits_section (strip x) = false) absorbed →
  hits_section (strip l) = true →
  collect (absorbed ++ l :: tail) e = (append_lines e absorbed, l :: tail).
Proof.
  intros H Hl. revert e. induction H as [|x xs Hx _ IH]; intros e.
  - cbn [app collect]. cbv zeta. by rewrite Hl.
  - cbn [app collect]. cbv zeta. rewrite Hx. apply IH.
Qed.

End OptionOrder.



(** ** Starting a quiz *)

Section StartFacts.
Import Session.

(** What the parser returns is usable as it is: the extra test of the
    start loop only tells a record from [None]. *)
Lemma usable_parse (response : string) :
  usable (parse_quiz_question response)
  = match parse_quiz_question response with Some _ => true | None => false end.
Proof.
  destruct (parse_scan response) as (st & _ & Hsub & _ & Hparse).
  destruct (parse_quiz_question response) as [d|]; [| done].
  symmetry in Hparse. apply validate_Some in Hparse as (-> & Hq & Hsz & _).
  apply (four_keys _ Hsub) in Hsz. cbn.
  apply truthy_true in Hq as ->. cbn. apply negb_true_iff, bool_decide_eq_false.
  intros Hempty. rewrite Hempty, dom_empty_L in Hsz.
  assert ("A" ∈ choice_set) as HA by (by apply elem_of_list_to_set; left).
  rewrite <- Hsz in HA. by apply not_elem_of_empty in HA.
Qed.

Lemma generate_all_succ (reply : nat → string) (n calls0 : nat) :
  generate_all reply (S n) calls0
  = generate_slot reply (generate_all reply n calls0) n.
Proof. unfold generate_all. by rewrite seq_S, fold_left_app. Qed.

(** One slot: one call when the first reply parses, two otherwise, and at
    most one question appended. *)
Lemma generate_slot_cases (reply : nat → string) (g : gen_state) (i : nat) :
  match parse_quiz_question (reply (calls g)),
        parse_quiz_question (reply (calls g + 1)) with
  | Some d, _ =>
      calls (generate_slot reply g i) = calls g + 1
      ∧ generated (generate_slot reply g i) = generated g ++ [d]
      ∧ shown (generate_slot reply g i) = shown g ++ [Generating (i + 1)]
  | None, Some d =>
      calls (generate_slot reply g i) = calls g + 2
      ∧ generated (generate_slot reply g i) = generated g ++ [d]
      ∧ shown (generate_slot reply g i)
        = shown g ++ [Generating (i + 1)] ++ [RetryWarning (i + 1)]
  | None, None =>
      calls (generate_slot reply g i) = calls g + 2
      ∧ generated (generate_slot reply g i) = generated g
      ∧ shown (generate_slot reply g i)
        = shown g ++ [Generating (i + 1)] ++ [RetryWarning (i + 1)]
  end.
Proof.
  unfold generate_slot. cbv zeta. rewrite !usable_parse.
  destruct (parse_quiz_question (reply (calls g))) as [d|]; [done |].
  destruct (parse_quiz_question (reply (calls g + 1))) as [d|]; cbn;
    by rewrite <- app_assoc.
Qed.

Lemma generate_all_bounds (reply : nat → string) (n calls0 : nat) :
  let g := generate_all reply n calls0 in
  (calls0 + n ≤ calls g)%nat ∧ (calls g ≤ calls0 + 2 * n)%nat
  ∧ (length (generated g) ≤ n)%nat
  ∧ calls g = (calls0 + n + (length (List.filter
                (λ e, match e with RetryWarning _ => true | _ => false end)
                (shown g))))%nat
  ∧ ¬ In Error (shown g)
  ∧ Forall (λ d, ∃ k, (calls0 ≤ k < calls g)%nat
                      ∧ parse_quiz_question (reply k) = Some d) (generated g).
Proof.
  induction n as [|n IH]; cbv zeta.
  - cbn. repeat split; try lia; try done.
  - rewrite generate_all_succ.
    set (g := generate_all reply n calls0) in *. cbv zeta in IH.
    destruct IH as (Hlo & Hhi & Hlen & Hretry & Herr & Hfrom).
    pose proof (generate_slot_cases reply g n) as Hslot.
    assert (Forall (λ d, ∃ k, (calls0 ≤ k < calls g + 2)%nat
                        ∧ parse_quiz_question (reply k) = Some d) (generated g))
      as Hfrom2.
    { eapply Forall_impl; [exact Hfrom |]. intros d (k & ? & ?). exists k.
      split; [lia | done]. }
    assert (Forall (λ d, ∃ k, (calls0 ≤ k < calls g + 1)%nat
                        ∧ parse_quiz_question (reply k) = Some d) (generated g))
      as Hfrom1.
    { eapply Forall_impl; [exact Hfrom |]. intros d (k & ? & ?). exists k.
      split; [lia | done]. }
    destruct (parse_quiz_question (reply (calls g))) as [d|] eqn:E1;
      [| destruct (parse_quiz_question (reply (calls g + 1))) as [d|] eqn:E2];
      destruct Hslot as (-> & -> & ->);
      rewrite ?length_app, ?List.filter_app, ?length_app; cbn [length List.filter];
      repeat split; try lia.
    + intros [?|[?|[]]]%in_app_iff; [done | congruence].
    + apply Forall_app. split; [done |]. apply Forall_singleton.
      exists (calls g). split; [lia | done].
    + intros [?|[?|[?|[]]]]%in_app_iff; [done | congruence..].
    + apply Forall_app. split; [done |]. apply Forall_singleton.
      exists (calls g + 1). split; [lia | done].
    + intros [?|[?|[?|[]]]]%in_app_iff; [done | congruence..].
    + done.
Qed.

End StartFacts.

(** C5: starting a quiz.  The start loop fills the requested slots one
    after the other; a slot asks the generator and parses the reply, asks
    and parses once more when the first reply does not parse, and is left
    out when the second reply does not parse either (no third call).  So
    between [n] and [2 n] calls are made, one more than [n] for every retry,
    at most [n] questions are kept, and each of them is the parse of one of
    the replies.  A list that is not empty, however short, starts the quiz
    without an error being shown; an empty list puts the session back to
    Setup and shows the error. *)
Theorem start_quiz_retries_once (reply : nat → string) (n calls0 : nat) :
  let g := Session.generate_all reply n calls0 in
  let st := fst (fst (Session.start_quiz reply n calls0)) in
  let shown_all := snd (fst (Session.start_quiz reply n calls0)) in
  Session.generate_all reply 0 calls0
  = {| Session.calls := calls0; Session.generated := []; Session.shown := [] |}
  ∧ (∀ i, Session.generate_all reply (S i) calls0
          = Session.generate_slot reply (Session.generate_all reply i calls0) i)
  ∧ (∀ g i,
       match parse_quiz_question (reply (Session.calls g)),
             parse_quiz_question (reply (Session.calls g + 1)) with
       | Some d, _ =>
           Session.calls (Session.generate_slot reply g i) = (Session.calls g + 1)%nat
           ∧ Session.generated (Session.generate_slot reply g i)
             = Session.generated g ++ [d]
       | None, Some d =>
           Session.calls (Session.generate_slot reply g i) = (Session.calls g + 2)%nat
           ∧ Session.generated (Session.generate_slot reply g i)
             = Session.generated g ++ [d]
       | None, None =>
           Session.calls (Session.generate_slot reply g i) = (Session.calls g + 2)%nat
           ∧ Session.generated (Session.generate_slot reply g i)
             = Session.generated g
       end)
  ∧ (calls0 + n ≤ Session.calls g)%nat
  ∧ (Session.calls g ≤ calls0 + 2 * n)%nat
  ∧ (length (Session.generated g) ≤ n)%nat
  ∧ Forall (λ d, ∃ k, (calls0 ≤ k < Session.calls g)%nat
                      ∧ parse_quiz_question (reply k) = Some d)
      (Session.generated g)
  ∧ snd (Session.start_quiz reply n calls0) = Session.calls g
  ∧ (Session.generated g = [] →
       Session.phase_of st = Session.Setup
       ∧ In Session.Error shown_all
       ∧ Session.questions st = [])
  ∧ (Session.generated g ≠ [] →
       Session.phase_of st = Session.InProgress
       ∧ ¬ In Session.Error shown_all
       ∧ Session.questions st = Session.generated g
       ∧ Session.current_question_index st = 0
       ∧ Session.score st = 0
       ∧ Session.answered st = false
       ∧ Session.selected_answer st = None
       ∧ Session.total_questions_selected st = n).
Proof.
  intros g st shown_all.
  destruct (generate_all_bounds reply n calls0)
    as (Hlo & Hhi & Hlen & _ & Herr & Hfrom).
  fold g in Hlo, Hhi, Hlen, Herr, Hfrom.
  split; [done |]. split; [intros i; apply generate_all_succ |].
  split.
  { intros g' i. pose proof (generate_slot_cases reply g' i) as H.
    destruct (parse_quiz_question (reply (Session.calls g')));
      [| destruct (parse_quiz_question (reply (Session.calls g' + 1)))];
      by destruct H as (? & ? & _). }
  repeat (split; [done |]).
  subst st shown_all. unfold Session.start_quiz. cbv zeta. fold g.
  destruct (Session.generated g) as [|d ds] eqn:Hg; cbn.
  - split; [done |]. split; [| done].
    intros _. split; [done |]. split; [| done].
    apply in_app_iff. right. by left.
  - split; [done |]. split; [done |]. intros _.
    split; [done |]. split; [| done].
    intros [?|[?|[]]]%in_app_iff; [done | congruence].
Qed.

(** Five questions asked for, the generator failing from the fourth call
    on: three questions after seven calls, and the quiz starts. *)
Example start_three_of_five :
  let result := Session.start_quiz Samples.three_then_errors 5 0 in
  length (Session.questions (fst (fst result))) = 3
  ∧ snd result = 7
  ∧ Session.phase_of (fst (fst result)) = Session.InProgress.
Proof. by vm_compute. Qed.


(** ** The lines the main loop reads *)

Section LoopStates.

(** The scan of the whole reply is the scan from any state the loop
    reaches. *)
Lemma reaches_scan (lines rem : list string) (st0 st : fields) :
  reaches lines st0 rem st → scan lines st0 = scan rem st.
Proof.
  induction 1 as [|line0 rest st st' rest' _ IH Hstep]; [done |].
  by rewrite IH, scan_step, Hstep.
Qed.

Lemma opens_section_hits (l : string) :
  opens_section l = true → hits_section (strip l) = true.
Proof.
  unfold opens_section. rewrite !orb_true_iff. intros [[H|H]|H].
  - unfold hits_section, section_keywords. cbn [existsb]. by rewrite H.
  - by apply starts_option_hits.
  - unfold hits_section, section_keywords. cbn [existsb]. rewrite H.
    by destruct (contains "QUESTION:" _).
Qed.

(** The lines an iteration leaves: all that follow its line, or all but
    the next one (taken as the question text), or all but those appended
    to the explanation. *)
Lemma step_lines (line0 : string) (rest : list string) (st st' : fields)
    (rest' : list string) :
  step line0 rest st = Ret (st', rest') →
  rest' = rest
  ∨ (announces_question line0 = true
     ∧ ∃ next, rest = next :: rest' ∧ st' = set_question st (strip next))
  ∨ (classify (strip line0) = KExplanation
     ∧ ∃ absorbed,
         rest = absorbed ++ rest'
         ∧ Forall (λ l, hits_section (strip l) = false) absorbed).
Proof.
  unfold step, classify, announces_question, item. cbv zeta. intros H.
  destruct (contains "QUESTION:" (upper (strip line0))) eqn:HQ.
  - destruct (contains ":" (strip line0)); [| simplify_eq; by left].
    destruct (split1 ":" (strip line0) !! 1) as [part|]; [| done].
    destruct (truthy (strip part)); [simplify_eq; by left |].
    destruct rest as [|next rest0]; simplify_eq; [by left |].
    right. left. eauto.
  - destruct (starts_option (strip line0)) eqn:HO.
    { destruct (first_upper (strip line0)); simplify_eq. by left. }
    destruct (contains "CORRECT:" (upper (strip line0))) eqn:HC.
    { destruct (split1 ":" (strip line0) !! 1) as [part|]; [| done].
      destruct (first_choice (upper (strip part))); simplify_eq; by left. }
    destruct (contains "EXPLANATION:" (upper (strip line0))) eqn:HE;
      [| simplify_eq; by left].
    destruct (split1 ":" (strip line0) !! 1) as [part|]; [| done].
    destruct (collect_spec rest (if truthy (strip part) then strip part
                                 else f_explanation st))
      as (absorbed & r' & Hrest & Hab & _ & Hcollect).
    rewrite Hcollect in H. cbn [fst snd] in H. simplify_eq.
    right. right. eauto.
Qed.

(** Every line of the reply is read by the main loop, or is the line after
    a QUESTION line with nothing behind its colon that the loop read and
    that took it as the question text, or is one of the lines that an
    EXPLANATION line read by the loop appended to the explanation. *)
Lemma line_read_or_passed_from (lines : list string) (st0 : fields)
    (line0 : string) (rest : list string) (n : nat) :
  ∀ (pre rem : list string) (st : fields),
    (length pre ≤ n)%nat →
    reaches lines st0 rem st →
    rem = pre ++ line0 :: rest →
    (∃ st1, reaches lines st0 (line0 :: rest) st1)
    ∨ (∃ q st1,
         reaches lines st0 (q :: line0 :: rest) st1
         ∧ announces_question q = true
         ∧ step q (line0 :: rest) st1
           = Ret (set_question st1 (strip line0), rest))
    ∨ (∃ l before st1,
         reaches lines st0 (l :: before ++ line0 :: rest) st1
         ∧ classify (strip l) = KExplanation
         ∧ Forall (λ x, hits_section (strip x) = false) (before ++ [line0])).
Proof.
  induction n as [|n IH]; intros pre rem st Hlen Hreach ->.
  { destruct pre; [| cbn in Hlen; lia]. left. eauto. }
  destruct pre as [|p pre]; [left; eauto |].
  cbn [length] in Hlen. cbn [app] in Hreach.
  destruct (step_returns p (pre ++ line0 :: rest) st) as (st' & rest' & Hstep).
  pose proof (reaches_step _ _ _ _ _ _ _ Hreach Hstep) as Hnext.
  destruct (step_lines _ _ _ _ _ Hstep)
    as [->|[(Hk & next & Hrest & ->)|(Hk & absorbed & Hrest & Hab)]].
  - eapply (IH pre); [lia | exact Hnext | reflexivity].
  - destruct pre as [|x pre]; cbn [app] in Hrest.
    + injection Hrest as <- <-. right. left. exists p, st.
      split; [exact Hreach |]. split; [exact Hk | exact Hstep].
    + injection Hrest as <- <-.
      eapply (IH pre); [cbn in Hlen; lia | exact Hnext | reflexivity].
  - apply app_eq_app in Hrest as [l' [[-> ->]|[-> Hl']]].
    + eapply (IH l'); [rewrite length_app in Hlen; lia | exact Hnext | reflexivity].
    + destruct l' as [|x l']; cbn [app] in Hl'.
      * subst rest'. rewrite app_nil_r in *. left. eauto.
      * injection Hl' as <- ->. right. right. exists p, pre, st.
        split; [done |]. split; [done |].
        apply Forall_app in Hab as [Hpre [Hx _]%Forall_cons].
        apply Forall_app. split; [done |]. by apply Forall_singleton.
Qed.

Lemma line_read_or_passed (lines : list string) (st0 : fields)
    (pre : list string) (line0 : string) (rest : list string) :
  lines = pre ++ line0 :: rest →
  (∃ st, reaches lines st0 (line0 :: rest) st)
  ∨ (∃ q st,
       reaches lines st0 (q :: line0 :: rest) st
       ∧ announces_question q = true
       ∧ step q (line0 :: rest) st = Ret (set_question st (strip line0), rest))
  ∨ (∃ l before st,
       reaches lines st0 (l :: before ++ line0 :: rest) st
       ∧ classify (strip l) = KExplanation
       ∧ Forall (λ x, hits_section (strip x) = false) (before ++ [line0])).
Proof.
  intros ->.
  eapply (line_read_or_passed_from _ st0 line0 rest (length pre) pre);
    [done | apply reaches_start | reflexivity].
Qed.

End LoopStates.

(** C7, as the code has it: a line with the CORRECT marker (in any case)
    that the main loop reads and that is not taken by an earlier branch (it
    has no QUESTION marker and does not start with an option prefix) sets
    the correct answer to the first of the letters A, B, C, D in the
    upper-cased, stripped text after the first colon of the line; when that
    text has none of the letters the correct answer is left as it is.
    Nothing else changes and the loop goes on with the next line.  The loop
    reads every such line of the reply but one that stands right after a
    QUESTION line with nothing behind its colon that the loop read: that
    line is taken as the question text.  No explanation appends it. *)
Theorem correct_line_sets_letter (lines : list string) (st0 : fields)
    (line0 : string) (rest : list string) :
  contains "CORRECT:" (upper (strip line0)) = true →
  contains "QUESTION:" (upper (strip line0)) = false →
  starts_option (strip line0) = false →
  ∃ part,
    split1 ":" (strip line0) !! 1 = Some part
    ∧ (∃ before, strip line0 = before +:+ String ":" part
                 ∧ occurs ":" before = false)
    ∧ (∀ c, first_choice (upper (strip part)) = Some c →
         c ∈ choices
         ∧ (∃ pre ch post,
              upper (strip part) = pre +:+ String ch post ∧ c = String ch ""
              ∧ ∀ x, occurs x pre = true → String x "" ∉ choices)
         ∧ ∀ st, reaches lines st0 (line0 :: rest) st →
             step line0 rest st = Ret (set_correct st c, rest)
             ∧ reaches lines st0 rest (set_correct st c)
             ∧ scan lines st0 = scan rest (set_correct st c))
    ∧ (first_choice (upper (strip part)) = None →
       ∀ st, reaches lines st0 (line0 :: rest) st →
         step line0 rest st = Ret (st, rest)
         ∧ reaches lines st0 rest st
         ∧ scan lines st0 = scan rest st)
    ∧ (∀ pre, lines = pre ++ line0 :: rest →
         (∃ st, reaches lines st0 (line0 :: rest) st)
         ∨ (∃ q st,
              reaches lines st0 (q :: line0 :: rest) st
              ∧ announces_question q = true
              ∧ step q (line0 :: rest) st
                = Ret (set_question st (strip line0), rest))).
Proof.
  intros HC HQ HO.
  destruct (marker_has_part "CORRECT:" (strip line0)) as [part Hitem]; [done.. |].
  assert (split1 ":" (strip line0) !! 1 = Some part) as Hpart.
  { unfold item in Hitem. by destruct (split1 ":" (strip line0) !! 1) as [x|];
      [injection Hitem as -> |]. }
  exists part. split; [done |]. split; [by apply split1_first |].
  assert (∀ st, step line0 rest st
                = Ret (match first_choice (upper (strip part)) with
                       | Some c => set_correct st c
                       | None => st
                       end, rest)) as Hstep.
  { intros st. unfold step. cbv zeta. rewrite HQ, HO, HC, Hitem.
    by destruct (first_choice (upper (strip part))). }
  split; [| split].
  - intros c Hc. split; [by eapply first_choice_in |]. split.
    + apply first_choice_spec in Hc as (pre & ch & post & ? & ? & _ & ?).
      by exists pre, ch, post.
    + intros st Hreach. specialize (Hstep st). rewrite Hc in Hstep.
      pose proof (reaches_step _ _ _ _ _ _ _ Hreach Hstep) as Hnext.
      split; [done |]. split; [done |]. by apply reaches_scan.
  - intros Hc st Hreach. specialize (Hstep st). rewrite Hc in Hstep.
    pose proof (reaches_step _ _ _ _ _ _ _ Hreach Hstep) as Hnext.
    split; [done |]. split; [done |]. by apply reaches_scan.
  - intros pre Hlines.
    destruct (line_read_or_passed lines st0 pre line0 rest Hlines)
      as [H|[H|(l & before & st & _ & _ & Hab)]]; [by left | by right |].
    apply Forall_app in Hab as [_ Hl]. apply Forall_inv in Hl.
    assert (hits_section (strip line0) = true) as Hhit.
    { apply opens_section_hits. unfold opens_section. rewrite HC.
      by rewrite orb_true_r. }
    cbv beta in Hl. by rewrite Hhit in Hl.
Qed.

Lemma correct_line_sets_letter_witness :
  scan ["QUESTION: Who spoke the Gita?"; "Correct: (b) is right"] init_fields
  = Ret (set_correct (set_question init_fields "Who spoke the Gita?") "B").
Proof.
  destruct (correct_line_sets_letter
              ["QUESTION: Who spoke the Gita?"; "Correct: (b) is right"]
              init_fields "Correct: (b) is right" [])
    as (part & Hpart & _ & Hsome & _); [by vm_compute.. |].
  vm_compute in Hpart. injection Hpart as <-.
  destruct (Hsome "B") as (_ & _ & Hread); [by vm_compute |].
  destruct (Hread (set_question init_fields "Who spoke the Gita?"))
    as (_ & _ & ->); [| reflexivity].
  eapply reaches_step; [apply reaches_start | reflexivity].
Defined.

(** C7 as written fails.  The line [C) Pick the correct: D] has the
    CORRECT marker and the text after its colon has the letter D, yet the
    scan takes the line as option C and leaves the correct answer alone; in
    a whole reply with that line after [CORRECT: B] the answer stays B.
    And the line [CORRECT: B] right after a QUESTION line with nothing
    behind its colon is taken as the question text: the correct answer
    stays empty. *)
Lemma correct_marker_in_option_line :
  contains "CORRECT:" (upper (strip Samples.option_with_correct_marker)) = true
  ∧ split1 ":" (strip Samples.option_with_correct_marker) !! 1 = Some " D"
  ∧ first_choice (upper (strip " D")) = Some "D"
  ∧ scan [Samples.option_with_correct_marker] init_fields
    = Ret (set_option init_fields "C" "Pick the correct: D")
  ∧ f_correct (set_option init_fields "C" "Pick the correct: D") ≠ "D"
  ∧ (correct <$> parse_quiz_question Samples.reply_with_marker_in_option)
    = Some "B"
  ∧ scan ["QUESTION:"; "CORRECT: B"] init_fields
    = Ret (set_question init_fields "CORRECT: B")
  ∧ f_correct (set_question init_fields "CORRECT: B") ≠ "B".
Proof. repeat split; by vm_compute. Qed.

(** C3, as the code has it: a line with the EXPLANATION marker (in any
    case) that the main loop reads and that is not taken by an earlier
    branch (no QUESTION marker, no option prefix, no CORRECT marker) sets
    the explanation to the stripped text after the first colon of the line
    when that text is not empty, and keeps the explanation it had
    otherwise; it then appends, each after one space, the following lines
    that have none of the section keywords in them, up to a line that
    opens a section (one with the QUESTION or the CORRECT marker, or one
    that begins with an option prefix) or to the end.  The loop goes on at
    that line, so the appended lines are read as nothing else.  The loop
    reads every such line of the reply but one taken as the question text
    right after a QUESTION line with nothing behind its colon, and one
    appended to the explanation of an EXPLANATION line before it. *)
Theorem explanation_line_absorbs (lines : list string) (st0 : fields)
    (line0 : string) (absorbed tail : list string) :
  contains "EXPLANATION:" (upper (strip line0)) = true →
  contains "QUESTION:" (upper (strip line0)) = false →
  starts_option (strip line0) = false →
  contains "CORRECT:" (upper (strip line0)) = false →
  Forall (λ l, hits_section (strip l) = false) absorbed →
  (tail = [] ∨ ∃ l tail', tail = l :: tail' ∧ opens_section l = true) →
  ∃ part,
    split1 ":" (strip line0) !! 1 = Some part
    ∧ (∃ before, strip line0 = before +:+ String ":" part
                 ∧ occurs ":" before = false)
    ∧ (∀ st, reaches lines st0 (line0 :: absorbed ++ tail) st →
         let e := append_lines (if truthy (strip part) then strip part
                                else f_explanation st) absorbed in
         step line0 (absorbed ++ tail) st = Ret (set_explanation st e, tail)
         ∧ reaches lines st0 tail (set_explanation st e)
         ∧ scan lines st0 = scan tail (set_explanation st e))
    ∧ (∀ pre, lines = pre ++ line0 :: absorbed ++ tail →
         (∃ st, reaches lines st0 (line0 :: absorbed ++ tail) st)
         ∨ (∃ q st,
              reaches lines st0 (q :: line0 :: absorbed ++ tail) st
              ∧ announces_question q = true
              ∧ step q (line0 :: absorbed ++ tail) st
                = Ret (set_question st (strip line0), absorbed ++ tail))
         ∨ (∃ l before st,
              reaches lines st0 (l :: before ++ line0 :: absorbed ++ tail) st
              ∧ classify (strip l) = KExplanation
              ∧ Forall (λ x, hits_section (strip x) = false)
                  (before ++ [line0]))).
Proof.
  intros HE HQ HO HC Hab Hstop.
  destruct (marker_has_part "EXPLANATION:" (strip line0)) as [part Hitem];
    [done.. |].
  assert (split1 ":" (strip line0) !! 1 = Some part) as Hpart.
  { unfold item in Hitem. by destruct (split1 ":" (strip line0) !! 1) as [x|];
      [injection Hitem as -> |]. }
  exists part. split; [done |]. split; [by apply split1_first |].
  split; [| intros pre Hlines; by eapply line_read_or_passed].
  intros st Hreach. cbv zeta.
  assert (collect (absorbed ++ tail)
            (if truthy (strip part) then strip part else f_explanation st)
          = (append_lines (if truthy (strip part) then strip part
                           else f_explanation st) absorbed, tail)) as Hcollect.
  { destruct Hstop as [->|(l & tail' & -> & Hl)].
    - rewrite app_nil_r. by apply collect_all.
    - apply collect_stop; [done |]. by apply opens_section_hits. }
  assert (step line0 (absorbed ++ tail) st
          = Ret (set_explanation st
                   (append_lines (if truthy (strip part) then strip part
                                  else f_explanation st) absorbed), tail))
    as Hstep.
  { unfold step. cbv zeta. by rewrite HQ, HO, HC, HE, Hitem, Hcollect. }
  pose proof (reaches_step _ _ _ _ _ _ _ Hreach Hstep) as Hnext.
  split; [done |]. split; [done |]. by apply reaches_scan.
Qed.

Lemma explanation_line_absorbs_witness :
  scan ["QUESTION: Who spoke the Gita?"; "Explanation: Act without attachment";
        "to the fruit,"; "so says Krishna."; "CORRECT: B"; "too late"]
    init_fields
  = scan ["CORRECT: B"; "too late"]
      (set_explanation (set_question init_fields "Who spoke the Gita?")
         "Act without attachment to the fruit, so says Krishna.").
Proof.
  destruct (explanation_line_absorbs
              ["QUESTION: Who spoke the Gita?";
               "Explanation: Act without attachment";
               "to the fruit,"; "so says Krishna."; "CORRECT: B"; "too late"]
              init_fields "Explanation: Act without attachment"
              ["to the fruit,"; "so says Krishna."] ["CORRECT: B"; "too late"])
    as (part & Hpart & _ & Hread & _); [by vm_compute.. | | |].
  - repeat constructor.
  - right. eexists _, _. split; [reflexivity | by vm_compute].
  - vm_compute in Hpart. injection Hpart as <-.
    destruct (Hread (set_question init_fields "Who spoke the Gita?"))
      as (_ & _ & ->); [| reflexivity].
    eapply reaches_step; [apply reaches_start | reflexivity].
Defined.

(** C3 as written fails.  The line
    [EXPLANATION: A is correct: the Gita teaches an even mind] has the
    EXPLANATION marker, but it also has the CORRECT marker and is taken by
    that branch: the explanation stays empty, the line after it is not
    appended, and the parsed reply has an empty explanation.  A line with
    the marker right after a QUESTION line with nothing behind its colon is
    taken as the question text and leaves the explanation empty.  And a
    second EXPLANATION line is appended to the explanation of the first. *)
Lemma explanation_marker_in_correct_line :
  contains "EXPLANATION:" (upper (strip Samples.explanation_with_correct_marker))
    = true
  ∧ split1 ":" (strip Samples.explanation_with_correct_marker) !! 1
    = Some " A is correct: the Gita teaches an even mind"
  ∧ hits_section "in gain and in loss." = false
  ∧ scan [Samples.explanation_with_correct_marker; "in gain and in loss."]
      init_fields
    = Ret (set_correct init_fields "A")
  ∧ f_explanation (set_correct init_fields "A")
    ≠ append_lines "A is correct: the Gita teaches an even mind"
        ["in gain and in loss."]
  ∧ (explanation <$> parse_quiz_question Samples.reply_with_marker_in_explanation)
    = Some ""
  ∧ scan ["QUESTION:"; "EXPLANATION: second"; "more"] init_fields
    = Ret (set_question init_fields "EXPLANATION: second")
  ∧ f_explanation (set_question init_fields "EXPLANATION: second")
    ≠ append_lines "second" ["more"]
  ∧ scan ["EXPLANATION: first"; "EXPLANATION: second"; "more"] init_fields
    = Ret (set_explanation init_fields "first EXPLANATION: second more").
Proof. repeat split; by vm_compute. Qed.

(** * More properties of the code *)

(** ** What a reply must have to be accepted *)

Section Acceptance.
Import ViewKinds.

(** The correct answer is left alone when no line is taken by the CORRECT
    branch. *)
Lemma scan_no_correct_branch (lines : list string) (st st_f : fields) :
  scan lines st = Ret st_f →
  Forall (λ l, classify (strip l) ≠ KCorrect) lines →
  f_correct st_f = f_correct st.
Proof.
  destruct (scan_elim (λ lines st st_f,
    Forall (λ l, classify (strip l) ≠ KCorrect) lines →
    f_correct st_f = f_correct st))
    with (lines := lines) (st := st) as (st_f' & H & HP).
  - done.
  - intros line0 rest s s' rest' s_f Hstep [skipped ->] _ IH Hall.
    apply Forall_cons in Hall as [Hl Hall].
    apply Forall_app in Hall as [_ Hall].
    rewrite (IH Hall).
    by apply step_effect in Hstep as (_ & _ & [->|[Hk _]] & _).
  - intros H'. rewrite H in H'. by injection H' as <-.
Qed.

(** A letter becomes a key only through a line of the option branch that
    starts with it. *)
Lemma scan_key_branch (lines : list string) (st st_f : fields) (key : string) :
  scan lines st = Ret st_f →
  Forall (λ l, ¬ (classify (strip l) = KOption
                  ∧ startswith (strip l) (key +:+ ")") = true)) lines →
  key ∈ dom (f_options st_f) → key ∈ dom (f_options st).
Proof.
  destruct (scan_elim (λ lines st st_f,
    Forall (λ l, ¬ (classify (strip l) = KOption
                    ∧ startswith (strip l) (key +:+ ")") = true)) lines →
    key ∈ dom (f_options st_f) → key ∈ dom (f_options st)))
    with (lines := lines) (st := st) as (st_f' & H & HP).
  - done.
  - intros line0 rest s s' rest' s_f Hstep [skipped ->] _ IH Hall Hin.
    apply Forall_cons in Hall as [Hl Hall].
    apply Forall_app in Hall as [_ Hall].
    specialize (IH Hall Hin).
    apply step_effect in Hstep as (_ & [<-|(Hk & k & _ & Hs & Ho)] & _);
      [done |].
    rewrite Ho, dom_insert in IH.
    apply elem_of_union in IH as [->%elem_of_singleton|]; [| done].
    by destruct Hl.
  - intros H'. rewrite H in H'. by injection H' as <-.
Qed.

Lemma exists_line (P : string → Prop) `{∀ l, Decision (P l)} (lines : list string) :
  ¬ Forall (λ l, ¬ P l) lines → ∃ l, l ∈ lines ∧ P l.
Proof.
  intros Hn. apply not_Forall_Exists in Hn; [| apply _].
  apply Exists_exists in Hn as (l & Hl & HP). exists l. split; [done |].
  by apply dec_stable.
Qed.

(** Two option prefixes at the start of one line are the same prefix. *)
Lemma one_prefix (line k1 k2 : string) :
  k1 ∈ choices → k2 ∈ choices →
  startswith line (k1 +:+ ")") = true → startswith line (k2 +:+ ")") = true →
  k1 = k2.
Proof.
  assert (∀ k, k ∈ choices → ∃ c, k = String c "") as Hone.
  { intros k Hk. unfold choices in Hk.
    repeat (apply elem_of_cons in Hk as [->|Hk]; [by eexists |]).
    by apply elem_of_nil in Hk. }
  intros (c1 & ->)%Hone (c2 & ->)%Hone. unfold startswith.
  destruct line as [|c line]; [done |].
  change (String c1 "" +:+ ")") with (String c1 ")").
  change (String c2 "" +:+ ")") with (String c2 ")").
  cbn [String.prefix].
  destruct (ascii_dec c1 c) as [->|]; [| done].
  destruct (ascii_dec c2 c) as [->|]; done.
Qed.

(** What the scan needs to find for the validation to pass. *)
Lemma accepted_lines (lines : list string) (st : fields) (d : quiz_data) :
  scan lines init_fields = Ret st → validate st = Some d →
  (∃ l, l ∈ lines ∧ classify (strip l) = KQuestion)
  ∧ (∃ l, l ∈ lines ∧ classify (strip l) = KCorrect)
  ∧ (∀ k, k ∈ choices →
       ∃ l, l ∈ lines ∧ classify (strip l) = KOption
            ∧ startswith (strip l) (k +:+ ")") = true).
Proof.
  intros Hscan (-> & Hq & Hsz & Hc)%validate_Some.
  assert (dom (f_options st) ⊆ choice_set) as Hsub.
  { eapply scan_keys; [done |]. cbn. by rewrite dom_empty. }
  apply (four_keys _ Hsub) in Hsz.
  split; [| split].
  - apply (exists_line (λ l, classify (strip l) = KQuestion)).
    intros Hall. apply Hq.
    rewrite (scan_no_question _ _ _ Hscan); [done |].
    eapply Forall_impl; [exact Hall |]. intros l Hl. cbn in Hl.
    unfold classify in Hl. cbv zeta in Hl.
    by destruct (contains "QUESTION:" (upper (strip l))).
  - apply (exists_line (λ l, classify (strip l) = KCorrect)).
    intros Hall. rewrite (scan_no_correct_branch _ _ _ Hscan Hall) in Hc.
    by apply in_list_elem in Hc.
  - intros k Hk.
    apply (exists_line (λ l, classify (strip l) = KOption
                             ∧ startswith (strip l) (k +:+ ")") = true)).
    intros Hall.
    assert (k ∈ dom (f_options st)) as Hin.
    { rewrite Hsz. by apply elem_of_list_to_set. }
    apply (scan_key_branch _ _ _ _ Hscan Hall) in Hin.
    cbn in Hin. by rewrite dom_empty in Hin.
Qed.

End Acceptance.

Lemma accepted_six (response : string) (d : quiz_data) :
  parse_quiz_question response = Some d →
  (∃ l, l ∈ response_lines response ∧ classify l = KQuestion)
  ∧ (∃ l, l ∈ response_lines response ∧ classify l = KCorrect)
  ∧ (∀ k, k ∈ choices →
       ∃ l, l ∈ response_lines response ∧ classify l = KOption
            ∧ startswith l (k +:+ ")") = true)
  ∧ (6 ≤ length (response_lines response))%nat.
Proof.
  intros Hparse.
  destruct (parse_scan response) as (st & Hscan & _ & _ & Hp).
  rewrite Hp in Hparse.
  destruct (accepted_lines _ _ _ Hscan Hparse) as ((lq & Hlq & Kq) & (lc & Hlc & Kc) & Hopt).
  assert (∀ l, l ∈ response_lines response → strip l = l) as Hs.
  { intros l Hl. by destruct (response_lines_stripped _ _ Hl). }
  destruct (Hopt "A") as (la & Hla & Ka & Sa); [by apply in_list_elem |].
  destruct (Hopt "B") as (lb & Hlb & Kb & Sb); [by apply in_list_elem |].
  destruct (Hopt "C") as (l3 & Hl3 & K3 & S3); [by apply in_list_elem |].
  destruct (Hopt "D") as (l4 & Hl4 & K4 & S4); [by apply in_list_elem |].
  rewrite (Hs _ Hlq) in Kq. rewrite (Hs _ Hlc) in Kc.
  split; [by exists lq |]. split; [by exists lc |]. split.
  { intros k Hk. destruct (Hopt k Hk) as (l & Hl & Kl & Sl).
    rewrite (Hs _ Hl) in Kl, Sl. by exists l. }
  assert (∀ k1 k2 l1 l2, k1 ∈ choices → k2 ∈ choices → k1 ≠ k2 →
            startswith (strip l1) (k1 +:+ ")") = true →
            startswith (strip l2) (k2 +:+ ")") = true → l1 ≠ l2) as Hdiff.
  { intros k1 k2 l1 l2 H1 H2 Hne S1 S2 ->. by apply Hne, (one_prefix (strip l2)). }
  assert (NoDup [lq; lc; la; lb; l3; l4]) as Hnd.
  { rewrite (Hs _ Hla) in Ka. rewrite (Hs _ Hlb) in Kb.
    rewrite (Hs _ Hl3) in K3. rewrite (Hs _ Hl4) in K4.
    repeat (apply NoDup_cons; split); try apply NoDup_nil_2;
      rewrite ?elem_of_cons, ?elem_of_nil;
      intros H; repeat destruct H as [H|H]; try done; try congruence.
    all: revert H; eapply Hdiff; [| | | eassumption | eassumption];
      try (by apply in_list_elem); done. }
  change 6 with (length [lq; lc; la; lb; l3; l4]).
  apply submseteq_length, NoDup_submseteq; [done |].
  intros x. rewrite !elem_of_cons, elem_of_nil.
  intros [->|[->|[->|[->|[->|[->|[]]]]]]]; done.
Qed.

(** X1: a reply is accepted only if it has, among its non-blank lines, a
    line taken as the question, a line taken as the correct answer and, for
    each of the four letters, a line taken as that option; these are six
    different lines, so a reply with fewer than six non-blank lines (the
    empty reply among them) is rejected. *)
Theorem accepted_reply_has_six_lines (response : string) (d : quiz_data) :
  parse_quiz_question response = Some d →
  (∃ l, l ∈ response_lines response ∧ classify l = KQuestion)
  ∧ (∃ l, l ∈ response_lines response ∧ classify l = KCorrect)
  ∧ (∀ k, k ∈ choices →
       ∃ l, l ∈ response_lines response ∧ classify l = KOption
            ∧ startswith l (k +:+ ")") = true)
  ∧ (6 ≤ length (response_lines response))%nat.
Proof. apply accepted_six. Qed.

Lemma accepted_reply_has_six_lines_witness :
  (6 ≤ length (response_lines Samples.good_reply))%nat.
Proof.
  assert (∃ d, parse_quiz_question Samples.good_reply = Some d) as [d Hd].
  { vm_compute. by eexists. }
  by destruct (accepted_reply_has_six_lines _ _ Hd) as (_ & _ & _ & ?).
Defined.

(** ** A failing generator *)

Section FailingGenerator.
Import Generator Session.

Lemma one_line_reply (s : string) :
  occurs LF s = false → (length (response_lines s) ≤ 1)%nat.
Proof.
  intros H. unfold response_lines. rewrite split_no_LF by done.
  cbn [List.filter]. destruct (truthy (strip s)); cbn; lia.
Qed.

Lemma failed_rejected (message : string) :
  occurs LF message = false →
  parse_quiz_question (generate_quiz_question (Failed message)) = None.
Proof.
  intros Hm.
  destruct (parse_quiz_question (generate_quiz_question (Failed message)))
    as [d|] eqn:E; [| done].
  apply accepted_six in E as (_ & _ & _ & Hlen).
  assert (occurs LF (generate_quiz_question (Failed message)) = false) as Hno.
  { cbn [generate_quiz_question]. by rewrite occurs_app, Hm. }
  apply one_line_reply in Hno. lia.
Qed.

(** The start loop when no reply is accepted, and when every first reply
    is. *)
Lemma generate_all_rejected (reply : nat → string) (n calls0 : nat) :
  (∀ k, parse_quiz_question (reply k) = None) →
  calls (generate_all reply n calls0) = (calls0 + 2 * n)%nat
  ∧ generated (generate_all reply n calls0) = [].
Proof.
  intros Hnone. induction n as [|n [IHc IHg]]; [cbn; split; [lia | done] |].
  rewrite generate_all_succ.
  pose proof (generate_slot_cases reply (generate_all reply n calls0) n) as H.
  rewrite !Hnone in H. destruct H as (-> & -> & _). split; [lia | done].
Qed.

Lemma generate_all_accepted (reply : nat → string) (n calls0 : nat) :
  (∀ k, (calls0 ≤ k < calls0 + n)%nat → is_Some (parse_quiz_question (reply k))) →
  calls (generate_all reply n calls0) = (calls0 + n)%nat
  ∧ Forall2 (λ k d, parse_quiz_question (reply k) = Some d)
      (seq calls0 n) (generated (generate_all reply n calls0)).
Proof.
  induction n as [|n IH]; intros Hall; [cbn; split; [lia | constructor] |].
  destruct IH as [IHc IHg]; [intros k Hk; apply Hall; lia |].
  rewrite generate_all_succ.
  pose proof (generate_slot_cases reply (generate_all reply n calls0) n) as H.
  rewrite IHc in H.
  destruct (Hall (calls0 + n)%nat) as [d Hd]; [lia |].
  rewrite Hd in H. destruct H as (-> & -> & _). split; [lia |].
  rewrite seq_S. apply Forall2_app; [done |]. by constructor.
Qed.

End FailingGenerator.

(** X2: when the call of the model fails with a one-line message,
    [generate_quiz_question] returns its error text and the parser rejects
    it, so the failure is handled like a reply that does not parse. *)
Theorem failed_call_rejected (message : string) :
  occurs LF message = false →
  parse_quiz_question (Generator.generate_quiz_question (Generator.Failed message))
  = None.
Proof. apply failed_rejected. Qed.

Lemma failed_call_rejected_witness :
  parse_quiz_question
    (Generator.generate_quiz_question (Generator.Failed "connection refused"))
  = None.
Proof. apply failed_call_rejected. by vm_compute. Defined.

(** X3: when no reply is accepted, starting a quiz of [n] questions makes
    exactly [2 n] calls of the generator (each slot is retried once), shows
    the error and leaves the session in Setup with no questions; the number
    asked for stays in [total_questions_selected]. *)
Theorem start_all_rejected (reply : nat → string) (n calls0 : nat) :
  (∀ k, parse_quiz_question (reply k) = None) →
  let result := Session.start_quiz reply n calls0 in
  let st := fst (fst result) in
  snd result = (calls0 + 2 * n)%nat
  ∧ Session.phase_of st = Session.Setup
  ∧ Session.questions st = []
  ∧ Session.total_questions_selected st = n
  ∧ last (snd (fst result)) = Some Session.Error.
Proof.
  intros Hnone result st. subst st result.
  destruct (generate_all_rejected reply n calls0 Hnone) as [Hc Hg].
  unfold Session.start_quiz. cbv zeta. rewrite Hg. cbn.
  rewrite Hc. repeat split. by rewrite last_snoc.
Qed.

Lemma start_all_rejected_witness :
  let reply := λ _ : nat,
    Generator.generate_quiz_question (Generator.Failed "connection refused") in
  snd (Session.start_quiz reply 5 0) = 10
  ∧ Session.phase_of (fst (fst (Session.start_quiz reply 5 0))) = Session.Setup.
Proof.
  intros reply.
  destruct (start_all_rejected reply 5 0) as (Hc & Hp & _).
  { intros k. apply failed_rejected. by vm_compute. }
  by split.
Defined.

(** X4: when the first reply of every slot is accepted, starting a quiz of
    [n > 0] questions makes exactly [n] calls and puts the session in
    progress at the first question with [n] questions, the [i]-th being the
    parse of the [i]-th reply; score 0, nothing answered. *)
Theorem start_all_accepted (reply : nat → string) (n calls0 : nat) :
  (0 < n)%nat →
  (∀ k, (calls0 ≤ k < calls0 + n)%nat → is_Some (parse_quiz_question (reply k))) →
  let result := Session.start_quiz reply n calls0 in
  let st := fst (fst result) in
  snd result = (calls0 + n)%nat
  ∧ Session.phase_of st = Session.InProgress
  ∧ length (Session.questions st) = n
  ∧ Forall2 (λ k d, parse_quiz_question (reply k) = Some d)
      (seq calls0 n) (Session.questions st)
  ∧ Session.current_question_index st = 0
  ∧ Session.score st = 0
  ∧ Session.answered st = false
  ∧ Session.total_questions_selected st = n.
Proof.
  intros Hn Hall result st. subst st result.
  destruct (generate_all_accepted reply n calls0 Hall) as [Hc Hg].
  pose proof (Forall2_length _ _ _ Hg) as Hlen. rewrite length_seq in Hlen.
  unfold Session.start_quiz. cbv zeta.
  destruct (Session.generated (Session.generate_all reply n calls0))
    as [|d ds] eqn:E; [cbn in Hlen; lia |].
  cbn. rewrite Hc. by repeat split.
Qed.

Lemma start_all_accepted_witness :
  let st := fst (fst (Session.start_quiz (λ _, Samples.good_reply) 3 0)) in
  length (Session.questions st) = 3
  ∧ Session.phase_of st = Session.InProgress.
Proof.
  intros st.
  destruct (start_all_accepted (λ _, Samples.good_reply) 3 0)
    as (_ & Hp & Hl & _); [lia | | by split].
  intros k _. vm_compute. by eexists.
Defined.

(** ** The question on the line after the marker, and the prompt's preamble *)

Section NextLine.
Import Template Prompt.

Lemma scan_question_next (l0 next : string) (rest : list string) (st : fields)
    (part : string) :
  contains "QUESTION:" (upper (strip l0)) = true →
  split1 ":" (strip l0) !! 1 = Some part →
  strip part = "" →
  scan (l0 :: next :: rest) st = scan rest (set_question st (strip next))
  ∧ scan [l0] st = Ret st.
Proof.
  intros HQ Hpart Hempty.
  assert (contains ":" (strip l0) = true) as Hc.
  { rewrite contains_colon. apply split1_item. eauto. }
  split; rewrite scan_step; unfold step, item; cbv zeta;
    by rewrite HQ, Hc, Hpart, Hempty.
Qed.

(** The lines of a template after its question line. *)
Lemma scan_template_options (a b c d x : string) (rest : list string)
    (st : fields) :
  tidy a = true → tidy b = true → tidy c = true → tidy d = true →
  option_text_plain a = true → option_text_plain b = true →
  option_text_plain c = true → option_text_plain d = true →
  in_list x choices = true →
  scan (("A) " +:+ a) :: ("B) " +:+ b) :: ("C) " +:+ c) :: ("D) " +:+ d)
        :: ("CORRECT: " +:+ x) :: rest) st
  = scan rest
      (set_correct
         (set_option (set_option (set_option (set_option st "A" a) "B" b) "C" c)
            "D" d) x).
Proof.
  intros Ha Hb Hc Hd Pa Pb Pc Pd Hx.
  rewrite scan_step.
  rewrite (step_option_line "A" a) by (cbn; tauto || done).
  rewrite scan_step.
  rewrite (step_option_line "B" b) by (cbn; tauto || done).
  rewrite scan_step.
  rewrite (step_option_line "C" c) by (cbn; tauto || done).
  rewrite scan_step.
  rewrite (step_option_line "D" d) by (cbn; tauto || done).
  by rewrite scan_step, step_correct_line.
Qed.

Lemma template_lines_no_LF (q a b c d x e : string) (conts : list string) :
  template_shape q a b c d x e conts = true →
  Forall (λ l, occurs LF l = false) (template_lines q a b c d x e conts)
  ∧ List.filter nonblank (template_lines q a b c d x e conts)
    = template_lines q a b c d x e conts.
Proof.
  unfold template_shape. rewrite !andb_true_iff.
  intros ((((((((Hq & Hqn) & Ha) & Hb) & Hc) & Hd) & Hx) & He) & Hconts).
  apply forallb_Forall_tidy in Hconts.
  apply tidy_spec in Hq as [HqL _], Ha as [HaL _], Hb as [HbL _],
    Hc as [HcL _], Hd as [HdL _], He as [HeL _].
  assert (occurs LF x = false) as HxL.
  { apply in_list_elem in Hx. unfold choices in Hx.
    repeat (apply elem_of_cons in Hx as [->|Hx]; [done |]).
    by apply elem_of_nil in Hx. }
  unfold template_lines. split.
  - apply Forall_app. split.
    + repeat (apply Forall_cons; split;
              [rewrite occurs_app; cbn [occurs];
               by rewrite ?HqL, ?HaL, ?HbL, ?HcL, ?HdL, ?HxL, ?HeL |]).
      apply Forall_nil_2.
    + eapply Forall_impl; [exact Hconts |]. by intros l (? & _).
  - rewrite List.filter_app, (filter_nonblank_id conts) by done.
    cbn [List.filter]. by rewrite !nonblank_marker.
Qed.

End NextLine.

Section QuestionFrame.

(** An iteration does the same to two sets of locals that differ in the
    question only: it leaves the same lines, and either gives both the
    same question or leaves each its own. *)
Lemma step_frame (l : string) (rest : list string) (s1 s2 s1' s2' : fields)
    (r1 r2 : list string) :
  agree_but_question s1 s2 →
  step l rest s1 = Ret (s1', r1) →
  step l rest s2 = Ret (s2', r2) →
  r1 = r2 ∧ agree_but_question s1' s2'
  ∧ (f_question s1' = f_question s2'
     ∨ f_question s1' = f_question s1 ∧ f_question s2' = f_question s2).
Proof.
  intros (Ho & Hc & He). unfold step. cbv zeta. rewrite He.
  unfold agree_but_question.
  destruct (contains "QUESTION:" (upper (strip l))).
  - destruct (contains ":" (strip l)); [| intros; simplify_eq; auto 6].
    destruct (item (split1 ":" (strip l)) 1) as [part|]; [| done].
    destruct (truthy (strip part)); [intros; simplify_eq; cbn; auto 6 |].
    destruct rest as [|next rest0]; intros; simplify_eq; cbn; auto 6.
  - destruct (starts_option (strip l)).
    { destruct (first_upper (strip l)); [| done].
      intros; simplify_eq; cbn. rewrite Ho. auto 6. }
    destruct (contains "CORRECT:" (upper (strip l))).
    { destruct (item (split1 ":" (strip l)) 1) as [part|]; [| done].
      destruct (first_choice (upper (strip part)));
        intros; simplify_eq; cbn; auto 6. }
    destruct (contains "EXPLANATION:" (upper (strip l)));
      [| intros; simplify_eq; auto 6].
    destruct (item (split1 ":" (strip l)) 1) as [part|]; [| done].
    intros; simplify_eq; cbn; auto 6.
Qed.

(** So do two whole scans. *)
Lemma scan_frame (n : nat) :
  ∀ (lines : list string) (s1 s2 : fields),
    (length lines ≤ n)%nat →
    agree_but_question s1 s2 →
    ∃ f f',
      scan lines s1 = Ret f ∧ scan lines s2 = Ret f'
      ∧ agree_but_question f f'
      ∧ (f_question f = f_question f'
         ∨ f_question f = f_question s1 ∧ f_question f' = f_question s2).
Proof.
  induction n as [|n IH]; intros lines s1 s2 Hlen HR.
  { destruct lines; [| cbn in Hlen; lia]. exists s1, s2.
    split; [done |]. split; [done |]. split; [done |]. by right. }
  destruct lines as [|l rest].
  { exists s1, s2. split; [done |]. split; [done |]. split; [done |]. by right. }
  cbn [length] in Hlen.
  destruct (step_returns l rest s1) as (s1' & r1 & H1).
  destruct (step_returns l rest s2) as (s2' & r2 & H2).
  destruct (step_frame _ _ _ _ _ _ _ _ HR H1 H2) as (<- & HR' & Hq).
  pose proof (step_suffix _ _ _ _ _ H1) as Hsuf%suffix_length.
  destruct (IH r1 s1' s2') as (f & f' & Hf & Hf' & HRf & Hqf); [lia | done |].
  exists f, f'. rewrite !scan_step, H1, H2.
  split; [done |]. split; [done |]. split; [done |].
  destruct Hqf as [?|[-> ->]]; [by left |]. exact Hq.
Qed.

End QuestionFrame.

(** X5: the line after a QUESTION line with nothing behind its colon, when
    the main loop reads that QUESTION line, is taken as the question text
    and as nothing else.  The loop goes on after it; and whatever text
    stands on that line, the scan ends with the same options, the same
    correct answer and the same explanation, and two texts give the same
    question too unless each scan ends with its own text as the
    question. *)
Theorem question_on_next_line (lines : list string) (st0 : fields)
    (l0 next : string) (rest : list string) (st : fields) (part : string) :
  reaches lines st0 (l0 :: next :: rest) st →
  contains "QUESTION:" (upper (strip l0)) = true →
  split1 ":" (strip l0) !! 1 = Some part →
  strip part = "" →
  reaches lines st0 rest (set_question st (strip next))
  ∧ scan lines st0 = scan rest (set_question st (strip next))
  ∧ ∀ other, ∃ f f',
      scan (l0 :: next :: rest) st = Ret f
      ∧ scan (l0 :: other :: rest) st = Ret f'
      ∧ f_options f = f_options f' ∧ f_correct f = f_correct f'
      ∧ f_explanation f = f_explanation f'
      ∧ (f_question f = f_question f'
         ∨ f_question f = strip next ∧ f_question f' = strip other).
Proof.
  intros Hreach HQ Hpart Hempty.
  assert (∀ x, step l0 (x :: rest) st = Ret (set_question st (strip x), rest))
    as Hstep.
  { intros x.
    assert (contains ":" (strip l0) = true) as Hc.
    { rewrite contains_colon. apply split1_item. eauto. }
    unfold step, item. cbv zeta. by rewrite HQ, Hc, Hpart, Hempty. }
  pose proof (reaches_step _ _ _ _ _ _ _ Hreach (Hstep next)) as Hnext.
  split; [done |]. split; [by apply reaches_scan |].
  intros other.
  destruct (scan_frame (length rest) rest (set_question st (strip next))
              (set_question st (strip other)))
    as (f & f' & Hf & Hf' & (Ho & Hc & He) & Hq); [done | done |].
  exists f, f'. rewrite !scan_step, !Hstep. by repeat split.
Qed.

Lemma question_on_next_line_witness :
  scan ["QUESTION: first"; "Question:"; "A) Forgive"; "B) Fight"] init_fields
  = scan ["B) Fight"] (set_question init_fields "A) Forgive")
  ∧ ∃ f f',
      scan ["Question:"; "A) Forgive"; "B) Fight"]
        (set_question init_fields "first") = Ret f
      ∧ scan ["Question:"; "CORRECT: C"; "B) Fight"]
          (set_question init_fields "first") = Ret f'
      ∧ f_options f = f_options f' ∧ f_correct f = f_correct f'.
Proof.
  destruct (question_on_next_line
              ["QUESTION: first"; "Question:"; "A) Forgive"; "B) Fight"]
              init_fields "Question:" "A) Forgive" ["B) Fight"]
              (set_question init_fields "first") "")
    as (_ & Hscan & Hframe); [| by vm_compute.. |].
  { eapply reaches_step; [apply reaches_start | reflexivity]. }
  split; [by rewrite Hscan |].
  destruct (Hframe "CORRECT: C") as (f & f' & Hf & Hf' & Ho & Hc & _).
  exists f, f'. by repeat split.
Defined.

(** X6: a reply that starts with the line the prompt asks for,
    [Hare Krishna! Here's your question:], and goes on with an unambiguous
    template is accepted, but that first line has the QUESTION marker and
    nothing behind it: the question of the record is the whole next line,
    marker included, and the other fields are those of the template. *)
Theorem preamble_takes_question_line (q a b c d x e : string)
    (conts : list string) :
  Template.template_shape q a b c d x e conts = true →
  Template.unambiguous a b c d e conts = true →
  parse_quiz_question (Prompt.reply_with_preamble q a b c d x e conts)
  = Some {| question := "QUESTION: " +:+ q;
            options := {[ "A" := a; "B" := b; "C" := c; "D" := d ]};
            correct := x;
            explanation := Template.join_explanation e conts |}.
Proof.
  intros Hshape Hun.
  destruct (template_lines_no_LF _ _ _ _ _ _ _ _ Hshape) as [HLF Hnb].
  revert Hshape Hun.
  unfold Template.template_shape, Template.unambiguous.
  rewrite !andb_true_iff.
  intros ((((((((Hq & Hqn) & Ha) & Hb) & Hc) & Hd) & Hx) & He) & Hconts).
  intros ((((((Pa & Pb) & Pc) & Pd) & EQ) & EC) & Hfree).
  apply forallb_Forall_tidy in Hconts.
  assert (Forall (λ l, hits_section (strip l) = false) conts) as Hnohit.
  { rewrite forallb_forall in Hfree. rewrite Forall_forall in Hconts |- *.
    intros l Hl. destruct (Hconts l Hl) as (_ & -> & _).
    apply list_elem_of_In, Hfree, negb_true_iff in Hl. done. }
  unfold Prompt.reply_with_preamble. rewrite parse_unlines; [| done |].
  2:{ by apply Forall_cons. }
  cbn [List.filter].
  assert (nonblank Prompt.preamble = true) as -> by done.
  rewrite Hnb. unfold Template.template_lines, parse_lines. cbn [app].
  destruct (scan_question_next Prompt.preamble ("QUESTION: " +:+ q)
              (("A) " +:+ a) :: ("B) " +:+ b) :: ("C) " +:+ c) :: ("D) " +:+ d)
               :: ("CORRECT: " +:+ x) :: ("EXPLANATION: " +:+ e) :: conts)
              init_fields "") as [-> _]; [by vm_compute.. |].
  pose proof Hq as [_ Hqs]%tidy_spec.
  rewrite strip_marker_field by done. rewrite Hqn.
  rewrite scan_template_options by done.
  rewrite scan_step, step_explanation_line by done.
  rewrite collect_all by done. cbn [fst snd]. rewrite scan_nil.
  unfold validate. cbn [f_question f_options f_correct f_explanation
    set_explanation set_correct set_option set_question init_fields truthy].
  rewrite Hx. cbn [negb].
  by rewrite options_in_order, append_lines_join.
Qed.

Lemma preamble_takes_question_line_witness :
  (question <$> parse_quiz_question
     (Prompt.reply_with_preamble Samples.toy_question Samples.toy_a
        Samples.toy_b Samples.toy_c Samples.toy_d "A" Samples.toy_explanation
        ["in gain and in loss."]))
  = Some "QUESTION: Your friend breaks your toy. What would Krishna advise?".
Proof.
  rewrite (preamble_takes_question_line Samples.toy_question Samples.toy_a
             Samples.toy_b Samples.toy_c Samples.toy_d "A"
             Samples.toy_explanation ["in gain and in loss."]);
    by vm_compute.
Defined.

(** X7: the explanation is optional.  A template that stops after its
    CORRECT line is accepted, with an empty explanation. *)
Theorem explanation_is_optional (q a b c d x : string) :
  Template.template_shape q a b c d x "" [] = true →
  Template.unambiguous a b c d "" [] = true →
  parse_quiz_question (Prompt.reply_without_explanation q a b c d x)
  = Some {| question := q;
            options := {[ "A" := a; "B" := b; "C" := c; "D" := d ]};
            correct := x;
            explanation := "" |}.
Proof.
  unfold Template.template_shape, Template.unambiguous.
  rewrite !andb_true_iff.
  intros ((((((((Hq & Hqn) & Ha) & Hb) & Hc) & Hd) & Hx) & _) & _).
  intros ((((((Pa & Pb) & Pc) & Pd) & _) & _) & _).
  pose proof Hq as [HqL _]%tidy_spec. pose proof Ha as [HaL _]%tidy_spec.
  pose proof Hb as [HbL _]%tidy_spec. pose proof Hc as [HcL _]%tidy_spec.
  pose proof Hd as [HdL _]%tidy_spec.
  assert (occurs LF x = false) as HxL.
  { apply in_list_elem in Hx. unfold choices in Hx.
    repeat (apply elem_of_cons in Hx as [->|Hx]; [done |]).
    by apply elem_of_nil in Hx. }
  unfold Prompt.reply_without_explanation. rewrite parse_unlines; [| done |].
  2:{ repeat (apply Forall_cons; split;
              [rewrite occurs_app; cbn [occurs];
               by rewrite ?HqL, ?HaL, ?HbL, ?HcL, ?HdL, ?HxL |]).
      apply Forall_nil_2. }
  cbn [List.filter]. rewrite !nonblank_marker by done.
  unfold parse_lines.
  rewrite scan_step, step_question_line by done.
  rewrite scan_template_options by done. rewrite scan_nil.
  unfold validate. cbn [f_question f_options f_correct f_explanation
    set_explanation set_correct set_option set_question init_fields].
  rewrite Hqn, Hx. cbn [negb]. by rewrite options_in_order.
Qed.

Lemma explanation_is_optional_witness :
  (explanation <$> parse_quiz_question
     (Prompt.reply_without_explanation Samples.toy_question Samples.toy_a
        Samples.toy_b Samples.toy_c Samples.toy_d "A"))
  = Some "".
Proof.
  rewrite (explanation_is_optional Samples.toy_question Samples.toy_a
             Samples.toy_b Samples.toy_c Samples.toy_d "A"); by vm_compute.
Defined.

(** ** The session on the page *)

Section PageFacts.
Import Session Page.

(** What the parser returns is a valid question. *)
Lemma parse_valid (response : string) (d : quiz_data) :
  parse_quiz_question response = Some d → valid_question d.
Proof.
  destruct (parse_scan response) as (st & _ & Hsub & _ & ->).
  intros (-> & Hq & Hsz & Hc)%validate_Some.
  apply (four_keys _ Hsub) in Hsz. by repeat split.
Qed.

Lemma initial_ok : session_ok initial_state.
Proof. split; cbn; try done; try lia. Qed.

Lemma count_positive (c : count_choice) : (0 < count_of c)%nat.
Proof. destruct c; cbn; lia. Qed.

Lemma start_ok (reply : nat → string) (n calls0 : nat) :
  (0 < n)%nat → session_ok (fst (fst (start_quiz reply n calls0))).
Proof.
  intros Hn.
  destruct (generate_all_bounds reply n calls0) as (_ & _ & Hlen & _ & _ & Hfrom).
  cbv zeta in Hlen, Hfrom. unfold start_quiz. cbv zeta.
  destruct (generated (generate_all reply n calls0)) as [|d ds] eqn:E; cbn.
  - split; cbn; try done; lia.
  - split; cbn; try done; try lia.
    eapply Forall_impl; [exact Hfrom |].
    intros x (k & _ & Hk). by eapply parse_valid.
Qed.

Lemma submit_ok (st : quiz_state) (selected : option string) :
  session_ok st → session_ok (submit_answer st selected).
Proof.
  intros H. unfold submit_answer.
  destruct (quiz_started st) eqn:Hs, (quiz_completed st) eqn:Hc; cbn [andb negb];
    try done.
  destruct (questions st !! current_question_index st) as [q|] eqn:Hq; [| done].
  destruct (answered st) eqn:Ha; cbn [negb]; [done |].
  destruct selected as [[|c label]|]; [done | | done].
  destruct H. rewrite Ha in *.
  split; cbn -[String.eqb]; rewrite ?Hs, ?Hc; try done; auto.
  destruct (String.eqb _ _); lia.
Qed.

Lemma next_ok (st : quiz_state) : session_ok st → session_ok (next_question st).
Proof.
  intros H. unfold next_question.
  destruct (quiz_started st && negb (quiz_completed st)
            && (current_question_index st <? length (questions st))%nat
            && answered st
            && (current_question_index st + 1 <? length (questions st))%nat)
    eqn:G; [| done].
  apply andb_true_iff in G as [G Hnext%Nat.ltb_lt].
  apply andb_true_iff in G as [G Ha].
  apply andb_true_iff in G as [G Hi%Nat.ltb_lt].
  apply andb_true_iff in G as [Hs Hc%negb_true_iff].
  destruct H. rewrite Ha in *.
  split; cbn; rewrite ?Hs, ?Hc; try done; auto. lia.
Qed.

Lemma finish_ok (st : quiz_state) : session_ok st → session_ok (finish_quiz st).
Proof.
  intros H. unfold finish_quiz.
  destruct (quiz_started st && negb (quiz_completed st)
            && (current_question_index st <? length (questions st))%nat
            && answered st
            && negb (current_question_index st + 1 <? length (questions st))%nat)
    eqn:G; [| done].
  apply andb_true_iff in G as [G Hlast%negb_true_iff].
  apply andb_true_iff in G as [G Ha].
  apply andb_true_iff in G as [G Hi%Nat.ltb_lt].
  apply andb_true_iff in G as [Hs Hc%negb_true_iff].
  apply Nat.ltb_ge in Hlast.
  destruct H.
  split; cbn; rewrite ?Hs, ?Hc; try done; auto.
  intros _. repeat split; [done | lia].
Qed.

Lemma restart_ok (st : quiz_state) : session_ok st → session_ok (restart_quiz st).
Proof.
  intros H. unfold restart_quiz. destruct (phase_of st); try done.
  apply initial_ok.
Qed.

Lemma act_ok (reply : nat → string) (st : quiz_state) (calls : nat) (a : action) :
  session_ok st → session_ok (fst (act reply (st, calls) a)).
Proof.
  intros H. destruct a; cbn [act fst].
  - destruct (phase_of st); [| done..]. cbn [fst].
    apply start_ok, count_positive.
  - by apply submit_ok.
  - by apply next_ok.
  - by apply finish_ok.
  - by apply restart_ok.
Qed.

Lemma fold_act_ok (reply : nat → string) (acts : list action)
    (s : quiz_state * nat) :
  session_ok (fst s) → session_ok (fst (fold_left (act reply) acts s)).
Proof.
  revert s. induction acts as [|a acts IH]; intros [st c] H; [done |].
  cbn [fold_left]. apply IH.
  destruct (act reply (st, c) a) as [st' c'] eqn:E.
  change st' with (fst (st', c')). rewrite <- E. by apply act_ok.
Qed.

(** The score never exceeds the number of questions. *)
Lemma score_le_questions (st : quiz_state) :
  session_ok st → (score st ≤ length (questions st))%nat.
Proof.
  intros []. destruct (quiz_started st) eqn:Hs.
  - specialize (ok_index0 eq_refl). destruct (answered st); lia.
  - rewrite ok_idle0 by done. lia.
Qed.

(** The number asked for is always one the select box offers, and the
    score never exceeds it: every session the page can reach meets what the
    floating-point percentage was checked under. *)
Lemma act_total (reply : nat → string) (st : quiz_state) (calls : nat)
    (a : action) :
  (∃ c, total_questions_selected st = count_of c) →
  ∃ c, total_questions_selected (fst (act reply (st, calls) a)) = count_of c.
Proof.
  intros H. destruct a as [c|selected| | |]; cbn [act fst].
  - destruct (phase_of st); [| done..]. cbn [fst]. exists c.
    unfold start_quiz. cbv zeta.
    by destruct (generated (generate_all reply (count_of c) calls)).
  - unfold submit_answer. by repeat case_match.
  - unfold next_question. by case_match.
  - unfold finish_quiz. by case_match.
  - unfold restart_quiz. case_match; try done. by exists Five.
Qed.

Lemma reachable_total (reply : nat → string) (acts : list action) :
  ∃ c, total_questions_selected (fst (run_page reply acts)) = count_of c
       ∧ (score (fst (run_page reply acts))
          ≤ total_questions_selected (fst (run_page reply acts)))%nat.
Proof.
  assert (∀ s, (∃ c, total_questions_selected (fst s) = count_of c) →
               ∃ c, total_questions_selected
                      (fst (fold_left (act reply) acts s)) = count_of c) as H.
  { induction acts as [|a acts IH]; intros [st calls] Hs; [done |].
    cbn [fold_left]. apply IH.
    destruct (act reply (st, calls) a) as [st' calls'] eqn:E.
    change st' with (fst (st', calls')). rewrite <- E. by apply act_total. }
  destruct (H (initial_state, 0)) as [c Hc]; [by exists Five |].
  exists c. split; [exact Hc |].
  pose proof (fold_act_ok reply acts (initial_state, 0) initial_ok) as Hok.
  pose proof (score_le_questions _ Hok) as Hs.
  pose proof (ok_generated _ Hok). unfold run_page. lia.
Qed.

End PageFacts.

(** X8: whatever the user does on the quiz page and whatever the model
    replies, the session keeps its shape: at most as many questions as were
    asked for, a positive number asked for, the index inside the list while
    the quiz is started, the score at most the number of questions answered
    so far, the quiz completed only on its last question once answered, an
    answer selected exactly when the question is answered, and only
    questions in the list that passed the parser's validation. *)
Theorem session_invariant (reply : nat → string) (acts : list Page.action) :
  Page.session_ok (fst (Page.run_page reply acts)).
Proof. apply fold_act_ok, initial_ok. Qed.


(** X10: an answer is scored once.  However often the submit button is
    pressed on a question, the score grows by at most one, and once the
    question is answered further presses change nothing. *)
Theorem submit_scores_once (st : Session.quiz_state)
    (selections : list (option string)) :
  (Session.score (fold_left Session.submit_answer selections st)
   ≤ Session.score st + 1)%nat
  ∧ (Session.answered st = true →
     fold_left Session.submit_answer selections st = st).
Proof.
  assert (∀ sels st, Session.answered st = true →
            fold_left Session.submit_answer sels st = st) as Hfixed.
  { clear. induction sels as [|sel sels IH]; intros st Ha; [done |].
    cbn [fold_left].
    assert (Session.submit_answer st sel = st) as ->; [| by apply IH].
    unfold Session.submit_answer. rewrite Ha. cbn [negb].
    by repeat case_match. }
  split; [| apply Hfixed].
  revert st. induction selections as [|sel sels IH]; intros st; [cbn; lia |].
  cbn [fold_left]. unfold Session.submit_answer at 2.
  destruct (Session.quiz_started st && negb (Session.quiz_completed st));
    [| apply IH].
  destruct (Session.questions st !! Session.current_question_index st);
    [| apply IH].
  destruct (negb (Session.answered st)); [| apply IH].
  destruct sel as [[|c label]|]; [apply IH | | apply IH].
  rewrite Hfixed by done. cbn -[String.eqb]. destruct (String.eqb _ _); lia.
Qed.

(** X11: the results page is final.  Once the quiz is completed, starting,
    submitting, going on and finishing change nothing; only "Take Another
    Quiz" does, and it puts back the session the page starts with. *)
Theorem completed_is_final (reply : nat → string) (st : Session.quiz_state)
    (calls : nat) (acts : list Page.action) :
  Session.phase_of st = Session.Completed →
  (Forall (λ a, a ≠ Page.Restart) acts →
   fold_left (Page.act reply) acts (st, calls) = (st, calls))
  ∧ Page.act reply (st, calls) Page.Restart = (Session.initial_state, calls).
Proof.
  intros Hphase. split.
  - induction 1 as [|a acts Ha _ IH]; [done |]. cbn [fold_left].
    assert (Page.act reply (st, calls) a = (st, calls)) as ->; [| done].
    unfold Session.phase_of in Hphase.
    destruct a; cbn [Page.act]; try done.
    + unfold Session.phase_of.
      by destruct (Session.quiz_started st), (Session.quiz_completed st).
    + unfold Session.submit_answer.
      by destruct (Session.quiz_started st), (Session.quiz_completed st).
    + unfold Session.next_question.
      by destruct (Session.quiz_started st), (Session.quiz_completed st).
    + unfold Session.finish_quiz.
      by destruct (Session.quiz_started st), (Session.quiz_completed st).
  - cbn [Page.act]. unfold Page.restart_quiz. by rewrite Hphase.
Qed.

Lemma completed_is_final_witness :
  fold_left (Page.act Samples.three_then_errors)
    [Page.Submit (Some "A) again"); Page.Next; Page.Start Page.Ten; Page.Finish]
    (Samples.finished_3_of_5, 7)
  = (Samples.finished_3_of_5, 7).
Proof.
  destruct (completed_is_final Samples.three_then_errors
              Samples.finished_3_of_5 7
              [Page.Submit (Some "A) again"); Page.Next; Page.Start Page.Ten;
               Page.Finish]) as [H _]; [by vm_compute |].
  apply H. by repeat constructor.
Defined.

(** ** The grade of the results page *)

Section Grades.
Import Session Page.

Lemma grades_checked :
  forallb (λ c, forallb (grades_agree (count_of c)) (seq 0 (S (count_of c))))
    count_choices = true.
Proof. by vm_compute. Qed.

End Grades.

(** X12: for every quiz length the page offers and every score up to it,
    the grade and the banner that the results page works out from the
    floating-point percentage are those of the exact percentage; the two
    chains of comparisons agree (Excellent with the success banner, and so
    on); and the grade is Excellent from four fifths of the total, Good
    from three fifths, Fair from two fifths. *)
Theorem grade_is_exact (st : Session.quiz_state) (c : Page.count_choice) :
  Session.total_questions_selected st = Page.count_of c →
  (Session.score st ≤ Session.total_questions_selected st)%nat →
  ∃ p f,
    Session.percentage st = Some p
    ∧ Session.percentage_float st = Some f
    ∧ Page.grade_float f = Page.grade_of p
    ∧ Page.banner_float f = Page.banner_of p
    ∧ Page.grade_of p
      = Page.grade_by_count (Session.score st) (Session.total_questions_selected st)
    ∧ Page.banner_of p = Page.banner_for (Page.grade_of p).
Proof.
  intros Htotal Hscore.
  pose proof grades_checked as Hall.
  rewrite forallb_forall in Hall.
  assert (In c Page.count_choices) as Hc by (destruct c; cbn; tauto).
  specialize (Hall c Hc). rewrite forallb_forall in Hall.
  specialize (Hall (Session.score st)).
  rewrite in_seq in Hall.
  assert (Page.grades_agree (Page.count_of c) (Session.score st) = true) as Hok.
  { apply Hall. lia. }
  clear Hall. unfold Page.grades_agree in Hok. cbv zeta in Hok.
  unfold Session.percentage, Session.percentage_float in *.
  cbn [Session.total_questions_selected Session.score] in Hok.
  rewrite Htotal.
  destruct (Page.count_of c =? 0)%nat; [done |].
  eexists _, _. split; [done |]. split; [done |].
  repeat (apply andb_true_iff in Hok as [Hok ?%bool_decide_eq_true]).
  apply bool_decide_eq_true in Hok. done.
Qed.

Lemma grade_is_exact_witness :
  ∃ p f,
    Session.percentage Samples.finished_3_of_5 = Some p
    ∧ Session.percentage_float Samples.finished_3_of_5 = Some f
    ∧ Page.grade_float f = Page.Good
    ∧ Page.grade_of p = Page.Good.
Proof.
  destruct (grade_is_exact Samples.finished_3_of_5 Page.Five)
    as (p & f & Hp & Hf & Hgf & _ & Hg & _); [by vm_compute | vm_compute; lia |].
  exists p, f. split; [exact Hp |]. split; [exact Hf |].
  rewrite Hgf, Hg. split; vm_compute; reflexivity.
Defined.

(** ** The chat page *)

Section ChatFacts.
Import Chatbot Chat.

Lemma salutation_keeps_retrieve (s : string) :
  contains "retrieve" ("Hare Krishna! " +:+ s) = contains "retrieve" s.
Proof. reflexivity. Qed.

Lemma salutation_keeps_brace (s : string) :
  contains "{" ("Hare Krishna! " +:+ s) = contains "{" s.
Proof. reflexivity. Qed.

Lemma ensure_salutation_starts (s : string) :
  startswith (ensure_salutation s) "Hare Krishna" = true.
Proof.
  unfold ensure_salutation.
  destruct (startswith s "Hare Krishna") eqn:E; cbn [negb]; [done |].
  unfold startswith.
  change ("Hare Krishna! " +:+ s) with ("Hare Krishna" +:+ ("! " +:+ s)).
  apply prefix_app.
Qed.

Lemma ensure_salutation_fixed (s : string) :
  startswith s "Hare Krishna" = true → ensure_salutation s = s.
Proof. intros E. unfold ensure_salutation. by rewrite E. Qed.

Lemma ensure_salutation_artifacts (s : string) :
  contains "retrieve" (ensure_salutation s) = contains "retrieve" s
  ∧ contains "{" (ensure_salutation s) = contains "{" s.
Proof.
  unfold ensure_salutation. destruct (negb _); [| done].
  by rewrite salutation_keeps_retrieve, salutation_keeps_brace.
Qed.

Lemma fallback_clean :
  contains "retrieve" fallback = false ∧ contains "{" fallback = false
  ∧ startswith fallback "Hare Krishna" = true.
Proof. by vm_compute. Qed.

Lemma postprocess_artifacts (s : string) :
  contains "retrieve" (postprocess s) && contains "{" (postprocess s) = false.
Proof.
  unfold postprocess.
  destruct (ensure_salutation_artifacts (clean_artifacts s)) as [-> ->].
  unfold clean_artifacts.
  destruct (contains "retrieve" s && contains "{" s) eqn:E; [| done].
  by destruct fallback_clean as (-> & _ & _).
Qed.

Lemma respond_starts (r : agent_result) :
  startswith (respond r) "Hare Krishna" = true.
Proof.
  destruct r as [output|message]; cbn [respond].
  - apply ensure_salutation_starts.
  - unfold error_msg, startswith.
    change ("Hare Krishna! I apologize, but I encountered an error: " +:+ message)
      with ("Hare Krishna"
            +:+ ("! I apologize, but I encountered an error: " +:+ message)).
    apply prefix_app.
Qed.

Lemma chat_act_salutes (msgs : list message) (a : chat_action) :
  Forall salutes msgs → Forall salutes (chat_act msgs a).
Proof.
  intros H. destruct a as [q r|]; cbn [chat_act].
  - unfold ask. destruct (truthy q); [| done].
    apply Forall_app. split; [apply Forall_app; split; [done |] |].
    + by apply Forall_singleton.
    + apply Forall_singleton. intros _. apply respond_starts.
  - apply Forall_singleton. intros _. by vm_compute.
Qed.

Lemma run_chat_from (acts : list chat_action)
    (asked : list (string * agent_result)) :
  fold_left chat_act acts (AIMessage welcome :: flat_map exchange asked)
  = AIMessage welcome :: flat_map exchange (fold_left record acts asked).
Proof.
  revert asked. induction acts as [|a acts IH]; intros asked; [done |].
  cbn [fold_left]. destruct a as [q r|]; cbn [chat_act record].
  - unfold ask. destruct (truthy q); [| apply IH].
    rewrite <- IH. f_equal. rewrite flat_map_app. cbn [flat_map exchange fst snd].
    rewrite app_nil_r, <- !app_assoc. done.
  - apply (IH []).
Qed.

Lemma exchanges_humans (asked : list (string * agent_result)) :
  length (flat_map exchange asked) = (2 * length asked)%nat
  ∧ length (List.filter is_human (flat_map exchange asked)) = length asked.
Proof.
  induction asked as [|x asked [IH1 IH2]]; [done |].
  cbn [flat_map exchange app List.filter is_human length]. rewrite IH1, IH2.
  split; lia.
Qed.

End ChatFacts.

(** X13: the cleaning of the agent's output on the chat page.  What is
    shown never has both the word "retrieve" and an opening brace in it:
    an output with both is replaced by the fixed apology, any other output
    is kept and gets the salutation when it lacks it, which adds neither of
    the two.  Cleaning a cleaned text changes nothing. *)
Theorem artifacts_never_shown (ai_response : string) :
  let out := Chatbot.postprocess ai_response in
  contains "retrieve" out && contains "{" out = false
  ∧ Chatbot.postprocess out = out
  ∧ (contains "retrieve" ai_response && contains "{" ai_response = true →
     out = Chatbot.fallback)
  ∧ (contains "retrieve" ai_response && contains "{" ai_response = false →
     out = Chatbot.ensure_salutation ai_response
     ∧ contains "retrieve" out = contains "retrieve" ai_response
     ∧ contains "{" out = contains "{" ai_response).
Proof.
  cbv zeta. split; [apply postprocess_artifacts |]. split; [| split].
  - unfold Chatbot.postprocess at 1. unfold Chatbot.clean_artifacts at 1.
    rewrite postprocess_artifacts.
    apply ensure_salutation_fixed, ensure_salutation_starts.
  - intros E. unfold Chatbot.postprocess, Chatbot.clean_artifacts. rewrite E.
    apply ensure_salutation_fixed. by destruct fallback_clean as (_ & _ & ->).
  - intros E. unfold Chatbot.postprocess, Chatbot.clean_artifacts. rewrite E.
    split; [done |]. apply ensure_salutation_artifacts.
Qed.

(** X14: every message of the assistant in the chat history starts with
    the salutation, whatever was asked and whatever the agent did: the
    welcome message, the cleaned output, the text shown when the result has
    no output, and the error message shown when the agent raised. *)
Theorem assistant_always_salutes (acts : list Chat.chat_action) :
  Forall (λ m, Chat.is_human m = false →
               startswith (Chat.content m) "Hare Krishna" = true)
    (Chat.run_chat acts).
Proof.
  unfold Chat.run_chat.
  assert (Forall Chat.salutes Chat.initial_messages) as H.
  { apply Forall_singleton. intros _. by vm_compute. }
  revert H. generalize Chat.initial_messages.
  induction acts as [|a acts IH]; intros msgs H; [exact H |].
  cbn [fold_left]. by apply IH, chat_act_salutes.
Qed.

(** X15: the chat history is the welcome message followed by one pair per
    question asked since the history was last cleared, the question and
    then the assistant's message for it; an empty input adds nothing.  So
    the history has an odd length, and the "Questions Asked" metric, shown
    once a question was asked, is the number of these questions. *)
Theorem chat_history_exchanges (acts : list Chat.chat_action) :
  let asked := Chat.exchanges acts in
  Chat.run_chat acts
  = Chat.AIMessage Chat.welcome :: flat_map Chat.exchange asked
  ∧ length (Chat.run_chat acts) = (1 + 2 * length asked)%nat
  ∧ Chat.questions_asked (Chat.run_chat acts)
    = (if bool_decide (asked = []) then None else Some (length asked)).
Proof.
  cbv zeta. unfold Chat.run_chat, Chat.exchanges, Chat.initial_messages.
  pose proof (run_chat_from acts []) as H. cbn [flat_map] in H. rewrite H.
  destruct (exchanges_humans (fold_left Chat.record acts [])) as [Hl Hh].
  split; [done |]. split; [cbn [length]; lia |].
  unfold Chat.questions_asked. cbn [length List.filter Chat.is_human].
  rewrite Hl, Hh.
  destruct (fold_left Chat.record acts []) as [|x xs]; [done |].
  rewrite bool_decide_eq_false_2 by done. done.
Qed.

(** ** The labels of the radio and the answer that wins *)

Section RadioFacts.
Import Session Page Radio.

Lemma ascii_compare_refl (a : ascii) : Ascii.compare a a = Eq.
Proof. unfold Ascii.compare. apply N.compare_refl. Qed.

Lemma ascii_compare_lt_trans (a b c : ascii) :
  Ascii.compare a b = Lt → Ascii.compare b c = Lt → Ascii.compare a c = Lt.
Proof.
  unfold Ascii.compare. rewrite !N.compare_lt_iff. apply N.lt_trans.
Qed.

Lemma string_compare_trans (s1 s2 s3 : string) :
  String.compare s1 s2 ≠ Gt → String.compare s2 s3 ≠ Gt →
  String.compare s1 s3 ≠ Gt.
Proof.
  revert s2 s3. induction s1 as [|a s1 IH]; intros [|b s2] [|c s3]; cbn; try done.
  destruct (Ascii.compare a b) eqn:E1; [| | done];
    destruct (Ascii.compare b c) eqn:E2; try done.
  - apply Ascii.compare_eq_iff in E1 as ->. apply Ascii.compare_eq_iff in E2 as ->.
    rewrite ascii_compare_refl. apply IH.
  - apply Ascii.compare_eq_iff in E1 as ->. by rewrite E2.
  - apply Ascii.compare_eq_iff in E2 as <-. by rewrite E1.
  - by rewrite (ascii_compare_lt_trans _ _ _ E1 E2).
Qed.

Lemma key_le_compare (a b : string) : key_le a b ↔ String.compare a b ≠ Gt.
Proof. unfold key_le, String.leb. by destruct (String.compare a b). Qed.

#[local] Instance key_le_trans : Transitive key_le.
Proof.
  intros a b c. rewrite !key_le_compare. apply string_compare_trans.
Qed.

#[local] Instance key_le_total : Total key_le.
Proof. intros a b. apply String.leb_total. Qed.

#[local] Instance key_le_antisym : AntiSymm eq key_le.
Proof. intros a b. apply String.leb_antisym. Qed.

(** The keys come in order, each once. *)
Lemma sorted_keys_spec (m : gmap string string) :
  Sorted key_le (sorted_keys m) ∧ sorted_keys m ≡ₚ elements (dom m).
Proof.
  split; [apply (Sorted_merge_sort key_le) | apply merge_sort_Permutation].
Qed.

(** No key is lost on the way to the labels. *)
Lemma answer_options_keys (d : quiz_data) :
  Forall2 (λ label key, ∃ value, options d !! key = Some value
                                 ∧ label = key +:+ ") " +:+ value)
    (answer_options d) (sorted_keys (options d)).
Proof.
  unfold answer_options.
  assert (Forall (λ key, is_Some (options d !! key)) (sorted_keys (options d)))
    as H.
  { apply Forall_forall. intros key Hin.
    destruct (sorted_keys_spec (options d)) as [_ Hp]. rewrite Hp in Hin.
    by apply elem_of_elements, elem_of_dom in Hin. }
  induction H as [|key keys [value Hv] _ IH]; [constructor |].
  simpl. rewrite Hv. simpl. constructor; [eauto | exact IH].
Qed.

Lemma sorted_keys_choices (m : gmap string string) :
  dom m = View.choice_set → sorted_keys m = choices.
Proof.
  intros Hdom. destruct (sorted_keys_spec m) as [Hs Hp].
  apply (Sorted_unique key_le); [done | | ].
  - repeat constructor.
  - rewrite Hp, Hdom. unfold View.choice_set. apply elements_list_to_set.
    apply (bool_decide_unpack _). by vm_compute.
Qed.

Lemma answer_options_valid (d : quiz_data) :
  valid_question d →
  ∃ a b c e,
    options d !! "A" = Some a ∧ options d !! "B" = Some b
    ∧ options d !! "C" = Some c ∧ options d !! "D" = Some e
    ∧ answer_options d = ["A) " +:+ a; "B) " +:+ b; "C) " +:+ c; "D) " +:+ e].
Proof.
  intros (_ & Hdom & _). pose proof (answer_options_keys d) as H.
  rewrite (sorted_keys_choices _ Hdom) in H. unfold choices in H.
  apply Forall2_cons_inv_r in H as (la & l1 & (a & Ha & ->) & H & ->).
  apply Forall2_cons_inv_r in H as (lb & l2 & (b & Hb & ->) & H & ->).
  apply Forall2_cons_inv_r in H as (lc & l3 & (c & Hc & ->) & H & ->).
  apply Forall2_cons_inv_r in H as (le & l4 & (e & He & ->) & H & ->).
  apply Forall2_nil_inv_r in H as ->.
  by exists a, b, c, e.
Qed.

(** Submitting the label of a key selects the key. *)
Lemma submit_label (st : quiz_state) (q : quiz_data) (key text : string) :
  phase_of st = InProgress → answered st = false →
  questions st !! current_question_index st = Some q →
  key ∈ choices →
  let st' := submit_answer st (Some (key +:+ ") " +:+ text)) in
  selected_answer st' = Some key ∧ answered st' = true
  ∧ score st' = (if bool_decide (key = correct q)
                 then score st + 1 else score st)%nat.
Proof.
  intros Hphase Hun Hq Hkey. cbv zeta. unfold submit_answer.
  assert (quiz_started st && negb (quiz_completed st) = true) as ->.
  { unfold phase_of in Hphase.
    destruct (quiz_started st), (quiz_completed st); by cbn in *. }
  rewrite Hq, Hun. cbn [negb].
  assert (∃ c, key = String c "") as [c ->].
  { unfold choices in Hkey. set_unfold. destruct Hkey as [->|[->|[->|[->|[]]]]]; eauto. }
  change (String c "" +:+ ") " +:+ text) with (String c (") " +:+ text)).
  cbn [selected_answer answered score]. split; [done |]. split; [done |].
  destruct (String.eqb_spec (String c "") (correct q)) as [E|E].
  - by rewrite bool_decide_eq_true_2.
  - by rewrite bool_decide_eq_false_2.
Qed.

End RadioFacts.

(** X16: the radio of a question that passed the parser shows four labels,
    the options A, B, C and D in this order whatever the order of the
    option lines in the reply, each label its letter, a parenthesis, a
    space and the text of the option. *)
Theorem radio_labels (response : string) (d : quiz_data) :
  parse_quiz_question response = Some d →
  ∃ a b c e,
    options d !! "A" = Some a ∧ options d !! "B" = Some b
    ∧ options d !! "C" = Some c ∧ options d !! "D" = Some e
    ∧ Radio.answer_options d
      = ["A) " +:+ a; "B) " +:+ b; "C) " +:+ c; "D) " +:+ e].
Proof. intros H. eapply answer_options_valid, parse_valid, H. Qed.

Lemma radio_labels_witness :
  ∃ d, parse_quiz_question Samples.shuffled_reply = Some d
       ∧ ∃ a b c e,
           options d !! "A" = Some a ∧ options d !! "B" = Some b
           ∧ options d !! "C" = Some c ∧ options d !! "D" = Some e
           ∧ Radio.answer_options d
             = ["A) " +:+ a; "B) " +:+ b; "C) " +:+ c; "D) " +:+ e].
Proof.
  destruct (parse_quiz_question Samples.shuffled_reply) as [d|] eqn:E;
    [| by vm_compute in E].
  exists d. split; [reflexivity |]. exact (radio_labels _ d E).
Defined.

(** X17: on every session the page can reach, while a question waits for
    its answer, the radio has four labels and exactly one of them wins:
    submitting a label selects its letter, marks the question answered, and
    adds one to the score when the letter is the correct one of the
    question and nothing otherwise; the correct letter is the letter of one
    of the labels. *)
Theorem one_winning_label (reply : nat → string) (acts : list Page.action)
    (st : Session.quiz_state) :
  st = fst (Page.run_page reply acts) →
  Session.phase_of st = Session.InProgress →
  Session.answered st = false →
  ∃ q,
    Session.questions st !! Session.current_question_index st = Some q
    ∧ length (Radio.answer_options q) = 4
    ∧ (∀ label, label ∈ Radio.answer_options q →
         ∃ key text,
           label = key +:+ ") " +:+ text ∧ options q !! key = Some text
           ∧ Session.selected_answer (Session.submit_answer st (Some label))
             = Some key
           ∧ Session.answered (Session.submit_answer st (Some label)) = true
           ∧ Session.score (Session.submit_answer st (Some label))
             = (if bool_decide (key = correct q)
                then Session.score st + 1 else Session.score st)%nat)
    ∧ (∃ text, correct q +:+ ") " +:+ text ∈ Radio.answer_options q
               ∧ Session.score
                   (Session.submit_answer st
                      (Some (correct q +:+ ") " +:+ text)))
                 = (Session.score st + 1)%nat)
    ∧ (∀ l1 l2, l1 ∈ Radio.answer_options q → l2 ∈ Radio.answer_options q →
         Session.score (Session.submit_answer st (Some l1))
         = (Session.score st + 1)%nat →
         Session.score (Session.submit_answer st (Some l2))
         = (Session.score st + 1)%nat →
         l1 = l2).
Proof.
  intros -> Hphase Hun.
  pose proof (fold_act_ok reply acts (Session.initial_state, 0) initial_ok) as Hok.
  fold (Page.run_page reply acts) in Hok.
  set (st := fst (Page.run_page reply acts)) in *.
  assert (Session.quiz_started st = true) as Hstarted.
  { unfold Session.phase_of in Hphase.
    destruct (Session.quiz_started st), (Session.quiz_completed st); by cbn in *. }
  destruct Hok as [_ _ Hindex _ _ _ _ Hvalid].
  destruct (lookup_lt_is_Some_2 _ _ (Hindex Hstarted)) as [q Hq].
  pose proof (Forall_lookup_1 _ _ _ _ Hvalid Hq) as Hvq.
  destruct (answer_options_valid q Hvq) as (a & b & c & e & Ha & Hb & Hc & He & Hl).
  assert (∀ label, label ∈ Radio.answer_options q →
            ∃ key text, label = key +:+ ") " +:+ text
                        ∧ options q !! key = Some text ∧ key ∈ choices) as Hlab.
  { intros label. rewrite Hl. unfold choices. set_unfold.
    intros [->|[->|[->|[->|[]]]]];
      [exists "A", a | exists "B", b | exists "C", c | exists "D", e];
      (split; [reflexivity |]); (split; [assumption |]); auto 6. }
  assert (∀ label key text, label = key +:+ ") " +:+ text → key ∈ choices →
            Session.score (Session.submit_answer st (Some label))
            = (Session.score st + 1)%nat → key = correct q) as Hwin.
  { intros label key text -> Hkey Hs.
    destruct (submit_label st q key text Hphase Hun Hq Hkey) as (_ & _ & Hscore).
    rewrite Hscore in Hs. case_bool_decide; [done | lia]. }
  exists q. split; [done |]. split; [by rewrite Hl |]. split; [| split].
  - intros label (key & text & -> & Htext & Hkey)%Hlab.
    exists key, text. split; [done |]. split; [done |].
    by apply submit_label.
  - destruct Hvq as (_ & _ & Hcorrect).
    assert (∃ text, options q !! correct q = Some text) as [text Htext].
    { unfold choices in Hcorrect. set_unfold.
      destruct Hcorrect as [->|[->|[->|[->|[]]]]]; eauto. }
    exists text. split.
    + rewrite Hl. unfold choices in Hcorrect. set_unfold.
      destruct Hcorrect as [E|[E|[E|[E|[]]]]]; rewrite E in Htext |- *;
        simplify_eq; auto 6.
    + destruct (submit_label st q (correct q) text Hphase Hun Hq Hcorrect)
        as (_ & _ & ->).
      by rewrite bool_decide_eq_true_2.
  - intros l1 l2 (k1 & t1 & E1 & Ht1 & Hk1)%Hlab (k2 & t2 & E2 & Ht2 & Hk2)%Hlab
      Hs1 Hs2.
    pose proof (Hwin _ _ _ E1 Hk1 Hs1) as ->.
    pose proof (Hwin _ _ _ E2 Hk2 Hs2) as ->.
    subst. by simplify_eq.
Qed.

Lemma one_winning_label_witness :
  Session.phase_of
    (fst (Page.run_page (λ _, Samples.good_reply) [Page.Start Page.Three]))
  = Session.InProgress
  ∧ ∃ q,
      Session.questions
        (fst (Page.run_page (λ _, Samples.good_reply) [Page.Start Page.Three]))
      !! 0%nat = Some q
      ∧ length (Radio.answer_options q) = 4.
Proof.
  split; [vm_compute; reflexivity |].
  destruct (one_winning_label (λ _, Samples.good_reply) [Page.Start Page.Three]
              _ eq_refl) as (q & Hq & Hlen & _);
    [vm_compute; reflexivity | vm_compute; reflexivity |].
  exists q. split; [exact Hq | exact Hlen].
Defined.

(** ** Replies with carriage returns *)

Section LineEndingFacts.
Import LineEndings.

Lemma lstrip_app_cr (l : string) :
  lstrip (l +:+ String CR "")
  = if truthy (lstrip l) then lstrip l +:+ String CR "" else "".
Proof.
  induction l as [|c l IH]; [reflexivity |].
  change (String c l +:+ String CR "") with (String c (l +:+ String CR "")).
  cbn [lstrip]. destruct (isspace c); [exact IH | reflexivity].
Qed.

(** A carriage return at the end of a line is stripped with the rest. *)
Lemma strip_cr (l : string) : strip (l +:+ String CR "") = strip l.
Proof.
  unfold strip. rewrite lstrip_app_cr.
  destruct (truthy (lstrip l)) eqn:E.
  - rewrite rstrip_app. reflexivity.
  - apply truthy_false in E. by rewrite E.
Qed.

Lemma append_cr (l x : string) :
  (l +:+ String CR "") +:+ x = l +:+ String CR x.
Proof.
  induction l as [|c l IH]; [reflexivity |].
  change (String c l +:+ String CR "") with (String c (l +:+ String CR "")).
  change (String c (l +:+ String CR "") +:+ x)
    with (String c ((l +:+ String CR "") +:+ x)).
  by rewrite IH.
Qed.

Lemma crlf_unlines_lines (ls : list string) :
  crlf_unlines ls = unlines (cr_lines ls).
Proof.
  induction ls as [|l ls IH]; [done |]. destruct ls as [|l' ls]; [done |].
  change (crlf_unlines (l :: l' :: ls))
    with (l +:+ String CR (String LF (crlf_unlines (l' :: ls)))).
  change (cr_lines (l :: l' :: ls))
    with ((l +:+ String CR "") :: cr_lines (l' :: ls)).
  rewrite IH. destruct (cr_lines (l' :: ls)) as [|x xs] eqn:E.
  { by destruct ls. }
  change (unlines ((l +:+ String CR "") :: x :: xs))
    with ((l +:+ String CR "") +:+ String LF (unlines (x :: xs))).
  by rewrite append_cr.
Qed.

Lemma cr_lines_no_LF (ls : list string) :
  Forall (λ l, occurs LF l = false) ls →
  Forall (λ l, occurs LF l = false) (cr_lines ls).
Proof.
  induction ls as [|l ls IH]; [done |]. intros [Hl Hls]%Forall_cons.
  destruct ls as [|l' ls]; [by apply Forall_singleton |].
  cbn [cr_lines]. apply Forall_cons. split; [| by apply IH].
  rewrite occurs_app, Hl. reflexivity.
Qed.

Lemma cr_lines_stripped (ls : list string) :
  map strip (List.filter nonblank (cr_lines ls))
  = map strip (List.filter nonblank ls).
Proof.
  induction ls as [|l ls IH]; [done |]. destruct ls as [|l' ls]; [done |].
  change (cr_lines (l :: l' :: ls))
    with ((l +:+ String CR "") :: cr_lines (l' :: ls)).
  change (List.filter nonblank ((l +:+ String CR "") :: cr_lines (l' :: ls)))
    with (if nonblank (l +:+ String CR "")
          then (l +:+ String CR "") :: List.filter nonblank (cr_lines (l' :: ls))
          else List.filter nonblank (cr_lines (l' :: ls))).
  change (List.filter nonblank (l :: l' :: ls))
    with (if nonblank l then l :: List.filter nonblank (l' :: ls)
          else List.filter nonblank (l' :: ls)).
  unfold nonblank at 1 4. rewrite strip_cr.
  destruct (truthy (strip l)); [| exact IH].
  rewrite !map_cons, strip_cr. by rewrite IH.
Qed.

End LineEndingFacts.

(** X18: a reply whose lines end with a carriage return and a line feed is
    parsed as the same reply with line feeds alone: the carriage return
    left at the end of a line is white space and is stripped with the
    line. *)
Theorem crlf_reply_parses_alike (lines : list string) :
  Forall (λ l, occurs LF l = false) lines →
  parse_quiz_question (LineEndings.crlf_unlines lines)
  = parse_quiz_question (unlines lines).
Proof.
  intros Hall. destruct lines as [|l ls]; [done |].
  rewrite crlf_unlines_lines, !parse_as_lines.
  rewrite (response_lines_unlines (l :: ls)) by done.
  rewrite response_lines_unlines.
  - by rewrite cr_lines_stripped.
  - by destruct ls.
  - by apply cr_lines_no_LF.
Qed.

Lemma crlf_reply_parses_alike_witness :
  Forall (λ l, occurs LF l = false) (split LF Samples.good_reply)
  ∧ parse_quiz_question
      (LineEndings.crlf_unlines (split LF Samples.good_reply))
    = parse_quiz_question Samples.good_reply
  ∧ is_Some (parse_quiz_question Samples.good_reply).
Proof.
  assert (Forall (λ l, occurs LF l = false) (split LF Samples.good_reply)) as H.
  { apply (bool_decide_unpack _). vm_compute. reflexivity. }
  split; [exact H |]. split.
  - rewrite (crlf_reply_parses_alike _ H). by f_equal.
  - vm_compute. eexists. reflexivity.
Defined.

(** ** Answering every question completes the quiz *)

Section Progress.
Import Session Page.

Lemma in_progress_flags (st : quiz_state) :
  phase_of st = InProgress ↔ quiz_started st = true ∧ quiz_completed st = false.
Proof.
  unfold phase_of.
  destruct (quiz_started st), (quiz_completed st); cbn; split; try done;
    by intros [? ?].
Qed.

(** An answer to the question that waits; no change when it has one. *)
Lemma submit_any (st : quiz_state) (label : string) (q : quiz_data) :
  quiz_started st = true → quiz_completed st = false →
  questions st !! current_question_index st = Some q →
  truthy label = true →
  questions (submit_answer st (Some label)) = questions st
  ∧ current_question_index (submit_answer st (Some label))
    = current_question_index st
  ∧ total_questions_selected (submit_answer st (Some label))
    = total_questions_selected st
  ∧ quiz_started (submit_answer st (Some label)) = true
  ∧ quiz_completed (submit_answer st (Some label)) = false
  ∧ answered (submit_answer st (Some label)) = true
  ∧ (answered st = false →
     score (submit_answer st (Some label))
     = (score st + (if wins label q then 1 else 0))%nat).
Proof.
  intros Hs Hc Hq Hl. unfold submit_answer. rewrite Hs, Hc, Hq. cbn [andb negb].
  destruct label as [|c label]; [done |].
  destruct (answered st) eqn:Ha; cbn [negb]; [done |].
  cbn -[String.eqb]. repeat (split; [done |]). intros _.
  destruct (String.eqb _ _); lia.
Qed.

Lemma answer_all_completes (reply : nat → string) (labels : list string) :
  ∀ (st : quiz_state) (calls : nat),
    session_ok st → quiz_started st = true → quiz_completed st = false →
    Forall (λ l, truthy l = true) labels →
    length labels
    = (length (questions st) - current_question_index st)%nat →
    ∃ st',
      fold_left (act reply) (answer_all labels) (st, calls) = (st', calls)
      ∧ phase_of st' = Completed
      ∧ questions st' = questions st
      ∧ total_questions_selected st' = total_questions_selected st
      ∧ (answered st = false →
         score st'
         = (score st
            + correct_answers labels
                (drop (current_question_index st) (questions st)))%nat).
Proof.
  induction labels as [|label labels IH]; intros st calls Hok Hs Hc Hall Hlen.
  { pose proof (ok_index _ Hok Hs). cbn [length] in Hlen. lia. }
  apply Forall_cons in Hall as [Hl Hall].
  pose proof (ok_index _ Hok Hs) as Hi.
  destruct (lookup_lt_is_Some_2 _ _ Hi) as [q Hq].
  destruct (submit_any st label q Hs Hc Hq Hl)
    as (Eq & Ei & Et & Es & Ec & Ea & Escore).
  pose proof (submit_ok st (Some label) Hok) as Hok1.
  rewrite (drop_S _ _ _ Hq).
  set (st1 := submit_answer st (Some label)) in *.
  destruct labels as [|label' labels].
  - assert ((current_question_index st + 1 <? length (questions st))%nat = false)
      as Hnext by (apply Nat.ltb_ge; cbn [length] in Hlen; lia).
    assert (finish_quiz st1
            = {| questions := questions st1;
                 current_question_index := current_question_index st1;
                 total_questions_selected := total_questions_selected st1;
                 score := score st1; answered := answered st1;
                 selected_answer := selected_answer st1;
                 quiz_started := quiz_started st1; quiz_completed := true |})
      as Hst2.
    { unfold finish_quiz. rewrite Es, Ec, Ea, Ei, Eq, Hnext.
      by rewrite (proj2 (Nat.ltb_lt _ _) Hi). }
    exists (finish_quiz st1). split; [reflexivity |]. rewrite Hst2.
    split; [unfold phase_of; cbn; by rewrite Es |].
    split; [exact Eq |]. split; [exact Et |].
    intros Hun. cbn [score correct_answers]. rewrite (Escore Hun).
    lia.
  - assert ((current_question_index st + 1 <? length (questions st))%nat = true)
      as Hnext by (apply Nat.ltb_lt; cbn [length] in Hlen; lia).
    assert (next_question st1
            = {| questions := questions st1;
                 current_question_index := current_question_index st1 + 1;
                 total_questions_selected := total_questions_selected st1;
                 score := score st1; answered := false; selected_answer := None;
                 quiz_started := quiz_started st1;
                 quiz_completed := quiz_completed st1 |}) as Hst2.
    { unfold next_question. rewrite Es, Ec, Ea, Ei, Eq, Hnext.
      by rewrite (proj2 (Nat.ltb_lt _ _) Hi). }
    pose proof (next_ok st1 Hok1) as Hok2.
    destruct (IH (next_question st1) calls Hok2)
      as (st' & Hf & Hp & Hq' & Ht & Hscore).
    { by rewrite Hst2. }
    { by rewrite Hst2. }
    { exact Hall. }
    { rewrite Hst2. cbn [questions current_question_index].
      rewrite Eq, Ei. cbn [length] in Hlen |- *. lia. }
    exists st'. split; [exact Hf |]. split; [exact Hp |].
    rewrite Hst2 in Hq', Ht, Hscore.
    cbn [questions current_question_index total_questions_selected score
         answered] in Hq', Ht, Hscore.
    rewrite Eq in Hq', Hscore. rewrite Ei in Hscore. rewrite Et in Ht.
    split; [exact Hq' |]. split; [exact Ht |].
    intros Hun. rewrite (Hscore eq_refl), (Escore Hun).
    rewrite Nat.add_1_r.
    change (correct_answers (label :: label' :: labels)
              (q :: drop (S (current_question_index st)) (questions st)))
      with ((if wins label q then 1 else 0)
            + correct_answers (label' :: labels)
                (drop (S (current_question_index st)) (questions st)))%nat.
    lia.
Qed.

End Progress.

(** X19: answering every question that is left completes the quiz.  From
    every session the page can reach with a quiz in progress, one non-empty
    label for each question from the current one on, each followed by the
    button the page shows ("Next Question", and "Finish Quiz" after the
    last), leads to the results page, with the same questions, the same
    number asked for and no further call of the model; when the current
    question was not answered yet, the score grows by the number of labels
    whose first character is the correct letter of their question. *)
Theorem answering_completes_quiz (reply : nat → string)
    (acts : list Page.action) (st : Session.quiz_state) (labels : list string) :
  st = fst (Page.run_page reply acts) →
  Session.phase_of st = Session.InProgress →
  Forall (λ l, truthy l = true) labels →
  length labels
  = (length (Session.questions st) - Session.current_question_index st)%nat →
  ∃ st',
    fst (Page.run_page reply (acts ++ Page.answer_all labels)) = st'
    ∧ snd (Page.run_page reply (acts ++ Page.answer_all labels))
      = snd (Page.run_page reply acts)
    ∧ Session.phase_of st' = Session.Completed
    ∧ Session.questions st' = Session.questions st
    ∧ Session.total_questions_selected st'
      = Session.total_questions_selected st
    ∧ (Session.answered st = false →
       Session.score st'
       = (Session.score st
          + Page.correct_answers labels
              (drop (Session.current_question_index st)
                 (Session.questions st)))%nat).
Proof.
  intros -> [Hs Hc]%in_progress_flags Hall Hlen.
  pose proof (fold_act_ok reply acts (Session.initial_state, 0) initial_ok) as Hok.
  fold (Page.run_page reply acts) in Hok.
  destruct (Page.run_page reply acts) as [st calls] eqn:E. cbn [fst snd] in *.
  destruct (answer_all_completes reply labels st calls Hok Hs Hc Hall Hlen)
    as (st' & Hf & Hp & Hq & Ht & Hscore).
  exists st'. unfold Page.run_page in *.
  rewrite fold_left_app, E, Hf. by cbn [fst snd].
Qed.

Lemma answering_completes_quiz_witness :
  Session.phase_of
    (fst (Page.run_page (λ _, Samples.good_reply) [Page.Start Page.Three]))
  = Session.InProgress
  ∧ Session.phase_of
      (fst (Page.run_page (λ _, Samples.good_reply)
              ([Page.Start Page.Three]
               ++ Page.answer_all ["A) first"; "B) second"; "C) third"])))
    = Session.Completed
  ∧ snd (Page.run_page (λ _, Samples.good_reply)
           ([Page.Start Page.Three]
            ++ Page.answer_all ["A) first"; "B) second"; "C) third"]))
    = 3%nat.
Proof.
  split; [vm_compute; reflexivity |].
  destruct (answering_completes_quiz (λ _, Samples.good_reply)
              [Page.Start Page.Three] _
              ["A) first"; "B) second"; "C) third"] eq_refl)
    as (st' & Hf & Hcalls & Hp & _);
    [vm_compute; reflexivity | by repeat constructor | vm_compute; reflexivity |].
  rewrite Hf, Hcalls. split; [exact Hp |]. vm_compute. reflexivity.
Defined.
